(** * NauPanel: server state, log buffer and live console

    A shallow embedding of the parts of NauPanel that keep per-server
    lifecycle state and console logs, and of the console client that
    displays them:

    - [Js]      the ECMAScript built-ins the handlers rely on
                ([String.prototype.trim], [Number], [Math.max],
                [Array.prototype.slice], [atob], ...);
    - [Mock]    frontend/src/app/mocks: [mock-data.ts] and
                [mock-api.interceptor.ts] ([mockApiInterceptor]);
    - [Backend] backend/src/index.ts, the [/api/servers/:id/stats] route;
    - [Client]  frontend/src/app/services: [ConsoleSocketService] and
                [AppStateService.refreshStatuses].

    Conventions. Strings are sequences of 8-bit code units: a source
    string is read as Latin-1, so code units above 255 are outside the
    model. Module-level variables and service fields are threaded as
    explicit state. What the code awaits or is called back with (the
    clock, HTTP responses, socket messages, interval ticks, the remote
    console) enters as an argument or an event; what it asks of its
    environment (requests, intervals, socket sends) leaves as a list of
    effects. *)

From Stdlib Require Import ZArith QArith Ascii String List Lia.
From stdpp Require Import base list strings gmap pretty.

Local Open Scope Z_scope.

(** ** ECMAScript built-ins *)

Module Js.

(** *** Strings *)

(** WhiteSpace and LineTerminator code units below 256: TAB, LF, VT, FF,
    CR, SP and NBSP. *)
Definition isWhiteSpace (c : ascii) : bool :=
  let n := N_of_ascii c in
  (N.eqb n 9 || N.eqb n 10 || N.eqb n 11 || N.eqb n 12 || N.eqb n 13
   || N.eqb n 32 || N.eqb n 160)%bool.

Fixpoint trimStart (s : string) : string :=
  match s with
  | EmptyString => EmptyString
  | String c r => if isWhiteSpace c then trimStart r else s
  end.

Fixpoint trimEnd (s : string) : string :=
  match s with
  | EmptyString => EmptyString
  | String c r =>
      match trimEnd r with
      | EmptyString => if isWhiteSpace c then EmptyString else String c EmptyString
      | r' => String c r'
      end
  end.

(** [String.prototype.trim]. *)
Definition trim (s : string) : string := trimEnd (trimStart s).

(** [String.prototype.startsWith]. *)
Definition startsWith (p s : string) : bool := String.prefix p s.

(** [String.prototype.split] on a one-character separator. *)
Fixpoint split (sep : ascii) (s : string) : list string :=
  match s with
  | EmptyString => [EmptyString]
  | String c r =>
      if Ascii.eqb c sep then EmptyString :: split sep r
      else match split sep r with
           | [] => [String c EmptyString]
           | p :: ps => String c p :: ps
           end
  end.

(** [Array.prototype.join]. *)
Fixpoint join (sep : string) (l : list string) : string :=
  match l with
  | [] => EmptyString
  | [x] => x
  | x :: r => x +:+ sep +:+ join sep r
  end.

(** *** Numbers *)

(** A Number value. A finite value is carried as the rational it is
    (every binary64 value is one). *)
Inductive JsNumber :=
| NaN
| NegInfinity
| PosInfinity
| Fin (q : Q).

Definition num (z : Z) : JsNumber := Fin (inject_Z z).

Definition isNaN (x : JsNumber) : bool :=
  match x with NaN => true | _ => false end.

(** Unary minus. *)
Definition neg (x : JsNumber) : JsNumber :=
  match x with
  | NaN => NaN
  | NegInfinity => PosInfinity
  | PosInfinity => NegInfinity
  | Fin q => Fin (Qopp q)
  end.

(** [Math.max] of two arguments. *)
Definition Math_max (x y : JsNumber) : JsNumber :=
  match x, y with
  | NaN, _ | _, NaN => NaN
  | PosInfinity, _ | _, PosInfinity => PosInfinity
  | NegInfinity, v | v, NegInfinity => v
  | Fin p, Fin q => if Qle_bool p q then Fin q else Fin p
  end.

(** The result of the abstract operation ToIntegerOrInfinity. *)
Inductive IntegerOrInfinity :=
| MinusInf
| Integer (z : Z)
| PlusInf.

(** Truncation towards zero. *)
Definition truncate (q : Q) : Z := Z.quot (Qnum q) (Zpos (Qden q)).

Definition ToIntegerOrInfinity (x : JsNumber) : IntegerOrInfinity :=
  match x with
  | NaN => Integer 0
  | NegInfinity => MinusInf
  | PosInfinity => PlusInf
  | Fin q => Integer (truncate q)
  end.

(** [Array.prototype.slice(start)] with [end] left undefined. *)
Definition slice {A} (start : JsNumber) (l : list A) : list A :=
  let len := Z.of_nat (length l) in
  let k :=
    match ToIntegerOrInfinity start with
    | MinusInf => 0
    | Integer rel => if rel <? 0 then Z.max (len + rel) 0 else Z.min rel len
    | PlusInf => len
    end in
  drop (Z.to_nat k) l.

(** The Number nearest to a rational (round to nearest, ties to even,
    in binary64): 53 significant bits, exponents down to the subnormals
    at [2^-1074], and infinity from [2^1024] on. The sign of a zero is
    not kept; no handler here tells the two zeros apart. *)
Definition roundBinary64 (q : Q) : JsNumber :=
  let n := Qnum q in
  let d := Zpos (Qden q) in
  if n =? 0 then Fin (inject_Z 0)
  else
    let a := Z.abs n in
    let e0 := Z.log2 a - Z.log2 d in
    let below := if 0 <=? e0 then a <? d * 2 ^ e0 else a * 2 ^ (- e0) <? d in
    let e := if below then e0 - 1 else e0 in
    let k := Z.max (e - 52) (-1074) in
    let '(p, r) := if 0 <=? k then (a, d * 2 ^ k) else (a * 2 ^ (- k), d) in
    let m := p / r in
    let rest := p mod r in
    let m :=
      if 2 * rest <? r then m
      else if r <? 2 * rest then m + 1
      else if Z.even m then m else m + 1 in
    if (0 <=? k) && (2 ^ 1024 <=? m * 2 ^ k) then
      if n <? 0 then NegInfinity else PosInfinity
    else
      let v := if 0 <=? k then inject_Z (m * 2 ^ k)
               else Qred (Qmake m (Z.to_pos (2 ^ (- k)))) in
      Fin (if n <? 0 then Qopp v else v).

(** *** StringToNumber

    [Number(s)] for a string [s], following the StringNumericLiteral
    grammar: optional white space around an optionally signed decimal
    literal (digits, fraction, exponent, or [Infinity]) or an unsigned
    hexadecimal, octal or binary integer literal; white space alone is 0
    and anything else is NaN. The value is the mathematical value of the
    literal, rounded to a Number. *)

Definition digitOf (base : N) (c : ascii) : option Z :=
  let n := N_of_ascii c in
  let v :=
    if (N.leb 48 n && N.leb n 57)%bool then Some (n - 48)%N
    else if (N.leb 97 n && N.leb n 102)%bool then Some (n - 87)%N
    else if (N.leb 65 n && N.leb n 70)%bool then Some (n - 55)%N
    else None in
  match v with
  | Some d => if N.ltb d base then Some (Z.of_N d) else None
  | None => None
  end.

(** The longest run of digits in [base] at the front of [s], and the rest. *)
Fixpoint takeDigits (base : N) (s : string) : list Z * string :=
  match s with
  | EmptyString => ([], EmptyString)
  | String c r =>
      match digitOf base c with
      | Some d => let '(ds, rest) := takeDigits base r in (d :: ds, rest)
      | None => ([], s)
      end
  end.

Definition digitsValue (base : Z) (ds : list Z) : Z :=
  fold_left (fun acc d => base * acc + d) ds 0.

(** The Number for [m * 10^e]. *)
Definition decimal (m e : Z) : JsNumber :=
  roundBinary64
    (if 0 <=? e then inject_Z (m * 10 ^ e)
     else Qmake m (Z.to_pos (10 ^ (- e)))).

(** ExponentPart_opt followed by the end of the literal. *)
Definition parseExponent (s : string) : option Z :=
  match s with
  | EmptyString => Some 0
  | String c r =>
      if (Ascii.eqb c "e" || Ascii.eqb c "E")%bool then
        let '(sign, r') :=
          match r with
          | String "+"%char t => (1, t)
          | String "-"%char t => (-1, t)
          | _ => (1, r)
          end in
        match takeDigits 10 r' with
        | ((_ :: _) as ds, EmptyString) => Some (sign * digitsValue 10 ds)
        | _ => None
        end
      else None
  end.

(** StrUnsignedDecimalLiteral. *)
Definition parseUnsignedDecimal (s : string) : JsNumber :=
  if String.eqb s "Infinity" then PosInfinity
  else
    let '(ip, r1) := takeDigits 10 s in
    match r1 with
    | String "."%char r2 =>
        let '(fp, r3) := takeDigits 10 r2 in
        match ip, fp with
        | [], [] => NaN
        | _, _ =>
            match parseExponent r3 with
            | Some e => decimal (digitsValue 10 (ip ++ fp)) (e - Z.of_nat (length fp))
            | None => NaN
            end
        end
    | _ =>
        match ip with
        | [] => NaN
        | _ =>
            match parseExponent r1 with
            | Some e => decimal (digitsValue 10 ip) e
            | None => NaN
            end
        end
    end.

(** NonDecimalIntegerLiteral: [0x], [0o] or [0b] and at least one digit. *)
Definition parseNonDecimal (s : string) : option JsNumber :=
  match s with
  | String "0"%char (String p r) =>
      let base : option N :=
        if (Ascii.eqb p "x" || Ascii.eqb p "X")%bool then Some 16%N
        else if (Ascii.eqb p "o" || Ascii.eqb p "O")%bool then Some 8%N
        else if (Ascii.eqb p "b" || Ascii.eqb p "B")%bool then Some 2%N
        else None in
      match base with
      | Some b =>
          match takeDigits b r with
          | ((_ :: _) as ds, EmptyString) =>
              Some (roundBinary64 (inject_Z (digitsValue (Z.of_N b) ds)))
          | _ => Some NaN
          end
      | None => None
      end
  | _ => None
  end.

(** [Number(s)]. *)
Definition Number (s : string) : JsNumber :=
  let t := trim s in
  match t with
  | EmptyString => num 0
  | String "+"%char r => parseUnsignedDecimal r
  | String "-"%char r => neg (parseUnsignedDecimal r)
  | _ =>
      match parseNonDecimal t with
      | Some v => v
      | None => parseUnsignedDecimal t
      end
  end.

(** *** [atob]: forgiving base64 decoding; [None] is InvalidCharacterError. *)

Definition isAsciiWhitespace (c : ascii) : bool :=
  let n := N_of_ascii c in
  (N.eqb n 9 || N.eqb n 10 || N.eqb n 12 || N.eqb n 13 || N.eqb n 32)%bool.

Definition base64Value (c : ascii) : option N :=
  let n := N_of_ascii c in
  if (N.leb 65 n && N.leb n 90)%bool then Some (n - 65)%N
  else if (N.leb 97 n && N.leb n 122)%bool then Some (n - 71)%N
  else if (N.leb 48 n && N.leb n 57)%bool then Some (n + 4)%N
  else if N.eqb n 43 then Some 62%N
  else if N.eqb n 47 then Some 63%N
  else None.

Fixpoint base64Values (cs : list ascii) : option (list N) :=
  match cs with
  | [] => Some []
  | c :: r =>
      match base64Value c, base64Values r with
      | Some v, Some vs => Some (v :: vs)
      | _, _ => None
      end
  end.

Definition byte (n : N) : ascii := ascii_of_N (n mod 256).

(** Groups of four sextets give three bytes; a tail of two or three
    sextets gives one or two bytes, the spare bits being dropped. *)
Fixpoint decodeSextets (fuel : nat) (vs : list N) : list ascii :=
  match fuel with
  | O => []
  | S fuel' =>
      match vs with
      | a :: b :: c :: d :: r =>
          let w := (a * 262144 + b * 4096 + c * 64 + d)%N in
          byte (w / 65536) :: byte (w / 256) :: byte w :: decodeSextets fuel' r
      | [a; b; c] =>
          let w := (a * 4096 + b * 64 + c)%N in
          [byte (w / 1024); byte (w / 4)]
      | [a; b] => [byte ((a * 64 + b) / 16)]
      | _ => []
      end
  end.

Definition stripPadding (cs : list ascii) : list ascii :=
  if Nat.eqb (length cs mod 4) 0 then
    match rev cs with
    | "="%char :: "="%char :: r => rev r
    | "="%char :: r => rev r
    | _ => cs
    end
  else cs.

Definition atob (s : string) : option string :=
  let cs := stripPadding (filter (fun c => negb (isAsciiWhitespace c)) (list_ascii_of_string s)) in
  if Nat.eqb (length cs mod 4) 1 then None
  else
    match base64Values cs with
    | Some vs => Some (string_of_list_ascii (decodeSextets (length vs) vs))
    | None => None
    end.

End Js.

(** ** Shared data: [ServerState] *)

Inductive ServerStatus := offline | online | restarting.

Inductive LifecycleAction := start | stop | restart.

Record ServerState := {
  status : ServerStatus;
  lastAction : option LifecycleAction;
  lastActionAt : option string
}.

(** The state [{ status: 'offline', lastAction: null, lastActionAt: null }]. *)
Definition offlineState : ServerState :=
  {| status := offline; lastAction := None; lastActionAt := None |}.

(** ** The mock API: [mock-data.ts] and [mock-api.interceptor.ts] *)

Module Mock.
Import Js.

Record MockServer := {
  server_id : string;
  name : string;
  path : string;
  port : Z;
  description : option string
}.

Definition mockServers : list MockServer := [
  {| server_id := "nau-survival"; name := "Nau Survival";
     path := "D:/Minecraft/servers/nau-survival"; port := 25565;
     description := Some "Vanilla survival world focused on long-term progression." |};
  {| server_id := "nau-creative"; name := "Nau Creative";
     path := "D:/Minecraft/servers/nau-creative"; port := 25566;
     description := Some "Creative sandbox for builds, schematics, and experiments." |};
  {| server_id := "nau-skyblock"; name := "Nau Skyblock";
     path := "D:/Minecraft/servers/nau-skyblock"; port := 25567;
     description := Some "Skyblock challenge with economy and island progression." |};
  {| server_id := "nau-events"; name := "Nau Events";
     path := "D:/Minecraft/servers/nau-events"; port := 25568;
     description := Some "Event server for mini-games and seasonal activities." |}
].

Definition mockStates : list (string * ServerState) := [
  ("nau-survival", {| status := online; lastAction := Some start;
                      lastActionAt := Some "2026-02-08T07:40:00.000Z" |});
  ("nau-creative", {| status := offline; lastAction := Some stop;
                      lastActionAt := Some "2026-02-08T07:10:00.000Z" |});
  ("nau-skyblock", {| status := restarting; lastAction := Some restart;
                      lastActionAt := Some "2026-02-08T07:55:00.000Z" |});
  ("nau-events", offlineState)
].

(** [s] between double quotes. *)
Definition quoted (s : string) : string :=
  String "034"%char (s +:+ String "034"%char EmptyString).

Definition doneLine (secs : string) : string :=
  "[INFO] Done (" +:+ secs +:+ "s)! For help, type " +:+ quoted "help".

Definition mockLogs : list (string * list string) := [
  ("nau-survival", [
     "[INFO] Starting minecraft server version 1.20.4";
     "[INFO] Loading properties";
     "[INFO] Default game type: SURVIVAL";
     doneLine "4.21" ]);
  ("nau-creative", [
     "[INFO] Starting minecraft server version 1.20.4";
     "[INFO] Default game type: CREATIVE";
     "[INFO] Preparing spawn area: 78%";
     doneLine "3.87" ]);
  ("nau-skyblock", [
     "[INFO] Starting minecraft server version 1.20.4";
     "[INFO] Loading skyblock islands";
     "[WARN] Island queue backlog detected";
     doneLine "5.02" ]);
  ("nau-events", [
     "[INFO] Starting minecraft server version 1.20.4";
     "[INFO] Loading mini-games";
     "[INFO] Arena 2 ready";
     doneLine "4.66" ])
].

Inductive FileType := file | dir.

Record FileEntry := {
  entry_path : string;
  entry_type : FileType;
  entry_content : option string
}.

(** The module-level variables of the interceptor. *)
Record Store := {
  serverStates : gmap string ServerState;
  serverLogs : gmap string (list string);
  serverFiles : gmap string (list FileEntry);
  statesSeeded : bool;
  logsSeeded : bool
}.

(** The store when the module is loaded. *)
Definition initial : Store :=
  {| serverStates := ∅; serverLogs := ∅; serverFiles := ∅;
     statesSeeded := false; logsSeeded := false |}.

Definition setStates (m : gmap string ServerState) (st : Store) : Store :=
  {| serverStates := m; serverLogs := serverLogs st; serverFiles := serverFiles st;
     statesSeeded := statesSeeded st; logsSeeded := logsSeeded st |}.

Definition setLogs (m : gmap string (list string)) (st : Store) : Store :=
  {| serverStates := serverStates st; serverLogs := m; serverFiles := serverFiles st;
     statesSeeded := statesSeeded st; logsSeeded := logsSeeded st |}.

Definition setFiles (m : gmap string (list FileEntry)) (st : Store) : Store :=
  {| serverStates := serverStates st; serverLogs := serverLogs st; serverFiles := m;
     statesSeeded := statesSeeded st; logsSeeded := logsSeeded st |}.

(** [getServerState]: the state object of [id], created offline on a miss. *)
Definition getServerState (id : string) (st : Store) : ServerState * Store :=
  match serverStates st !! id with
  | Some existing => (existing, st)
  | None => (offlineState, setStates (<[id := offlineState]> (serverStates st)) st)
  end.

(** Assignments to the fields of the state object of [id] write through
    to [serverStates], which holds that object. *)
Definition storeState (id : string) (state : ServerState) (st : Store) : Store :=
  setStates (<[id := state]> (serverStates st)) st.

Definition seedStates (st : Store) : Store :=
  if statesSeeded st then st
  else
    {| serverStates :=
         fold_left (fun m '(id, state) => <[id := state]> m) mockStates (serverStates st);
       serverLogs := serverLogs st; serverFiles := serverFiles st;
       statesSeeded := true; logsSeeded := logsSeeded st |}.

Definition seedLogs (st : Store) : Store :=
  if logsSeeded st then st
  else
    {| serverStates := serverStates st;
       serverLogs :=
         fold_left (fun m '(id, logs) => <[id := logs]> m) mockLogs (serverLogs st);
       serverFiles := serverFiles st;
       statesSeeded := statesSeeded st; logsSeeded := true |}.

Definition seedEntries : list FileEntry := [
  {| entry_path := "config"; entry_type := dir; entry_content := None |};
  {| entry_path := "logs"; entry_type := dir; entry_content := None |};
  {| entry_path := "world"; entry_type := dir; entry_content := None |};
  {| entry_path := "config/server.properties"; entry_type := file;
     entry_content := Some ("motd=A Nau server" +:+ String "010"%char "max-players=20") |};
  {| entry_path := "config/eula.txt"; entry_type := file;
     entry_content := Some "eula=true" |};
  {| entry_path := "logs/latest.log"; entry_type := file;
     entry_content := Some ("[INFO] Server started" +:+ String "010"%char "[INFO] Done") |}
].

Definition seedFiles (st : Store) : Store :=
  if negb (Nat.eqb (size (serverFiles st)) 0) then st
  else
    setFiles
      (fold_left (fun m server => <[server_id server := seedEntries]> m)
         mockServers (serverFiles st))
      st.

(** [value.replace(/^\/+/, '').replace(/\/+$/, '')]. *)
Fixpoint dropLeadingSlashes (s : string) : string :=
  match s with
  | String "/"%char r => dropLeadingSlashes r
  | _ => s
  end.

Fixpoint dropTrailingSlashes (s : string) : string :=
  match s with
  | EmptyString => EmptyString
  | String c r =>
      match dropTrailingSlashes r with
      | EmptyString => if Ascii.eqb c "/" then EmptyString else String c EmptyString
      | r' => String c r'
      end
  end.

Definition normalizePath (value : string) : string :=
  dropTrailingSlashes (dropLeadingSlashes value).

Definition getParentPath (value : string) : string :=
  let normalized := normalizePath value in
  let parts := split "/" normalized in
  join "/" (removelast parts).

Definition getName (value : string) : string :=
  let normalized := normalizePath value in
  let parts := split "/" normalized in
  List.last parts EmptyString.

(** [appendLog]: push, then [splice] the front so that 200 lines remain. *)
Definition appendLog (id line : string) (st : Store) : Store :=
  let logs := default [] (serverLogs st !! id) in
  let logs := logs ++ [line] in
  let logs :=
    if (200 <? length logs)%nat then drop (length logs - 200) logs else logs in
  setLogs (<[id := logs]> (serverLogs st)) st.

(** *** Requests and responses *)

(** An [HttpRequest]: [pathname] and [searchParams] are the path and the
    decoded query pairs of [new URL(req.url, 'http://mock')], [search] is
    the query string as written ([EmptyString], or [?] and the pairs), and
    [body] is the JSON object sent, if any, as its string-valued fields. *)
Record HttpRequest := {
  method : string;
  pathname : string;
  search : string;
  searchParams : list (string * string);
  body : option (list (string * string))
}.

(** [req.url]. *)
Definition url (req : HttpRequest) : string := pathname req +:+ search req.

Fixpoint lookupField (key : string) (fields : list (string * string)) : option string :=
  match fields with
  | [] => None
  | (k, v) :: r => if String.eqb k key then Some v else lookupField key r
  end.

(** [url.searchParams.get(key)]: the first value of [key], else [null]. *)
Definition searchParam (key : string) (req : HttpRequest) : option string :=
  lookupField key (searchParams req).

(** [body?.key]. *)
Definition bodyField (key : string) (req : HttpRequest) : option string :=
  match body req with
  | Some fields => lookupField key fields
  | None => None
  end.

Record FileListing := {
  listing_name : string;
  listing_path : string;
  listing_type : FileType;
  listing_size : option nat
}.

Record HostStats := {
  cpuPercent : Z;
  memUsedMB : Z;
  memTotalMB : Z;
  memPercent : Z
}.

Inductive Body :=
| BHealth (timestamp : string)
| BServers (servers : list MockServer)
| BError (error : string)
| BServerState (server : MockServer) (state : ServerState)
| BLogs (logs : list string)
| BOk
| BStats (st : ServerStatus) (playersOnline playersMax : Z) (names : list string)
         (tps : Q) (host : HostStats) (pid procCpuPercent memMB : Z)
         (worldPath : string) (sizeBytes : Z) (timestamp : string)
| BEntries (entries : list FileListing)
| BContent (content : string)
| BBlob (content : string).

(** What a call of the interceptor produces: the request handed to
    [next], a response, or an exception. *)
Inductive Outcome :=
| Forward
| Respond (code : Z) (b : Body)
| Thrown.

(** [ok(body, status = 200)]. *)
Definition ok (b : Body) : Outcome := Respond 200 b.

(** *** Routing *)

Definition actions : list string := [
  "status"; "start"; "stop"; "restart"; "logs"; "command"; "stats";
  "files/content"; "files/rename"; "files/upload"; "files/download";
  "files/dir"; "files" ].

Fixpoint dropPrefix (p s : string) : option string :=
  match p, s with
  | EmptyString, _ => Some s
  | String a p', String b s' => if Ascii.eqb a b then dropPrefix p' s' else None
  | String _ _, EmptyString => None
  end.

(** The longest prefix without [/], and the rest. *)
Fixpoint segment (s : string) : string * string :=
  match s with
  | EmptyString => (EmptyString, EmptyString)
  | String c r =>
      if Ascii.eqb c "/" then (EmptyString, s)
      else let '(seg, rest) := segment r in (String c seg, rest)
  end.

Definition inList (x : string) (l : list string) : bool :=
  existsb (String.eqb x) l.

(** [url.pathname.match(/^\/api\/servers\/([^/]+)(?:\/(status|...|files))?$/)]:
    the captures [match[1]] and [match[2]]. *)
Definition matchRoute (p : string) : option (string * option string) :=
  match dropPrefix "/api/servers/" p with
  | None => None
  | Some rest =>
      match segment rest with
      | (EmptyString, _) => None
      | (id, EmptyString) => Some (id, None)
      | (id, String _ action) =>
          if inList action actions then Some (id, Some action) else None
      end
  end.

(** *** The file routes *)

Fixpoint skip (n : nat) (s : string) : string :=
  match n, s with
  | O, _ => s
  | S n', String _ r => skip n' r
  | S _, EmptyString => EmptyString
  end.

(** GetSubstitution for a string pattern: [$$], [$&], [$`] and [$'] are
    expanded in the replacement text. *)
Fixpoint getSubstitution (matched before after repl : string) : string :=
  match repl with
  | EmptyString => EmptyString
  | String "$"%char (String "$"%char r) =>
      String "$"%char (getSubstitution matched before after r)
  | String "$"%char (String "&"%char r) =>
      matched +:+ getSubstitution matched before after r
  | String "$"%char (String "`"%char r) =>
      before +:+ getSubstitution matched before after r
  | String "$"%char (String "'"%char r) =>
      after +:+ getSubstitution matched before after r
  | String c r => String c (getSubstitution matched before after r)
  end.

Fixpoint replaceFrom (pat repl before s : string) : string :=
  if String.prefix pat s then
    let after := skip (String.length pat) s in
    before +:+ getSubstitution pat before after repl +:+ after
  else
    match s with
    | EmptyString => before
    | String c r => replaceFrom pat repl (before +:+ String c EmptyString) r
    end.

(** [s.replace(pat, repl)] for a string pattern: the first occurrence. *)
Definition replace (pat repl s : string) : string :=
  replaceFrom pat repl EmptyString s.

(** The first element satisfying [p] is changed by [f]. *)
Fixpoint updateFirst {A} (p : A -> bool) (f : A -> A) (l : list A) : list A :=
  match l with
  | [] => []
  | x :: r => if p x then f x :: r else x :: updateFirst p f r
  end.

Definition filesOf (id : string) (st : Store) : list FileEntry :=
  default [] (serverFiles st !! id).

Definition setFilesOf (id : string) (files : list FileEntry) (st : Store) : Store :=
  setFiles (<[id := files]> (serverFiles st)) st.

Definition isFile (t : FileType) : bool :=
  match t with file => true | dir => false end.

Definition under (dirPath p : string) : bool :=
  (String.eqb p dirPath || startsWith (dirPath +:+ "/") p)%bool.

Definition fileRoute (action m : string) (req : HttpRequest) (id : string)
    (st : Store) : option (Outcome * Store) :=
  let files := filesOf id st in
  let isGET := String.eqb m "GET" in
  let isPOST := String.eqb m "POST" in
  if (String.eqb action "files" && isGET)%bool then
    let pathParam := normalizePath (default EmptyString (searchParam "path" req)) in
    let entries :=
      map (fun entry =>
             {| listing_name := getName (entry_path entry);
                listing_path := normalizePath (entry_path entry);
                listing_type := entry_type entry;
                listing_size :=
                  if isFile (entry_type entry)
                  then Some (default O (String.length <$> entry_content entry))
                  else None |})
          (List.filter (fun entry => String.eqb (getParentPath (entry_path entry)) pathParam)
             files) in
    Some (ok (BEntries entries), st)
  else if (String.eqb action "files/content" && isGET)%bool then
    let pathParam := normalizePath (default EmptyString (searchParam "path" req)) in
    match List.find (fun item => (String.eqb (normalizePath (entry_path item)) pathParam
                                  && isFile (entry_type item))%bool) files with
    | None => Some (Respond 404 (BError "File not found."), st)
    | Some entry => Some (ok (BContent (default EmptyString (entry_content entry))), st)
    end
  else if (String.eqb action "files/content" && isPOST)%bool then
    let pathParam := normalizePath (default EmptyString (bodyField "path" req)) in
    let content := default EmptyString (bodyField "content" req) in
    let here := fun item => String.eqb (normalizePath (entry_path item)) pathParam in
    let files :=
      match List.find here files with
      | Some _ =>
          updateFirst here
            (fun existing => {| entry_path := entry_path existing; entry_type := file;
                                entry_content := Some content |})
            files
      | None =>
          files ++ [{| entry_path := pathParam; entry_type := file;
                       entry_content := Some content |}]
      end in
    Some (ok BOk, setFilesOf id files st)
  else if (String.eqb action "files/dir" && isPOST)%bool then
    let pathParam := normalizePath (default EmptyString (bodyField "path" req)) in
    let files :=
      match List.find (fun item => String.eqb (normalizePath (entry_path item)) pathParam)
              files with
      | Some _ => files
      | None => files ++ [{| entry_path := pathParam; entry_type := dir;
                             entry_content := None |}]
      end in
    Some (ok BOk, setFilesOf id files st)
  else if (String.eqb action "files/rename" && isPOST)%bool then
    let from := normalizePath (default EmptyString (bodyField "from" req)) in
    let to := normalizePath (default EmptyString (bodyField "to" req)) in
    let files :=
      map (fun item =>
             if under from (normalizePath (entry_path item))
             then {| entry_path := replace from to (normalizePath (entry_path item));
                     entry_type := entry_type item;
                     entry_content := entry_content item |}
             else item)
          files in
    Some (ok BOk, setFilesOf id files st)
  else if (String.eqb action "files" && String.eqb m "DELETE")%bool then
    let pathParam := normalizePath (default EmptyString (searchParam "path" req)) in
    let files :=
      List.filter (fun item => negb (under pathParam (normalizePath (entry_path item))))
        files in
    Some (ok BOk, setFilesOf id files st)
  else if (String.eqb action "files/upload" && isPOST)%bool then
    let basePath := normalizePath (default EmptyString (bodyField "path" req)) in
    let name := default "upload.txt" (bodyField "name" req) in
    match atob (default EmptyString (bodyField "contentBase64" req)) with
    | None => Some (Thrown, st)
    | Some content =>
        let pathParam := normalizePath (basePath +:+ "/" +:+ name) in
        let files := files ++ [{| entry_path := pathParam; entry_type := file;
                                  entry_content := Some content |}] in
        Some (ok BOk, setFilesOf id files st)
    end
  else if (String.eqb action "files/download" && isGET)%bool then
    let pathParam := normalizePath (default EmptyString (searchParam "path" req)) in
    match List.find (fun item => (String.eqb (normalizePath (entry_path item)) pathParam
                                  && isFile (entry_type item))%bool) files with
    | None => Some (Respond 404 (BError "File not found."), st)
    | Some entry => Some (ok (BBlob (default EmptyString (entry_content entry))), st)
    end
  else None.

(** *** The interceptor *)

(** [limit] of the logs route, from [url.searchParams.get('limit')]:
    [Number(text ?? '50')], then 50 for NaN and [Math.max(1, _)] otherwise. *)
Definition logsLimit (text : option string) : JsNumber :=
  let limitParam := Number (default "50" text) in
  if isNaN limitParam then num 50 else Math_max (num 1) limitParam.

Definition logsOf (id : string) (st : Store) : list string :=
  default [] (serverLogs st !! id).

Definition cannedStats (st : ServerStatus) (now : string) : Body :=
  BStats st 3 20 ["Alex"; "Steve"; "Nau"] (Qmake 198 10)
    {| cpuPercent := 32; memUsedMB := 3456; memTotalMB := 8192; memPercent := 42 |}
    4312 18 2048 "world" 524288000 now.

(** The three lifecycle blocks at the end of the handler, run one after
    the other on the state object of [id]. *)
Definition lifecycle (now : string) (action : option string) (id : string)
    (state : ServerState) (st : Store) : ServerState * Store :=
  let requested a := match action with Some x => String.eqb x a | None => false end in
  let '(state, st) :=
    if requested "start" then
      let state := {| status := online; lastAction := Some start;
                      lastActionAt := Some now |} in
      (state, appendLog id "[INFO] Server started" (storeState id state st))
    else (state, st) in
  let '(state, st) :=
    if requested "stop" then
      let state := {| status := offline; lastAction := Some stop;
                      lastActionAt := Some now |} in
      (state, appendLog id "[INFO] Server stopped" (storeState id state st))
    else (state, st) in
  let '(state, st) :=
    if requested "restart" then
      let state := {| status := online; lastAction := Some restart;
                      lastActionAt := Some now |} in
      (state, appendLog id "[INFO] Server restarted" (storeState id state st))
    else (state, st) in
  (state, st).

(** The body of [if (match) { ... }] once [server] has been found. *)
Definition serverRoute (now : string) (req : HttpRequest) (id : string)
    (action : option string) (server : MockServer) (st : Store) : Outcome * Store :=
  let '(state, st) := getServerState id st in
  let act := default EmptyString action in
  let m := method req in
  if (String.eqb act EmptyString || String.eqb act "status")%bool then
    (ok (BServerState server state), st)
  else if (String.eqb act "logs" && String.eqb m "GET")%bool then
    let limit := logsLimit (searchParam "limit" req) in
    let logs := slice (neg limit) (logsOf id st) in
    (ok (BLogs logs), st)
  else if (String.eqb act "command" && String.eqb m "POST")%bool then
    let command := trim (default EmptyString (bodyField "command" req)) in
    let st :=
      if negb (String.eqb command EmptyString) then
        appendLog id ("[INFO] Executed command: " +:+ command)
          (appendLog id ("[CMD] " +:+ command) st)
      else st in
    (ok BOk, st)
  else if (String.eqb act "stats" && String.eqb m "GET")%bool then
    (ok (cannedStats (status state) now), st)
  else
    match fileRoute act m req id st with
    | Some result => result
    | None =>
        let '(state, st) := lifecycle now action id state st in
        (ok (BServerState server state), st)
    end.

Definition seedAll (st : Store) : Store := seedFiles (seedLogs (seedStates st)).

(** [mockApiInterceptor(req, next)]; [now] is [new Date().toISOString()]
    at the time of the call. *)
Definition mockApiInterceptor (now : string) (req : HttpRequest) (st : Store)
    : Outcome * Store :=
  if negb (startsWith "/api/" (url req)) then (Forward, st)
  else
    let st := seedAll st in
    if (String.eqb (url req) "/api/health" && String.eqb (method req) "GET")%bool then
      (ok (BHealth now), st)
    else if (String.eqb (url req) "/api/servers" && String.eqb (method req) "GET")%bool then
      (ok (BServers mockServers), st)
    else
      match matchRoute (pathname req) with
      | Some (id, action) =>
          match List.find (fun item => String.eqb (server_id item) id) mockServers with
          | None => (Respond 404 (BError "Server not found."), st)
          | Some server => serverRoute now req id action server st
          end
      | None => (Respond 404 (BError "Mock endpoint not implemented."), st)
      end.

(** A request without query string or body. *)
Definition request (m p : string) : HttpRequest :=
  {| method := m; pathname := p; search := EmptyString; searchParams := [];
     body := None |}.

End Mock.

(** ** The backend: [GET /api/servers/:id/stats] of [backend/src/index.ts] *)

Module Backend.
Import Js.

Record RconConfig := {
  rcon_host : option string;
  rcon_port : JsNumber;
  rcon_password : option string
}.

Record ServerConfig := {
  server_id : string;
  name : string;
  path : string;
  port : JsNumber;
  description : option string;
  rcon : option RconConfig
}.

(** The module-level variables the route works on. [serverSubscribers]
    holds socket handles and [cpuSamples] is private to [getProcessStats];
    neither is read by this route. *)
Record Store := {
  servers : list ServerConfig;
  serversLoaded : bool;
  serverStates : gmap string ServerState;
  serverLogs : gmap string (list string)
}.

Definition setStates (m : gmap string ServerState) (st : Store) : Store :=
  {| servers := servers st; serversLoaded := serversLoaded st;
     serverStates := m; serverLogs := serverLogs st |}.

Definition getServerById (id : string) (st : Store) : option ServerConfig :=
  List.find (fun server => String.eqb (server_id server) id) (servers st).

Definition getServerState (id : string) (st : Store) : ServerState * Store :=
  match serverStates st !! id with
  | Some existing => (existing, st)
  | None => (offlineState, setStates (<[id := offlineState]> (serverStates st)) st)
  end.

(** [state.status = value] on the state object of [id]. *)
Definition setStatus (id : string) (value : ServerStatus) (st : Store) : ServerState * Store :=
  let '(state, st) := getServerState id st in
  let state := {| status := value; lastAction := lastAction state;
                  lastActionAt := lastActionAt state |} in
  (state, setStates (<[id := state]> (serverStates st)) st).

(** [server.rcon?.password] when it is truthy. *)
Definition password (server : ServerConfig) : option string :=
  match rcon server with
  | Some r =>
      match rcon_password r with
      | Some EmptyString => None
      | p => p
      end
  | None => None
  end.

Record HostStats := {
  cpuPercent : Z;
  memUsedMB : Z;
  memTotalMB : Z;
  memPercent : Z
}.

Record ProcessStats := {
  pid : Z;
  procCpuPercent : Z;
  memMB : option Z
}.

(** What the remote console answers once connected: the reply to [list],
    or [None] when [send] rejects, and the same for [tps]. *)
Record Session := {
  listReply : option string;
  tpsReply : option string
}.

(** The outcome of everything the route awaits: [Rcon.connect] ([None]
    when it rejects or times out), the host and process samples, the world
    directory and its size, and the clock. *)
Record Environment := {
  connect : string -> JsNumber -> string -> Z -> option Session;
  hostStats : HostStats;
  processStats : option ProcessStats;
  worldPath : string;
  worldSizeBytes : Z;
  now : string
}.

(** The snapshot. [players] is [parsePlayerList] of [playersFrom] and
    [tps] is [parseTps] of [tpsFrom] ([null] without a reply); both are
    formatting of the replies and are kept as the text they are computed
    from. *)
Record Stats := {
  stats_status : ServerStatus;
  playersFrom : string;
  tpsFrom : option string;
  stats_host : HostStats;
  stats_process : option ProcessStats;
  stats_worldPath : string;
  stats_sizeBytes : Z;
  stats_timestamp : string
}.

Inductive Body :=
| BError (error : string)
| BStats (s : Stats).

Record Response := { code : Z; body : Body }.

Definition isZero (x : JsNumber) : bool :=
  match x with
  | Fin q => Z.eqb (Qnum q) 0
  | _ => false
  end.

(** [app.get("/api/servers/:id/stats", ...)] for the route parameter [id]. *)
Definition statsRoute (env : Environment) (id : string) (st : Store) : Response * Store :=
  if negb (serversLoaded st) then
    ({| code := 500; body := BError "No servers configured." |}, st)
  else
    match getServerById id st with
    | None => ({| code := 404; body := BError "Server not found." |}, st)
    | Some server =>
        match password server, rcon server with
        | Some pw, Some r =>
            let host :=
              match rcon_host r with
              | Some EmptyString | None => "127.0.0.1"
              | Some h => h
              end in
            let port :=
              if (negb (isZero (rcon_port r)) && negb (isNaN (rcon_port r)))%bool
              then rcon_port r else num 25575 in
            let failed st :=
              let '(_, st) := setStatus (server_id server) offline st in
              ({| code := 500; body := BError "Unable to fetch server stats." |}, st) in
            match connect env host port pw 3000 with
            | None => failed st
            | Some session =>
                match listReply session with
                | None => failed st
                | Some listResult =>
                    let '(state, st) := setStatus (server_id server) online st in
                    ({| code := 200;
                        body := BStats
                          {| stats_status := status state;
                             playersFrom := listResult;
                             tpsFrom := tpsReply session;
                             stats_host := hostStats env;
                             stats_process := processStats env;
                             stats_worldPath := worldPath env;
                             stats_sizeBytes := worldSizeBytes env;
                             stats_timestamp := now env |} |}, st)
                end
            end
        | _, _ => ({| code := 400; body := BError "RCON not configured." |}, st)
        end
    end.

End Backend.

(** ** The client services: [console-socket.service.ts] and
       [app-state.service.ts] *)

Module Client.
Import Js.

(** *** JSON values, as [JSON.parse] builds them

    An object is given by its own properties, each key once. *)

#[local] Unset Elimination Schemes.

Inductive Json :=
| JNull
| JBool (b : bool)
| JNumber (q : Q)
| JString (s : string)
| JArray (items : list Json)
| JObject (fields : list (string * Json)).

#[local] Set Elimination Schemes.

(** [event.data], by what [JSON.parse] makes of it: a SyntaxError or a
    value. *)
Inductive Payload :=
| Unparsable (data : string)
| Parsed (message : Json).

(** [!message]. *)
Definition falsy (v : Json) : bool :=
  match v with
  | JNull => true
  | JBool b => negb b
  | JNumber q => Z.eqb (Qnum q) 0
  | JString s => String.eqb s EmptyString
  | _ => false
  end.

Fixpoint lookupKey (key : string) (fields : list (string * Json)) : option Json :=
  match fields with
  | [] => None
  | (k, v) :: r => if String.eqb k key then Some v else lookupKey key r
  end.

(** [v.key] for a non-null [v]; [None] is [undefined]. Only the own
    properties of objects matter here: [type], [logs] and [line] are not
    properties of arrays, strings, numbers or booleans. *)
Definition property (key : string) (v : Json) : option Json :=
  match v with
  | JObject fields => lookupKey key fields
  | _ => None
  end.

(** [x === s] for a string literal [s]. *)
Definition strictEq (x : option Json) (s : string) : bool :=
  match x with
  | Some (JString t) => String.eqb t s
  | _ => false
  end.

(** The value of [logsSubject]: the array it is meant to hold, whose
    items may be [undefined], or a string after a message whose [logs]
    was one. *)
Inductive Published :=
| PArray (items : list (option Json))
| PString (s : string).

Definition size (p : Published) : nat :=
  match p with
  | PArray items => length items
  | PString s => String.length s
  end.

(** The published list when every line is a string. *)
Definition lines (l : list string) : Published :=
  PArray (map (fun s => Some (JString s)) l).

(** [String.prototype.slice(start)]. *)
Definition sliceString (start : JsNumber) (s : string) : string :=
  string_of_list_ascii (slice start (list_ascii_of_string s)).

(** [[...value]]. *)
Definition spread (p : Published) : list (option Json) :=
  match p with
  | PArray items => items
  | PString s =>
      map (fun c => Some (JString (String c EmptyString))) (list_ascii_of_string s)
  end.

Definition maxDisplay : Z := 5000.

(** [x.slice(-this.maxDisplay)] for [x] the value of a [logs] property;
    [None] is the TypeError raised when [x] has no [slice] method. *)
Definition sliceLogs (x : option Json) : option Published :=
  match x with
  | Some (JArray items) => Some (PArray (slice (neg (num maxDisplay)) (map Some items)))
  | Some (JString s) => Some (PString (sliceString (neg (num maxDisplay)) s))
  | _ => None
  end.

(** *** [ConsoleSocketService] *)

Inductive ReadyState := CONNECTING | OPEN | CLOSING | CLOSED.

Inductive WsMessage :=
| Subscribe (serverId : string) (limit : Z)
| Command (command : string).

Inductive Effect :=
| HttpGet (url : string)
| HttpPost (url : string) (command : string)
| SetInterval (id : nat) (ms : Z)
| ClearInterval (id : nat)
| OpenSocket
| CloseSocket
| Send (message : WsMessage).

(** [environment]. *)
Record Environment := {
  useMocks : bool;
  apiBaseUrl : string
}.

(** The fields of the service; [timers] counts the ids [window.setInterval]
    has handed out, the next one being [timers] itself. *)
Record Console := {
  socket : option ReadyState;
  pollingId : option nat;
  serverId : string;
  limit : Z;
  logs : Published;
  timers : nat
}.

Definition created : Console :=
  {| socket := None; pollingId := None; serverId := EmptyString; limit := 50;
     logs := PArray []; timers := O |}.

(** What a method call or a callback leaves behind: the service and the
    effects it asked for, or an exception before any of its fields
    changed. *)
Inductive Result :=
| Done (c : Console) (effects : list Effect)
| Throw.

Definition publish (p : Published) (c : Console) : Console :=
  {| socket := socket c; pollingId := pollingId c; serverId := serverId c;
     limit := limit c; logs := p; timers := timers c |}.

Definition endsWith (suffix s : string) : bool :=
  String.prefix (String.rev suffix) (String.rev s).

Definition dropLast (s : string) : string :=
  String.substring 0 (String.length s - 1) s.

Definition buildApiUrl (env : Environment) (p : string) : string :=
  let base := if String.eqb (apiBaseUrl env) EmptyString then "/api" else apiBaseUrl env in
  if (endsWith "/" base && startsWith "/" p)%bool then dropLast base +:+ p
  else if (negb (endsWith "/" base) && negb (startsWith "/" p))%bool then base +:+ "/" +:+ p
  else base +:+ p.

(** The URL of [fetchLogs]. The limit is a Number in the source and an
    integer here: [pretty n] is the text that the template literal gives
    for an integer below [2^53] in magnitude, its decimal digits with a
    minus sign before them when it is negative. Beyond that range the
    source writes other digits, and an exponent from [10^21] on; what is
    stated about this URL is stated for limits within the range. *)
Definition logsUrl (env : Environment) (id : string) (n : Z) : string :=
  buildApiUrl env ("/servers/" +:+ id +:+ "/logs?limit=" +:+ pretty n).

Definition commandUrl (env : Environment) (id : string) : string :=
  buildApiUrl env ("/servers/" +:+ id +:+ "/command").

(** [send]: only an open socket sends. *)
Definition send (message : WsMessage) (c : Console) : list Effect :=
  match socket c with
  | Some OPEN => [Send message]
  | _ => []
  end.

(** [fetchLogs]: the request it issues, if any. *)
Definition fetchLogs (env : Environment) (c : Console) : list Effect :=
  if String.eqb (serverId c) EmptyString then []
  else [HttpGet (logsUrl env (serverId c) (limit c))].

Definition startPolling (env : Environment) (c : Console) : Console * list Effect :=
  let fetched := fetchLogs env c in
  let cleared :=
    match pollingId c with
    | Some old => [ClearInterval old]
    | None => []
    end in
  let id := timers c in
  ({| socket := socket c; pollingId := Some id; serverId := serverId c;
      limit := limit c; logs := logs c; timers := S id |},
   fetched ++ cleared ++ [SetInterval id 2000]).

Definition disconnect (c : Console) : Console * list Effect :=
  let closed := match socket c with Some _ => [CloseSocket] | None => [] end in
  let cleared := match pollingId c with Some id => [ClearInterval id] | None => [] end in
  ({| socket := None; pollingId := None; serverId := serverId c;
      limit := limit c; logs := logs c; timers := timers c |},
   closed ++ cleared).

Definition openSocket (c : Console) : Console * list Effect :=
  ({| socket := Some CONNECTING; pollingId := pollingId c; serverId := serverId c;
      limit := limit c; logs := logs c; timers := timers c |},
   [OpenSocket]).

Definition connect (env : Environment) (id : string) (n : Z) (c : Console)
    : Console * list Effect :=
  let c := {| socket := socket c; pollingId := pollingId c; serverId := id;
              limit := n; logs := PArray []; timers := timers c |} in
  if String.eqb id EmptyString then disconnect c
  else if useMocks env then startPolling env c
  else
    let '(c, opened) :=
      match socket c with
      | None | Some CLOSED => openSocket c
      | _ => (c, [])
      end in
    (c, opened ++ send (Subscribe id n) c).

Definition setLimit (env : Environment) (n : Z) (c : Console) : Console * list Effect :=
  let c := {| socket := socket c; pollingId := pollingId c; serverId := serverId c;
              limit := n; logs := logs c; timers := timers c |} in
  if String.eqb (serverId c) EmptyString then (c, [])
  else if useMocks env then (c, fetchLogs env c)
  else (c, send (Subscribe (serverId c) n) c).

Definition sendCommand (env : Environment) (command : string) (c : Console)
    : Console * list Effect :=
  let trimmed := trim command in
  if (String.eqb trimmed EmptyString || String.eqb (serverId c) EmptyString)%bool then (c, [])
  else if useMocks env then (c, [HttpPost (commandUrl env (serverId c)) trimmed])
  else (c, send (Command trimmed) c).

(** [onMessage]. *)
Definition onMessage (event : Payload) (c : Console) : Result :=
  match event with
  | Unparsable _ => Done c []
  | Parsed message =>
      if falsy message then Done c []
      else if strictEq (property "type" message) "logs" then
        match sliceLogs (property "logs" message) with
        | Some p => Done (publish p c) []
        | None => Throw
        end
      else if strictEq (property "type" message) "log" then
        let nextLogs :=
          slice (neg (num maxDisplay)) (spread (logs c) ++ [property "line" message]) in
        Done (publish (PArray nextLogs) c) []
      else Done c []
  end.

(** How a request of [fetchLogs] ends: with the parsed response body, or
    with an error. *)
Inductive PollOutcome :=
| PollBody (response : Json)
| PollError.

(** The [next] and [error] callbacks of [fetchLogs]. *)
Definition onLogs (r : PollOutcome) (c : Console) : Result :=
  match r with
  | PollBody JNull => Throw
  | PollBody response =>
      match sliceLogs (property "logs" response) with
      | Some p => Done (publish p c) []
      | None => Throw
      end
  | PollError => Done (publish (PArray []) c) []
  end.

(** Everything that can happen to the service: the calls of its public
    methods and the callbacks of the socket, the interval and the
    requests. *)
Inductive Event :=
| Connect (id : string) (n : Z)
| SetLimit (n : Z)
| SendCommand (command : string)
| Disconnect
| SocketOpen
| SocketClosed
| Message (event : Payload)
| Tick (id : nat)
| LogsResponse (r : PollOutcome)
| CommandPosted (succeeded : bool).

Definition step (env : Environment) (e : Event) (c : Console) : Result :=
  match e with
  | Connect id n => let '(c, effs) := connect env id n c in Done c effs
  | SetLimit n => let '(c, effs) := setLimit env n c in Done c effs
  | SendCommand command => let '(c, effs) := sendCommand env command c in Done c effs
  | Disconnect => let '(c, effs) := disconnect c in Done c effs
  | SocketOpen =>
      match socket c with
      | Some _ =>
          let c := {| socket := Some OPEN; pollingId := pollingId c;
                      serverId := serverId c; limit := limit c; logs := logs c;
                      timers := timers c |} in
          Done c (if String.eqb (serverId c) EmptyString then []
                  else send (Subscribe (serverId c) (limit c)) c)
      | None => Done c []
      end
  | SocketClosed =>
      match socket c with
      | Some _ =>
          Done {| socket := Some CLOSED; pollingId := pollingId c;
                  serverId := serverId c; limit := limit c; logs := logs c;
                  timers := timers c |} []
      | None => Done c []
      end
  | Message event => onMessage event c
  | Tick id =>
      match pollingId c with
      | Some current => if Nat.eqb id current then Done c (fetchLogs env c) else Done c []
      | None => Done c []
      end
  | LogsResponse r => onLogs r c
  | CommandPosted succeeded => Done c (if succeeded then fetchLogs env c else [])
  end.

(** The service after [e]; an exception leaves it as it was. *)
Definition after (env : Environment) (e : Event) (c : Console) : Console :=
  match step env e c with
  | Done c' _ => c'
  | Throw => c
  end.

Definition run (env : Environment) (events : list Event) (c : Console) : Console :=
  fold_left (fun c e => after env e c) events c.

(** *** [AppStateService.refreshStatuses] *)

Record ServerConfig := {
  server_id : string;
  name : string;
  path : string;
  port : Z;
  description : option string
}.

Record StatusResponse := {
  server : ServerConfig;
  state : ServerState
}.

(** How a status request ends: with a response, or with an error. *)
Inductive StatusOutcome :=
| Succeeded (response : StatusResponse)
| Failed.

Definition statusUrl (s : ServerConfig) : string :=
  "/api/servers/" +:+ server_id s +:+ "/status".

(** [refreshStatuses(servers)]: the value given to [statusSubject] once
    every request has ended; [http] tells how the request to a URL ends. *)
Definition refreshStatuses (http : string -> StatusOutcome) (servers : list ServerConfig)
    : gmap string ServerState :=
  match servers with
  | [] => ∅
  | _ =>
      let fallbackState := offlineState in
      let requests :=
        map (fun s =>
               match http (statusUrl s) with
               | Succeeded response => response
               | Failed => {| server := s; state := fallbackState |}
               end)
            servers in
      fold_left (fun nextStates result => <[server_id (server result) := state result]> nextStates)
        requests ∅
  end.

End Client.

(** ** Vocabulary of the properties *)

(** The last [n] items of [l], all of [l] when it has fewer. *)
Definition lastLines {A} (n : nat) (l : list A) : list A :=
  drop (length l - n) l.

Module Vocabulary.
Import Js Mock.

(** [appendLog(id, line)] for each line of [lines], in order. *)
Definition appendLogs (id : string) (lines : list string) (st : Store) : Store :=
  fold_left (fun st line => appendLog id line st) lines st.

(** No buffer of the store holds more than 200 lines. *)
Definition capped (st : Store) : Prop :=
  forall id logs, serverLogs st !! id = Some logs -> (length logs <= 200)%nat.

(** The stores the interceptor can be in: the initial one, and the one
    left by any call from such a store. *)
Inductive reachable : Store -> Prop :=
| reachable_initial : reachable initial
| reachable_call now req st :
    reachable st -> reachable (snd (mockApiInterceptor now req st)).

(** [mockServers.find((item) => item.id === id)]. *)
Definition findServer (id : string) : option MockServer :=
  List.find (fun item => String.eqb (server_id item) id) mockServers.

(** The segment of the route, the status and the log line of each
    lifecycle action. *)
Definition actionName (a : LifecycleAction) : string :=
  match a with start => "start" | stop => "stop" | restart => "restart" end.

Definition statusAfter (a : LifecycleAction) : ServerStatus :=
  match a with start => online | stop => offline | restart => online end.

Definition lineOf (a : LifecycleAction) : string :=
  match a with
  | start => "[INFO] Server started"
  | stop => "[INFO] Server stopped"
  | restart => "[INFO] Server restarted"
  end.

(** Whether a text has a decimal digit in it; the text of a number has. *)
Definition hasDigit (text : string) : bool :=
  existsb (fun c => (N.leb 48 (N_of_ascii c) && N.leb (N_of_ascii c) 57)%bool)
    (list_ascii_of_string text).

(** How many lines a limit asks for, given [len] buffered ones. *)
Definition lineCount (limit : JsNumber) (len : nat) : nat :=
  match limit with
  | Fin q => Z.to_nat (truncate q)
  | PosInfinity => len
  | _ => O
  end.

(** Both seeding flags are set and there are files. *)
Definition seeded (st : Store) : Prop :=
  statesSeeded st = true /\ logsSeeded st = true /\ serverFiles st <> ∅.

(** [st'] has the seeding flags of [st], has files if [st] had, and is
    capped if [st] was. *)
Definition keeps (st st' : Store) : Prop :=
  statesSeeded st' = statesSeeded st
  /\ logsSeeded st' = logsSeeded st
  /\ (serverFiles st <> ∅ -> serverFiles st' <> ∅)
  /\ (capped st -> capped st').

(** A limit the route can compute: never NaN, never below 1. *)
Definition atLeastOne (limit : JsNumber) : Prop :=
  match limit with
  | Fin q => Qle_bool (inject_Z 1) q = true
  | PosInfinity => True
  | _ => False
  end.

(** A logs request and a command request, as the client sends them. *)
Definition tailRequest (id limitText : string) : HttpRequest :=
  {| method := "GET"; pathname := "/api/servers/" +:+ id +:+ "/logs";
     search := "?limit=" +:+ limitText; searchParams := [("limit", limitText)];
     body := None |}.

Definition commandRequest (id command : string) : HttpRequest :=
  {| method := "POST"; pathname := "/api/servers/" +:+ id +:+ "/command";
     search := EmptyString; searchParams := []; body := Some [("command", command)] |}.

End Vocabulary.

Module ClientVocabulary.
Import Js Client.

(** A message the client has no use for: one that does not parse, or
    whose [type] is neither ['logs'] nor ['log']. *)
Definition unrecognised (event : Payload) : Prop :=
  match event with
  | Unparsable _ => True
  | Parsed message =>
      strictEq (property "type" message) "logs" = false
      /\ strictEq (property "type" message) "log" = false
  end.

(** The messages [{type: 'logs', logs: tail}] and [{type: 'log', line}]
    of the live channel. *)
Definition snapshotMessage (tail : list string) : Payload :=
  Parsed (JObject [("type", JString "logs"); ("logs", JArray (map JString tail))]).

Definition lineMessage (line : string) : Payload :=
  Parsed (JObject [("type", JString "log"); ("line", JString line)]).

(** The body [{logs: tail}] of a logs response. *)
Definition logsBody (tail : list string) : Json :=
  JObject [("logs", JArray (map JString tail))].

(** The service with the limit set to [n]. *)
Definition withLimit (n : Z) (c : Console) : Console :=
  {| socket := socket c; pollingId := pollingId c; serverId := serverId c;
     limit := n; logs := logs c; timers := timers c |}.

(** The service once [connect(id, n)] has started polling. *)
Definition polling (id : string) (n : Z) (c : Console) : Console :=
  {| socket := socket c; pollingId := Some (timers c); serverId := id;
     limit := n; logs := PArray []; timers := S (timers c) |}.

(** The loop of [refreshStatuses] over the results, from the map [m]. *)
Definition collect (results : list StatusResponse) (m : gmap string ServerState)
    : gmap string ServerState :=
  fold_left (fun nextStates result =>
               <[server_id (server result) := state result]> nextStates)
    results m.

(** What ends up in the status map for [s]. *)
Definition statusFor (http : string -> StatusOutcome) (s : ServerConfig) : ServerState :=
  match http (statusUrl s) with
  | Succeeded response => state response
  | Failed => offlineState
  end.

(** Two servers, and a backend that fails for the first. *)
Definition survival : ServerConfig :=
  {| server_id := "nau-survival"; name := "Nau Survival";
     path := "D:/Minecraft/servers/nau-survival"; port := 25565; description := None |}.

Definition creative : ServerConfig :=
  {| server_id := "nau-creative"; name := "Nau Creative";
     path := "D:/Minecraft/servers/nau-creative"; port := 25566; description := None |}.

Definition downFor (url : string) : StatusOutcome :=
  if String.eqb url "/api/servers/nau-survival/status" then Failed
  else Succeeded
         {| server := creative;
            state := {| status := online; lastAction := Some start;
                        lastActionAt := Some "2026-02-08T07:40:00.000Z" |} |}.

End ClientVocabulary.

Module BackendVocabulary.
Import Js Backend.

(** A console that answers, and a registry of two servers, of which only
    [arena] has remote-console credentials. *)
Definition quietEnvironment : Environment :=
  {| connect := fun _ _ _ _ => Some {| listReply := Some "There are 0 of a max of 20 players online:";
                                       tpsReply := None |};
     hostStats := {| cpuPercent := 1; memUsedMB := 1; memTotalMB := 2; memPercent := 50 |};
     processStats := None; worldPath := "/srv/mc/world"; worldSizeBytes := 0;
     now := "2026-02-08T08:00:00.000Z" |}.

Definition plainServer : ServerConfig :=
  {| server_id := "lobby"; name := "Lobby"; path := "/srv/mc"; port := num 25565;
     description := None; rcon := None |}.

Definition guardedServer : ServerConfig :=
  {| server_id := "arena"; name := "Arena"; path := "/srv/arena"; port := num 25566;
     description := None;
     rcon := Some {| rcon_host := None; rcon_port := num 25575;
                     rcon_password := Some "secret" |} |}.

Definition loadedStore : Store :=
  {| servers := [plainServer; guardedServer]; serversLoaded := true;
     serverStates := {[ "lobby" := {| status := online; lastAction := Some start;
                                      lastActionAt := Some "2026-02-08T07:40:00.000Z" |} ]};
     serverLogs := ∅ |}.

End BackendVocabulary.

Module PathVocabulary.
Import Js Mock.

(** The first and the last code unit of a string, if any. *)
Definition firstChar (s : string) : option ascii :=
  match s with
  | EmptyString => None
  | String c _ => Some c
  end.

Fixpoint lastChar (s : string) : option ascii :=
  match s with
  | EmptyString => None
  | String c EmptyString => Some c
  | String _ r => lastChar r
  end.

(** Whether [c] occurs in [s]. *)
Fixpoint occurs (c : ascii) (s : string) : bool :=
  match s with
  | EmptyString => false
  | String d r => (Ascii.eqb d c || occurs c r)%bool
  end.

End PathVocabulary.

Module FileVocabulary.
Import Js Mock.

(** The file lists the writing routes store, by the normalised path
    they are given. *)
Definition atPath (pathParam : string) (item : FileEntry) : bool :=
  String.eqb (normalizePath (entry_path item)) pathParam.

Definition fileAt (pathParam : string) (item : FileEntry) : bool :=
  (atPath pathParam item && isFile (entry_type item))%bool.

Definition savedFiles (pathParam content : string) (files : list FileEntry)
    : list FileEntry :=
  match List.find (atPath pathParam) files with
  | Some _ =>
      updateFirst (atPath pathParam)
        (fun existing => {| entry_path := entry_path existing; entry_type := file;
                            entry_content := Some content |})
        files
  | None =>
      files ++ [{| entry_path := pathParam; entry_type := file;
                   entry_content := Some content |}]
  end.

Definition withFolder (pathParam : string) (files : list FileEntry) : list FileEntry :=
  match List.find (atPath pathParam) files with
  | Some _ => files
  | None => files ++ [{| entry_path := pathParam; entry_type := dir;
                         entry_content := None |}]
  end.

Definition withoutTree (pathParam : string) (files : list FileEntry) : list FileEntry :=
  List.filter (fun item => negb (under pathParam (normalizePath (entry_path item)))) files.

(** Where a rename from [from] to [to] puts an entry. *)
Definition moved (from to : string) (item : FileEntry) : FileEntry :=
  let itemPath := normalizePath (entry_path item) in
  if String.eqb itemPath from then
    {| entry_path := to; entry_type := entry_type item;
       entry_content := entry_content item |}
  else
    match dropPrefix (from +:+ "/") itemPath with
    | Some rest =>
        {| entry_path := to +:+ "/" +:+ rest; entry_type := entry_type item;
           entry_content := entry_content item |}
    | None => item
    end.

(** The path parameters of a request, as the routes read them. *)
Definition queryPath (req : HttpRequest) : string :=
  normalizePath (default EmptyString (searchParam "path" req)).

Definition bodyPath (key : string) (req : HttpRequest) : string :=
  normalizePath (default EmptyString (bodyField key req)).

Definition uploadPath (req : HttpRequest) : string :=
  normalizePath (bodyPath "path" req +:+ "/" +:+ default "upload.txt" (bodyField "name" req)).

(** A request whose URL carries the path in its query string, where the
    interceptor looks for it, and a POST with the fields of its body. *)
Definition fileQuery (m id action pathParam : string) : HttpRequest :=
  {| method := m; pathname := "/api/servers/" +:+ id +:+ "/" +:+ action;
     search := "?path=" +:+ pathParam; searchParams := [("path", pathParam)];
     body := None |}.

Definition filePost (id action : string) (fields : list (string * string)) : HttpRequest :=
  {| method := "POST"; pathname := "/api/servers/" +:+ id +:+ "/" +:+ action;
     search := EmptyString; searchParams := []; body := Some fields |}.

End FileVocabulary.

Module FrameVocabulary.
Import Js Mock.

(** Whether the request is one of the lifecycle actions of [id]. *)
Definition actsOn (id : string) (req : HttpRequest) : bool :=
  match matchRoute (pathname req) with
  | Some (id', Some action) =>
      (String.eqb id' id
       && (String.eqb action "start" || String.eqb action "stop"
           || String.eqb action "restart"))%bool
  | _ => false
  end.

(** The store after the calls, each with its time. *)
Definition calls (requests : list (string * HttpRequest)) (st : Store) : Store :=
  fold_left (fun st '(now, req) => snd (mockApiInterceptor now req st)) requests st.

(** What the store holds for [id]. *)
Definition holding (id : string) (st : Store)
    : option ServerState * option (list string) * option (list FileEntry) :=
  (serverStates st !! id, serverLogs st !! id, serverFiles st !! id).

End FrameVocabulary.

(** ** The text helpers of the backend ([index.ts]) *)

Module BackendText.
Import Js.

(** [String.prototype.toLowerCase] on code units below 256: the letters
    A to Z and the accented capitals but the multiplication sign. *)
Definition lowerChar (c : ascii) : ascii :=
  let n := N_of_ascii c in
  if ((N.leb 65 n && N.leb n 90) || (N.leb 192 n && N.leb n 222 && negb (N.eqb n 215)))%bool
  then ascii_of_N (n + 32)
  else c.

Fixpoint toLowerCase (s : string) : string :=
  match s with
  | EmptyString => EmptyString
  | String c r => String (lowerChar c) (toLowerCase r)
  end.

(** The class [[a-z0-9]]. *)
Definition isSlugChar (c : ascii) : bool :=
  let n := N_of_ascii c in
  ((N.leb 97 n && N.leb n 122) || (N.leb 48 n && N.leb n 57))%bool.

(** [s.replace(/[^a-z0-9]+/g, "-")]: every maximal run of other code
    units becomes one dash; [inRun] tells that the run has begun. *)
Fixpoint dashRuns (inRun : bool) (s : string) : string :=
  match s with
  | EmptyString => EmptyString
  | String c r =>
      if isSlugChar c then String c (dashRuns false r)
      else if inRun then dashRuns true r
      else String "-" (dashRuns true r)
  end.

Fixpoint dropLastDash (s : string) : string :=
  match s with
  | EmptyString => EmptyString
  | String c EmptyString => if Ascii.eqb c "-" then EmptyString else s
  | String c r => String c (dropLastDash r)
  end.

(** [s.replace(/(^-|-$)/g, "")]: a dash at the start, then a dash at the
    end of what is left. *)
Definition dropEdgeDashes (s : string) : string :=
  dropLastDash
    match s with
    | String c r => if Ascii.eqb c "-" then r else s
    | EmptyString => EmptyString
    end.

Definition toSlug (value : string) : string :=
  dropEdgeDashes (dashRuns false (toLowerCase (trim value))).

(** [raw.split(/\r?\n/)]. *)
Fixpoint splitLines (s : string) : list string :=
  let cons c l :=
    match l with
    | [] => [String c EmptyString]
    | p :: ps => String c p :: ps
    end in
  match s with
  | EmptyString => [EmptyString]
  | String c r =>
      if Ascii.eqb c "010" then EmptyString :: splitLines r
      else
        match r with
        | String d r' =>
            if (Ascii.eqb c "013" && Ascii.eqb d "010")%bool
            then EmptyString :: splitLines r'
            else cons c (splitLines r)
        | EmptyString => cons c (splitLines r)
        end
  end.

(** The loop of [parseServerProperties] over the lines. *)
Fixpoint levelNameOf (lines : list string) : string :=
  match lines with
  | [] => EmptyString
  | line :: rest =>
      let trimmed := trim line in
      if (String.eqb trimmed EmptyString || startsWith "#" trimmed)%bool
      then levelNameOf rest
      else
        match split "=" trimmed with
        | key :: values =>
            if String.eqb key "level-name" then trim (join "=" values)
            else levelNameOf rest
        | [] => levelNameOf rest
        end
  end.

Definition parseServerProperties (raw : string) : string :=
  levelNameOf (splitLines raw).

End BackendText.

Module TextVocabulary.
Import Js Mock BackendText PathVocabulary.

(** A slug: letters a to z, digits and single dashes between them. *)
Fixpoint slugFrom (afterDash : bool) (s : string) : bool :=
  match s with
  | EmptyString => negb afterDash
  | String c r =>
      if isSlugChar c then slugFrom false r
      else if Ascii.eqb c "-" then (negb afterDash && slugFrom true r)%bool
      else false
  end.

(** Slug characters and dashes, no two dashes in a row, and no dash
    first when [afterDash]. *)
Fixpoint dashed (afterDash : bool) (s : string) : bool :=
  match s with
  | EmptyString => true
  | String c r =>
      if isSlugChar c then dashed false r
      else if Ascii.eqb c "-" then (negb afterDash && dashed true r)%bool
      else false
  end.

Definition isSlug (s : string) : bool :=
  match s with
  | EmptyString => true
  | _ => slugFrom true s
  end.

(** Whether some code unit of [s] is, once lowered, a letter a to z or a
    digit. *)
Fixpoint hasSlugChar (s : string) : bool :=
  match s with
  | EmptyString => false
  | String c r => (isSlugChar (lowerChar c) || hasSlugChar r)%bool
  end.

(** The line that names the level: [level-name] alone, or followed by
    [=] and the value. *)
Definition namesLevel (trimmed : string) : bool :=
  (String.eqb trimmed "level-name" || startsWith "level-name=" trimmed)%bool.

Definition levelValue (trimmed : string) : string :=
  default EmptyString (dropPrefix "level-name=" trimmed).

End TextVocabulary.

(** ** The backend console: the log buffers, the WebSocket server at
       [/ws/console] and the routes that write to the buffers
       ([backend/src/index.ts]) *)

Module BackendConsole.
Import Js Backend.

(** What [JSON.stringify] is given before [client.send]: the tail sent on
    a subscription, or one line. *)
Inductive Payload :=
| Logs (logs : list string)
| Log (line : string).

(** The object of a message, by its declared type
    [{ type?: string; serverId?: string; limit?: number; command?: string }]. *)
Record Data := {
  data_type : option string;
  data_serverId : option string;
  data_limit : option JsNumber;
  data_command : option string
}.

(** [raw.toString()], by what [JSON.parse] makes of it: a SyntaxError, or
    a value ([None] for [null]). *)
Inductive Incoming :=
| Unparsable
| Parsed (data : option Data).

(** The module-level maps and the connections: [serverSubscribers] holds
    each [Set] in insertion order, [socketServerId] is the [serverId]
    property of the sockets that have one, [openSockets] are the sockets
    whose [readyState] is [OPEN], and [sockets] counts the connections
    accepted so far; a socket is named by its number. *)
Record Hub := {
  store : Store;
  serverSubscribers : gmap string (list nat);
  socketServerId : gmap nat string;
  openSockets : gset nat;
  sockets : nat
}.

Definition started : Hub :=
  {| store := {| servers := []; serversLoaded := false;
                 serverStates := ∅; serverLogs := ∅ |};
     serverSubscribers := ∅; socketServerId := ∅; openSockets := ∅; sockets := O |}.

Definition setStore (s : Store) (hub : Hub) : Hub :=
  {| store := s; serverSubscribers := serverSubscribers hub;
     socketServerId := socketServerId hub; openSockets := openSockets hub;
     sockets := sockets hub |}.

Definition setSubscribers (m : gmap string (list nat)) (hub : Hub) : Hub :=
  {| store := store hub; serverSubscribers := m;
     socketServerId := socketServerId hub; openSockets := openSockets hub;
     sockets := sockets hub |}.

Definition setLogs (m : gmap string (list string)) (s : Store) : Store :=
  {| servers := servers s; serversLoaded := serversLoaded s;
     serverStates := serverStates s; serverLogs := m |}.

Definition logsOf (id : string) (hub : Hub) : list string :=
  default [] (serverLogs (store hub) !! id).

Definition subscribersOf (id : string) (hub : Hub) : list nat :=
  default [] (serverSubscribers hub !! id).

(** [Set.prototype.has], [add] and [delete]. *)
Definition has (client : nat) (set : list nat) : bool :=
  existsb (Nat.eqb client) set.

Definition add (client : nat) (set : list nat) : list nat :=
  if has client set then set else set ++ [client].

Definition delete (client : nat) (set : list nat) : list nat :=
  List.filter (fun other => negb (Nat.eqb other client)) set.

Definition isOpen (hub : Hub) (client : nat) : bool :=
  bool_decide (client ∈ openSockets hub).

(** [broadcastLog]: the sends, in the order of the set. *)
Definition broadcastLog (id line : string) (hub : Hub) : list (nat * Payload) :=
  match serverSubscribers hub !! id with
  | None => []
  | Some subscribers =>
      map (fun client => (client, Log line)) (List.filter (isOpen hub) subscribers)
  end.

(** [appendLog]: push, [splice] the front so that 200 lines remain, then
    broadcast the line. *)
Definition appendLog (id line : string) (hub : Hub) : Hub * list (nat * Payload) :=
  let logs := default [] (serverLogs (store hub) !! id) in
  let logs := logs ++ [line] in
  let logs :=
    if (200 <? length logs)%nat then drop (length logs - 200) logs else logs in
  (setStore (setLogs (<[id := logs]> (serverLogs (store hub))) (store hub)) hub,
   broadcastLog id line hub).

(** [Number.isNaN(limitParam) ? 50 : Math.max(1, limitParam)]. *)
Definition clamp (limitParam : JsNumber) : JsNumber :=
  if isNaN limitParam then num 50 else Math_max (num 1) limitParam.

(** The command block shared by the socket and the route. *)
Definition execute (serverId command : string) (hub : Hub) : Hub * list (nat * Payload) :=
  if String.eqb command EmptyString then (hub, [])
  else
    let '(hub, first) := appendLog serverId ("[CMD] " +:+ command) hub in
    let '(hub, second) := appendLog serverId ("[INFO] Executed command: " +:+ command) hub in
    (hub, first ++ second).

(** [wss.on("connection", ...)]: the socket is open and has its two
    handlers; the result names it. *)
Definition onConnection (hub : Hub) : nat * Hub :=
  (sockets hub,
   {| store := store hub; serverSubscribers := serverSubscribers hub;
      socketServerId := socketServerId hub;
      openSockets := {[sockets hub]} ∪ openSockets hub;
      sockets := S (sockets hub) |}).

(** [ws.on("message", ...)]. *)
Definition onMessage (ws : nat) (raw : Incoming) (hub : Hub) : Hub * list (nat * Payload) :=
  match raw with
  | Unparsable => (hub, [])
  | Parsed None => (hub, [])
  | Parsed (Some data) =>
      let type := default EmptyString (data_type data) in
      if String.eqb type EmptyString then (hub, [])
      else if String.eqb type "subscribe" then
        let serverId := trim (default EmptyString (data_serverId data)) in
        if String.eqb serverId EmptyString then (hub, [])
        else
          let hub :=
            {| store := store hub;
               serverSubscribers :=
                 <[serverId := add ws (default [] (serverSubscribers hub !! serverId))]>
                   (serverSubscribers hub);
               socketServerId := <[ws := serverId]> (socketServerId hub);
               openSockets := openSockets hub; sockets := sockets hub |} in
          let limit := clamp (default (num 50) (data_limit data)) in
          let logs := slice (neg limit) (default [] (serverLogs (store hub) !! serverId)) in
          (hub, [(ws, Logs logs)])
      else if String.eqb type "command" then
        match socketServerId hub !! ws with
        | None => (hub, [])
        | Some serverId =>
            if String.eqb serverId EmptyString then (hub, [])
            else execute serverId (trim (default EmptyString (data_command data))) hub
        end
      else (hub, [])
  end.

(** The closing handshake of a socket begins: its [readyState] is no
    longer [OPEN]; no handler runs. *)
Definition onClosing (ws : nat) (hub : Hub) : Hub :=
  {| store := store hub; serverSubscribers := serverSubscribers hub;
     socketServerId := socketServerId hub;
     openSockets := openSockets hub ∖ {[ws]}; sockets := sockets hub |}.

(** [ws.on("close", ...)], the socket being closed by then. *)
Definition onClose (ws : nat) (hub : Hub) : Hub :=
  let hub :=
    {| store := store hub; serverSubscribers := serverSubscribers hub;
       socketServerId := socketServerId hub;
       openSockets := openSockets hub ∖ {[ws]}; sockets := sockets hub |} in
  match socketServerId hub !! ws with
  | None => hub
  | Some serverId =>
      if String.eqb serverId EmptyString then hub
      else
        match serverSubscribers hub !! serverId with
        | None => hub
        | Some subscribers =>
            setSubscribers (<[serverId := delete ws subscribers]> (serverSubscribers hub)) hub
        end
  end.

(** *** The routes that read and write the buffers *)

Inductive Body :=
| BError (error : string)
| BServerState (server : ServerConfig) (state : ServerState)
| BLogs (logs : list string)
| BOk.

Record Response := { code : Z; body : Body }.

(** The guard every route starts with. *)
Definition guarded (id : string) (hub : Hub)
    (handler : ServerConfig -> Response * Hub * list (nat * Payload))
    : Response * Hub * list (nat * Payload) :=
  if negb (serversLoaded (store hub)) then
    ({| code := 500; body := BError "No servers configured." |}, hub, [])
  else
    match getServerById id (store hub) with
    | None => ({| code := 404; body := BError "Server not found." |}, hub, [])
    | Some server => handler server
    end.

(** [POST /api/servers/:id/start], [/stop] and [/restart]: the three
    routes differ in the status, the action and the line. *)
Definition statusOf (action : LifecycleAction) : ServerStatus :=
  match action with
  | start => online
  | stop => offline
  | restart => online
  end.

Definition lineOf (action : LifecycleAction) : string :=
  match action with
  | start => "[INFO] Server started"
  | stop => "[INFO] Server stopped"
  | restart => "[INFO] Server restarted"
  end.

Definition lifecycleRoute (action : LifecycleAction) (now id : string) (hub : Hub)
    : Response * Hub * list (nat * Payload) :=
  guarded id hub (fun server =>
    let '(_, s) := getServerState (server_id server) (store hub) in
    let state := {| status := statusOf action; lastAction := Some action;
                    lastActionAt := Some now |} in
    let s := setStates (<[server_id server := state]> (serverStates s)) s in
    let '(hub, sent) := appendLog (server_id server) (lineOf action) (setStore s hub) in
    ({| code := 200; body := BServerState server state |}, hub, sent)).

(** [GET /api/servers/:id/logs]; [limit] is [req.query.limit] when it is
    a single text. *)
Definition logsRoute (id : string) (limit : option string) (hub : Hub)
    : Response * Hub * list (nat * Payload) :=
  guarded id hub (fun server =>
    let limitParam := match limit with Some text => Number text | None => num 50 end in
    let logs := slice (neg (clamp limitParam)) (logsOf (server_id server) hub) in
    ({| code := 200; body := BLogs logs |}, hub, [])).

(** [POST /api/servers/:id/command]; [command] is [body?.command] when
    it is a text. *)
Definition commandRoute (id : string) (command : option string) (hub : Hub)
    : Response * Hub * list (nat * Payload) :=
  guarded id hub (fun server =>
    let '(hub, sent) :=
      execute (server_id server) (trim (default EmptyString command)) hub in
    ({| code := 200; body := BOk |}, hub, sent)).

(** [loadServersConfig().then(...)]: the configuration is stored, and
    every server without a state gets the offline one. *)
Definition onLoaded (data : list ServerConfig) (hub : Hub) : Hub :=
  let states :=
    fold_left
      (fun states server =>
         match states !! server_id server with
         | Some _ => states
         | None => <[server_id server := offlineState]> states
         end)
      data (serverStates (store hub)) in
  setStore {| servers := data; serversLoaded := true; serverStates := states;
              serverLogs := serverLogs (store hub) |} hub.

(** Everything that can happen to the hub. *)
Inductive Event :=
| Loaded (data : list ServerConfig)
| Connection
| Message (ws : nat) (raw : Incoming)
| Closing (ws : nat)
| Close (ws : nat)
| Lifecycle (action : LifecycleAction) (now id : string)
| GetLogs (id : string) (limit : option string)
| PostCommand (id : string) (command : option string).

Definition step (e : Event) (hub : Hub) : Hub * list (nat * Payload) :=
  match e with
  | Loaded data => (onLoaded data hub, [])
  | Connection => (snd (onConnection hub), [])
  | Message ws raw => onMessage ws raw hub
  | Closing ws => (onClosing ws hub, [])
  | Close ws => (onClose ws hub, [])
  | Lifecycle action now id =>
      let '(_, hub, sent) := lifecycleRoute action now id hub in (hub, sent)
  | GetLogs id limit =>
      let '(_, hub, sent) := logsRoute id limit hub in (hub, sent)
  | PostCommand id command =>
      let '(_, hub, sent) := commandRoute id command hub in (hub, sent)
  end.

End BackendConsole.

Module ConsoleVocabulary.
Import Js Backend BackendConsole.

(** The hub after [events], and everything sent on the way, in order. *)
Definition run (events : list Event) (hub : Hub) : Hub * list (nat * Payload) :=
  fold_left
    (fun '(hub, sent) e => let '(hub', more) := step e hub in (hub', sent ++ more))
    events (hub, []).

(** No buffer of the hub holds more than 200 lines. *)
Definition capped (hub : Hub) : Prop :=
  forall id logs, serverLogs (store hub) !! id = Some logs -> (length logs <= 200)%nat.

(** The messages of the console client. *)
Definition subscribe (serverId : string) (limit : option JsNumber) : Incoming :=
  Parsed (Some {| data_type := Some "subscribe"; data_serverId := Some serverId;
                  data_limit := limit; data_command := None |}).

Definition command (text : string) : Incoming :=
  Parsed (Some {| data_type := Some "command"; data_serverId := None;
                  data_limit := None; data_command := Some text |}).

(** The open subscribers of [id]. *)
Definition listeners (id : string) (hub : Hub) : list nat :=
  List.filter (isOpen hub) (subscribersOf id hub).

(** [line] sent to each of [clients]. *)
Definition toAll (clients : list nat) (line : string) : list (nat * Payload) :=
  map (fun client => (client, Log line)) clients.

(** A hub with one socket, subscribed to [survival]. *)
Definition oneListener : Hub :=
  fst (onMessage 0 (subscribe " survival " None) (snd (onConnection started))).

(** The mock store and the hub show the same buffer and the same state
    for [id]. *)
Definition inStep (id : string) (m : Mock.Store) (hub : Hub) : Prop :=
  Mock.logsOf id m = logsOf id hub
  /\ fst (Mock.getServerState id m) = fst (getServerState id (store hub)).

(** A hub without sockets that holds the buffers and the states of a
    mock store, with one of the mock's servers configured. *)
Definition mirror (m : Mock.Store) : Hub :=
  {| store :=
       {| servers := [{| server_id := "nau-events"; name := "Nau Events";
                         path := "/srv/nau-events"; port := num 25565;
                         description := None; rcon := None |}];
          serversLoaded := true;
          serverStates := Mock.serverStates m; serverLogs := Mock.serverLogs m |};
     serverSubscribers := ∅; socketServerId := ∅; openSockets := ∅; sockets := O |}.

(** No message of [ws] among the events. *)
Definition silent (ws : nat) (e : Event) : bool :=
  match e with
  | Message from _ => negb (Nat.eqb from ws)
  | _ => true
  end.

End ConsoleVocabulary.

Module ServiceVocabulary.
Import Js Client.

(** What an event makes the service ask for; an exception asks for
    nothing. *)
Definition effectsOf (env : Environment) (e : Event) (c : Console) : list Effect :=
  match step env e c with
  | Done _ effects => effects
  | Throw => []
  end.

(** The service after [events], and everything it asked for on the way,
    in order. *)
Definition trace (env : Environment) (events : list Event) (c : Console)
    : Console * list Effect :=
  fold_left (fun '(c, effects) e => (after env e c, effects ++ effectsOf env e c))
    events (c, []).

(** The intervals that have been set and not cleared, from [ids]. *)
Definition liveFrom (ids : list nat) (effects : list Effect) : list nat :=
  fold_left
    (fun ids effect =>
       match effect with
       | SetInterval id _ => ids ++ [id]
       | ClearInterval id => List.filter (fun other => negb (Nat.eqb other id)) ids
       | _ => ids
       end)
    effects ids.

Definition live (effects : list Effect) : list nat := liveFrom [] effects.

(** The subscription the server holds for the current socket: the last
    one sent since the socket was opened, from [held]. *)
Definition subscriptionFrom (current : option (string * Z)) (effects : list Effect)
    : option (string * Z) :=
  fold_left
    (fun current effect =>
       match effect with
       | OpenSocket | CloseSocket => None
       | Send (Subscribe id n) => Some (id, n)
       | _ => current
       end)
    effects current.

Definition subscription (effects : list Effect) : option (string * Z) :=
  subscriptionFrom None effects.

(** The interval the service holds, as a list. *)
Definition held (c : Console) : list nat :=
  match pollingId c with
  | Some id => [id]
  | None => []
  end.

(** The interval held is the one alive, and its id has been handed
    out. *)
Definition tidy (c : Console) (ids : list nat) : Prop :=
  ids = held c /\ forall id, pollingId c = Some id -> (id < timers c)%nat.

(** While the socket is open and a server is selected, the subscription
    the server holds is for that server with the limit of the service. *)
Definition inTune (c : Console) (current : option (string * Z)) : Prop :=
  socket c = Some OPEN -> serverId c <> EmptyString ->
  current = Some (serverId c, limit c).

(** A text without its last, and without its first, code unit. *)
Fixpoint withoutLast (s : string) : string :=
  match s with
  | EmptyString => EmptyString
  | String _ EmptyString => EmptyString
  | String c r => String c (withoutLast r)
  end.

Definition withoutFirst (s : string) : string :=
  match s with
  | EmptyString => EmptyString
  | String _ r => r
  end.

Definition isSlash (c : option ascii) : bool :=
  match c with
  | Some c => Ascii.eqb c "/"
  | None => false
  end.

(** [environment.apiBaseUrl || '/api']. *)
Definition baseOf (env : Environment) : string :=
  if String.eqb (apiBaseUrl env) EmptyString then "/api" else apiBaseUrl env.

Definition liveEnvironment : Environment := {| useMocks := false; apiBaseUrl := EmptyString |}.

Definition mockEnvironment : Environment := {| useMocks := true; apiBaseUrl := EmptyString |}.

End ServiceVocabulary.

(** ** [AppStateService]: loading the servers and keeping the selection
       ([app-state.service.ts]) *)

Module AppState.
Import Js Client.

(** The subjects of the service that loading and selecting write, and
    [loadToken]. *)
Record Service := {
  servers : list ServerConfig;
  selectedServerId : string;
  loading : bool;
  error : string;
  loadToken : nat
}.

(** What a call asks of the browser: the fallback timer of a load, named
    by the token of that load, the request for the servers with its
    [timeout], the refresh of the statuses, and the stored selection. *)
Inductive Request :=
| SetTimeout (token : nat) (ms : Z)
| ClearTimeout (token : nat)
| GetServers (token : nat) (timeout : Z)
| RefreshStatuses (servers : list ServerConfig)
| SetItem (id : string)
| RemoveItem.

(** The constructor; [stored] is [localStorage.getItem(STORAGE_KEY)]. *)
Definition constructed (stored : option string) : Service :=
  {| servers := []; selectedServerId := default EmptyString stored;
     loading := false; error := EmptyString; loadToken := O |}.

Definition loadServers (s : Service) : Service * list Request :=
  let token := S (loadToken s) in
  ({| servers := servers s; selectedServerId := selectedServerId s;
      loading := true; error := EmptyString; loadToken := token |},
   [SetTimeout token 5000; GetServers token 3000]).

(** The callback of the fallback timer of the load [token]. *)
Definition onFallback (token : nat) (s : Service) : Service :=
  if Nat.eqb (loadToken s) token then
    {| servers := servers s; selectedServerId := selectedServerId s;
       loading := false; error := "Request timed out. Please try refresh again.";
       loadToken := loadToken s |}
  else s.

(** The [next] callback of the request of the load [token]. *)
Definition onNext (token : nat) (response : list ServerConfig) (s : Service)
    : Service * list Request :=
  ({| servers := response; selectedServerId := selectedServerId s;
      loading := if Nat.eqb (loadToken s) token then false else loading s;
      error := error s; loadToken := loadToken s |},
   [ClearTimeout token; RefreshStatuses response]).

(** The [error] callback of the request of the load [token]. *)
Definition onError (token : nat) (s : Service) : Service * list Request :=
  (if Nat.eqb (loadToken s) token then
     {| servers := []; selectedServerId := selectedServerId s;
        loading := false; error := "Unable to load servers. Check mock configuration.";
        loadToken := loadToken s |}
   else
     {| servers := []; selectedServerId := selectedServerId s;
        loading := loading s; error := error s; loadToken := loadToken s |},
   [ClearTimeout token]).

Definition selectServer (id : string) (s : Service) : Service * list Request :=
  ({| servers := servers s; selectedServerId := id; loading := loading s;
      error := error s; loadToken := loadToken s |},
   [if String.eqb id EmptyString then RemoveItem else SetItem id]).

(** [get selectedServer]. *)
Definition selectedServer (s : Service) : option ServerConfig :=
  List.find (fun server => String.eqb (server_id server) (selectedServerId s)) (servers s).

(** The stored selection after a request. *)
Definition store (stored : option string) (r : Request) : option string :=
  match r with
  | SetItem id => Some id
  | RemoveItem => None
  | _ => stored
  end.

(** Everything that can happen to the service. *)
Inductive Event :=
| LoadServers
| Fallback (token : nat)
| Next (token : nat) (response : list ServerConfig)
| Error (token : nat)
| SelectServer (id : string).

Definition step (e : Event) (s : Service) : Service * list Request :=
  match e with
  | LoadServers => loadServers s
  | Fallback token => (onFallback token s, [])
  | Next token response => onNext token response s
  | Error token => onError token s
  | SelectServer id => selectServer id s
  end.

Definition run (events : list Event) (s : Service) : Service :=
  fold_left (fun s e => fst (step e s)) events s.

End AppState.

(** ** [AppShellComponent]: the status carousel
       ([app-shell.component.ts]) *)

Module Shell.
Import Js Client.

Record Shell := {
  servers : list ServerConfig;
  statusIndex : nat
}.

Definition created : Shell := {| servers := []; statusIndex := O |}.

(** The subscriber of [servers$]. *)
Definition onServers (emitted : list ServerConfig) (s : Shell) : Shell :=
  {| servers := emitted;
     statusIndex :=
       if negb (Nat.eqb (length emitted) 0) then statusIndex s mod length emitted else O |}.

(** The callback of the carousel interval. *)
Definition onCarousel (s : Shell) : Shell :=
  if (1 <? length (servers s))%nat then
    {| servers := servers s;
       statusIndex := (statusIndex s + 1) mod length (servers s) |}
  else s.

(** [get currentStatusServer]. *)
Definition currentStatusServer (s : Shell) : option ServerConfig :=
  servers s !! statusIndex s.

Inductive Event :=
| Servers (emitted : list ServerConfig)
| Carousel.

Definition step (e : Event) (s : Shell) : Shell :=
  match e with
  | Servers emitted => onServers emitted s
  | Carousel => onCarousel s
  end.

Definition run (events : list Event) (s : Shell) : Shell :=
  fold_left (fun s e => step e s) events s.

End Shell.

(** ** [FilesComponent]: the paths of the file browser
       ([files.component.ts]) *)

Module Browser.
Import Js Mock.

Record Crumb := { crumb_name : string; crumb_path : string }.

(** The loop of [breadcrumbs] over the parts, from [acc]. *)
Fixpoint crumbsFrom (acc : string) (parts : list string) : list Crumb :=
  match parts with
  | [] => []
  | part :: rest =>
      let acc := if String.eqb acc EmptyString then part else acc +:+ "/" +:+ part in
      {| crumb_name := part; crumb_path := acc |} :: crumbsFrom acc rest
  end.

(** [get breadcrumbs]. *)
Definition breadcrumbs (currentPath : string) : list Crumb :=
  let parts := if String.eqb currentPath EmptyString then [] else split "/" currentPath in
  {| crumb_name := "root"; crumb_path := EmptyString |} :: crumbsFrom EmptyString parts.

(** [navigateUp]: the path it loads, if it loads one. *)
Definition navigateUp (currentPath : string) : option string :=
  if String.eqb currentPath EmptyString then None
  else Some (join "/" (removelast (split "/" currentPath))).

(** [joinPath]. *)
Definition joinPath (base name : string) : string :=
  let trimmed := dropTrailingSlashes (dropLeadingSlashes name) in
  if String.eqb base EmptyString then trimmed
  else dropTrailingSlashes base +:+ "/" +:+ trimmed.

End Browser.

Module AppVocabulary.
Import Js Client.

(** A callback of the load [token]. *)
Definition resolves (token : nat) (e : AppState.Event) : bool :=
  match e with
  | AppState.Fallback t | AppState.Next t _ | AppState.Error t => Nat.eqb t token
  | _ => false
  end.

(** An event that is no call of [loadServers] and no callback of the
    load [token]. *)
Definition beside (token : nat) (e : AppState.Event) : bool :=
  match e with
  | AppState.LoadServers => false
  | _ => negb (resolves token e)
  end.

(** An event that is no call of [loadServers]. *)
Definition noLoad (e : AppState.Event) : bool :=
  match e with
  | AppState.LoadServers => false
  | _ => true
  end.

(** The stored selection after the requests. *)
Definition stored (requests : list AppState.Request) (before : option string) : option string :=
  fold_left AppState.store requests before.

End AppVocabulary.

Module NumberVocabulary.

(** [Number.isSafeInteger]: the integers a Number holds exactly, one
    apart from the next. The text of such a number in a template literal
    is its decimal digits. *)
Definition safeInteger (n : Z) : Prop := - 2 ^ 53 < n < 2 ^ 53.

End NumberVocabulary.

Module WireVocabulary.
Import Js.

(** What the backend parses from what the client sends:
    [JSON.stringify] of the message, then [JSON.parse]. *)
Definition received (m : Client.WsMessage) : BackendConsole.Incoming :=
  match m with
  | Client.Subscribe serverId limit => ConsoleVocabulary.subscribe serverId (Some (num limit))
  | Client.Command text => ConsoleVocabulary.command text
  end.

(** What the client parses from what the backend sends. *)
Definition delivered (p : BackendConsole.Payload) : Client.Payload :=
  match p with
  | BackendConsole.Logs tail => ClientVocabulary.snapshotMessage tail
  | BackendConsole.Log line => ClientVocabulary.lineMessage line
  end.

(** What the service asks for when its socket opens. *)
Definition effectsOfOpen (env : Client.Environment) (c : Client.Console)
    : list Client.Effect :=
  ServiceVocabulary.effectsOf env Client.SocketOpen c.

(** The tail the backend answers a subscription of the service with. *)
Definition tailFor (c : Client.Console) (hub : BackendConsole.Hub) : list string :=
  lastLines (Z.to_nat (Client.limit c)) (BackendConsole.logsOf (Client.serverId c) hub).

(** A service whose socket for [id] is being opened. *)
Definition connecting (id : string) (n : Z) : Client.Console :=
  {| Client.socket := Some Client.CONNECTING; Client.pollingId := None;
     Client.serverId := id; Client.limit := n;
     Client.logs := Client.PArray []; Client.timers := O |}.

(** [environment.apiBaseUrl || '/api'] without the slash at its end, if
    it has one. *)
Definition apiRoot (env : Client.Environment) : string :=
  if ServiceVocabulary.isSlash (PathVocabulary.lastChar (ServiceVocabulary.baseOf env))
  then ServiceVocabulary.withoutLast (ServiceVocabulary.baseOf env)
  else ServiceVocabulary.baseOf env.

(** The URL of the last [n] lines of the log of server [id]. *)
Definition tailUrl (env : Client.Environment) (id : string) (n : Z) : string :=
  apiRoot env +:+ "/servers/" +:+ id +:+ "/logs?limit=" +:+ pretty n.

(** What has been sent to [ws], in order. *)
Definition inbox (ws : nat) (sent : list (nat * BackendConsole.Payload))
    : list BackendConsole.Payload :=
  map snd (List.filter (fun message => Nat.eqb (fst message) ws) sent).

End WireVocabulary.

(** * Properties *)

(** ** The built-ins on examples *)

Module JsExamples.
Import Js.

Example trim_example : trim "  say hi  " = "say hi".
Proof. reflexivity. Qed.

Example Number_integer : Number "1000" = num 1000.
Proof. reflexivity. Qed.

Example Number_negative : Number " -5 " = Fin (Qopp (inject_Z 5)).
Proof. reflexivity. Qed.

Example Number_empty : Number "" = num 0.
Proof. reflexivity. Qed.

Example Number_hex : Number "0x1F" = num 31.
Proof. reflexivity. Qed.

Example Number_fraction : Number "2.5e1" = num 25.
Proof. reflexivity. Qed.

Example Number_tenth :
  Number "0.1" = Fin (Qmake 3602879701896397 36028797018963968).
Proof. vm_compute. reflexivity. Qed.

Example Number_rounds_to_even :
  Number "9007199254740993" = num 9007199254740992
  /\ Number "9007199254740995" = num 9007199254740996.
Proof. split; vm_compute; reflexivity. Qed.

Example Number_rounds_up : Number "1.9999999999999999999" = num 2.
Proof. vm_compute. reflexivity. Qed.

Example Number_largest :
  Number "1.7976931348623157e308" = num ((2 ^ 53 - 1) * 2 ^ 971)
  /\ Number "1.7976931348623159e308" = PosInfinity
  /\ Number "-1e400" = NegInfinity.
Proof. repeat split; vm_compute; reflexivity. Qed.

Example Number_smallest :
  Number "5e-324" = Fin (Qmake 1 (Z.to_pos (2 ^ 1074)))
  /\ Number "3e-324" = Fin (Qmake 1 (Z.to_pos (2 ^ 1074)))
  /\ Number "2e-324" = num 0.
Proof. repeat split; vm_compute; reflexivity. Qed.

Example Number_text : Number "abc" = NaN /\ Number "12px" = NaN /\ Number "." = NaN.
Proof. repeat split. Qed.

Example atob_example : atob "aGVsbG8=" = Some "hello".
Proof. reflexivity. Qed.

Example split_join : join "/" (removelast (split "/" "config/server.properties")) = "config".
Proof. reflexivity. Qed.

End JsExamples.

Module MockExamples.
Import Js Mock.

Example route_logs : matchRoute "/api/servers/nau-events/logs" = Some ("nau-events", Some "logs").
Proof. reflexivity. Qed.

Example route_files : matchRoute "/api/servers/a/files/content" = Some ("a", Some "files/content").
Proof. reflexivity. Qed.

Example route_none : matchRoute "/api/servers/a/b/c" = None /\ matchRoute "/api/servers/" = None.
Proof. split; reflexivity. Qed.

Example first_start :
  fst (mockApiInterceptor "T" (request "POST" "/api/servers/nau-events/start") initial)
  = Respond 200 (BServerState
      {| server_id := "nau-events"; name := "Nau Events";
         path := "D:/Minecraft/servers/nau-events"; port := 25568;
         description := Some "Event server for mini-games and seasonal activities." |}
      {| status := online; lastAction := Some start; lastActionAt := Some "T" |}).
Proof. vm_compute. reflexivity. Qed.

End MockExamples.

(** ** Lists: [slice] with a negative start keeps the last items *)

Module SliceFacts.
Import Js.

Section Lists.
Context {A : Type}.
Implicit Types l r : list A.

Lemma lastLines_all n l : (length l <= n)%nat -> lastLines n l = l.
Proof.
  intros H. unfold lastLines.
  replace (length l - n)%nat with O by lia. apply drop_0.
Qed.

Lemma length_lastLines n l : length (lastLines n l) = Nat.min n (length l).
Proof. unfold lastLines. rewrite length_drop. lia. Qed.

Lemma lastLines_min n l : lastLines (Nat.min n (length l)) l = lastLines n l.
Proof. unfold lastLines. f_equal. lia. Qed.

Lemma lastLines_suffix n l : exists front, l = front ++ lastLines n l.
Proof. exists (take (length l - n) l). unfold lastLines. by rewrite take_drop. Qed.

(** Trimming a buffer before more lines arrive does not change what the
    last [n] of all lines are. *)
Lemma lastLines_app n l r : lastLines n (lastLines n l ++ r) = lastLines n (l ++ r).
Proof.
  destruct (decide (length l <= n)%nat) as [Hl | Hl].
  { by rewrite (lastLines_all n l). }
  unfold lastLines at 1 3.
  rewrite !length_app, length_lastLines.
  replace (Nat.min n (length l)) with n by lia.
  unfold lastLines.
  destruct (decide (length r <= n)%nat) as [Hr | Hr].
  - rewrite !drop_app_le by (rewrite ?length_drop; lia).
    rewrite drop_drop. do 2 f_equal. lia.
  - rewrite !drop_app_ge by (rewrite ?length_drop; lia).
    rewrite length_drop. f_equal. lia.
Qed.

Lemma truncate_opp q : truncate (Qopp q) = - truncate q.
Proof. unfold truncate. destruct q as [a b]. simpl. by rewrite Z.quot_opp_l. Qed.

Lemma truncate_ge_1 q : Qle_bool (inject_Z 1) q = true -> 1 <= truncate q.
Proof.
  unfold Qle_bool, truncate. destruct q as [a b]. simpl.
  intros H%Z.leb_le.
  rewrite Z.quot_div_nonneg by lia.
  apply Z.div_le_lower_bound; lia.
Qed.

Lemma truncate_inject z : truncate (inject_Z z) = z.
Proof. unfold truncate. simpl. apply Z.quot_1_r. Qed.

(** [l.slice(-x)] for a finite [x] of at least 1: the last [trunc x] items. *)
Lemma slice_neg_Fin q l :
  1 <= truncate q -> slice (neg (Fin q)) l = lastLines (Z.to_nat (truncate q)) l.
Proof.
  intros H. unfold slice, lastLines. simpl. rewrite truncate_opp.
  destruct (Z.ltb_spec (- truncate q) 0); [| lia].
  f_equal. lia.
Qed.

Lemma slice_neg_num n l :
  1 <= n -> slice (neg (num n)) l = lastLines (Z.to_nat n) l.
Proof.
  intros H. unfold num. rewrite slice_neg_Fin; rewrite truncate_inject; done.
Qed.

Lemma slice_neg_PosInfinity l : slice (neg PosInfinity) l = l.
Proof. unfold slice. simpl. apply drop_0. Qed.

Lemma length_slice start l : (length (slice start l) <= length l)%nat.
Proof. unfold slice. rewrite length_drop. lia. Qed.

End Lists.

End SliceFacts.

(** ** The mock store: seeding, lookup of states, [appendLog] *)

Module StoreFacts.
Import Js Mock Vocabulary SliceFacts.

Lemma getServerState_logs id st : serverLogs (snd (getServerState id st)) = serverLogs st.
Proof. unfold getServerState. by destruct (serverStates st !! id). Qed.

Lemma getServerState_files id st : serverFiles (snd (getServerState id st)) = serverFiles st.
Proof. unfold getServerState. by destruct (serverStates st !! id). Qed.

Lemma getServerState_lookup id st :
  serverStates (snd (getServerState id st)) !! id = Some (fst (getServerState id st)).
Proof.
  unfold getServerState. destruct (serverStates st !! id) eqn:E; simpl; [done |].
  apply lookup_insert_eq.
Qed.

Lemma getServerState_present id st state :
  serverStates st !! id = Some state -> getServerState id st = (state, st).
Proof. intros H. unfold getServerState. by rewrite H. Qed.

Lemma getServerState_other id id' st :
  id' <> id ->
  serverStates (snd (getServerState id st)) !! id' = serverStates st !! id'.
Proof.
  intros H. unfold getServerState. destruct (serverStates st !! id); simpl; [done |].
  by rewrite lookup_insert_ne.
Qed.

Lemma getServerState_flags id st :
  statesSeeded (snd (getServerState id st)) = statesSeeded st
  /\ logsSeeded (snd (getServerState id st)) = logsSeeded st.
Proof. unfold getServerState. by destruct (serverStates st !! id). Qed.

(** Storing over the entry [getServerState] may have created. *)
Lemma storeState_getServerState id state st :
  storeState id state (snd (getServerState id st)) = storeState id state st.
Proof.
  unfold getServerState, storeState, setStates.
  destruct (serverStates st !! id); simpl; [done |].
  by rewrite insert_insert_eq.
Qed.

Lemma appendLog_serverLogs id line st :
  serverLogs (appendLog id line st)
  = <[id := lastLines 200 (logsOf id st ++ [line])]> (serverLogs st).
Proof.
  unfold appendLog, logsOf, lastLines. simpl. f_equal.
  destruct (Nat.ltb_spec 200 (length (default [] (serverLogs st !! id) ++ [line]))) as [H | H];
    [done |].
  replace (length (default [] (serverLogs st !! id) ++ [line]) - 200)%nat with O by lia.
  by rewrite drop_0.
Qed.

Lemma appendLog_logsOf id line st :
  logsOf id (appendLog id line st) = lastLines 200 (logsOf id st ++ [line]).
Proof. unfold logsOf at 1. by rewrite appendLog_serverLogs, lookup_insert_eq. Qed.

Lemma appendLog_other id id' line st :
  id' <> id -> logsOf id' (appendLog id line st) = logsOf id' st.
Proof. intros H. unfold logsOf. by rewrite appendLog_serverLogs, lookup_insert_ne. Qed.

Lemma appendLog_states id line st : serverStates (appendLog id line st) = serverStates st.
Proof. reflexivity. Qed.

Lemma appendLog_files id line st : serverFiles (appendLog id line st) = serverFiles st.
Proof. reflexivity. Qed.

Lemma appendLog_logsSeeded id line st : logsSeeded (appendLog id line st) = logsSeeded st.
Proof. reflexivity. Qed.

Lemma appendLogs_logsSeeded id lines st :
  logsSeeded (appendLogs id lines st) = logsSeeded st.
Proof.
  revert st. induction lines as [| line lines IH]; intros st; [done |].
  simpl. by rewrite IH.
Qed.

Lemma appendLogs_other id id' lines st :
  id' <> id -> logsOf id' (appendLogs id lines st) = logsOf id' st.
Proof.
  intros H. revert st. induction lines as [| line lines IH]; intros st; [done |].
  simpl. by rewrite IH, appendLog_other.
Qed.

(** After at least one call, the buffer is the last 200 lines of
    everything it was given. *)
Lemma appendLogs_logsOf id line lines st :
  logsOf id (appendLogs id (line :: lines) st)
  = lastLines 200 (logsOf id st ++ line :: lines).
Proof.
  revert line st. induction lines as [| next lines IH]; intros line st.
  - apply appendLog_logsOf.
  - change (appendLogs id (line :: next :: lines) st)
      with (appendLogs id (next :: lines) (appendLog id line st)).
    rewrite IH, appendLog_logsOf, lastLines_app.
    by rewrite <- app_assoc.
Qed.

(** Seeding. *)

Lemma seedStates_logs st : serverLogs (seedStates st) = serverLogs st.
Proof. unfold seedStates. by destruct (statesSeeded st). Qed.

Lemma seedFiles_logs st : serverLogs (seedFiles st) = serverLogs st.
Proof. unfold seedFiles. by destruct (negb _). Qed.

Lemma seedLogs_seeded st : logsSeeded st = true -> seedLogs st = st.
Proof. intros H. unfold seedLogs. by rewrite H. Qed.

Lemma seedStates_seeded st : statesSeeded st = true -> seedStates st = st.
Proof. intros H. unfold seedStates. by rewrite H. Qed.

Lemma seedFiles_seeded st : serverFiles st <> ∅ -> seedFiles st = st.
Proof.
  intros H. unfold seedFiles.
  destruct (Nat.eqb_spec (size (serverFiles st)) 0) as [E | E]; [| done].
  by apply map_size_empty_iff in E.
Qed.

Lemma seedAll_logs st : logsSeeded st = true -> serverLogs (seedAll st) = serverLogs st.
Proof.
  intros H. unfold seedAll. rewrite seedFiles_logs, seedLogs_seeded, seedStates_logs; [done |].
  unfold seedStates. by destruct (statesSeeded st).
Qed.

(** A seeded store is left alone. *)
Lemma seedAll_seeded st :
  statesSeeded st = true -> logsSeeded st = true -> serverFiles st <> ∅ ->
  seedAll st = st.
Proof.
  intros Hs Hl Hf. unfold seedAll.
  by rewrite (seedStates_seeded st Hs), (seedLogs_seeded st Hl), (seedFiles_seeded st Hf).
Qed.

End StoreFacts.

(** ** Routing *)

Module RouteFacts.
Import Js Mock Vocabulary SliceFacts StoreFacts.

Lemma dropPrefix_Some p s rest : dropPrefix p s = Some rest -> s = p +:+ rest.
Proof.
  revert s. induction p as [| a p IH]; intros s; simpl.
  - by intros [= ->].
  - destruct s as [| b s]; [done |].
    destruct (Ascii.eqb_spec a b) as [-> | _]; [| done].
    intros H. by rewrite (IH _ H).
Qed.

Lemma matchRoute_prefix p id action :
  matchRoute p = Some (id, action) -> exists rest, p = "/api/servers/" +:+ rest.
Proof.
  unfold matchRoute. destruct (dropPrefix "/api/servers/" p) as [rest |] eqn:E; [| done].
  intros _. exists rest. by apply dropPrefix_Some.
Qed.

(** A path of the per-server routes is under [/api/] and is neither of
    the two fixed endpoints. *)
Lemma matchRoute_url req id action :
  matchRoute (pathname req) = Some (id, action) ->
  startsWith "/api/" (url req) = true
  /\ String.eqb (url req) "/api/health" = false
  /\ String.eqb (url req) "/api/servers" = false.
Proof.
  intros [rest E]%matchRoute_prefix. unfold url. rewrite E. by cbn.
Qed.

(** The interceptor on a path of the per-server routes. *)
Lemma interceptor_route now req st id action :
  matchRoute (pathname req) = Some (id, action) ->
  mockApiInterceptor now req st
  = match findServer id with
    | None => (Respond 404 (BError "Server not found."), seedAll st)
    | Some server => serverRoute now req id action server (seedAll st)
    end.
Proof.
  intros H. destruct (matchRoute_url req id action H) as (H1 & H2 & H3).
  unfold mockApiInterceptor. by rewrite H1, H2, H3, H.
Qed.

Lemma serverRoute_logs now req id server st :
  method req = "GET" ->
  serverRoute now req id (Some "logs") server st
  = (ok (BLogs (slice (neg (logsLimit (searchParam "limit" req))) (logsOf id st))),
     snd (getServerState id st)).
Proof.
  intros Hm. unfold serverRoute. destruct (getServerState id st) as [state st'] eqn:E.
  rewrite Hm. cbn.
  unfold logsOf. by rewrite <- (getServerState_logs id st), E.
Qed.

Lemma serverRoute_command now req id server st :
  method req = "POST" ->
  serverRoute now req id (Some "command") server st
  = let command := trim (default EmptyString (bodyField "command" req)) in
    let st := snd (getServerState id st) in
    (ok BOk,
     if negb (String.eqb command EmptyString) then
       appendLog id ("[INFO] Executed command: " +:+ command)
         (appendLog id ("[CMD] " +:+ command) st)
     else st).
Proof.
  intros Hm. unfold serverRoute. destruct (getServerState id st) as [state st'] eqn:E.
  rewrite Hm. by cbn.
Qed.

Lemma fileRoute_lifecycle a m req id st :
  fileRoute (actionName a) m req id st = None.
Proof. by destruct a. Qed.

Lemma serverRoute_lifecycle now req id a server st :
  serverRoute now req id (Some (actionName a)) server st
  = let state := {| status := statusAfter a; lastAction := Some a;
                    lastActionAt := Some now |} in
    (ok (BServerState server state),
     appendLog id (lineOf a) (storeState id state st)).
Proof.
  unfold serverRoute. destruct (getServerState id st) as [state st'] eqn:E.
  assert (st' = snd (getServerState id st)) as -> by by rewrite E.
  destruct a; cbn; by rewrite storeState_getServerState.
Qed.

End RouteFacts.

(** ** The log buffer and its tail *)

Module LogBuffer.
Import Js Mock Vocabulary SliceFacts StoreFacts RouteFacts.

Lemma logsLimit_integer text n :
  Number text = num n -> logsLimit (Some text) = num (Z.max 1 n).
Proof.
  intros H. unfold logsLimit. simpl. rewrite H. simpl.
  unfold Qle_bool. simpl. rewrite !Z.mul_1_r.
  destruct (Z.leb_spec 1 n).
  - by rewrite Z.max_r.
  - by rewrite Z.max_l by lia.
Qed.

(** C1. For every registered server and every run of [appendLog] calls
    on its buffer, the buffer holds exactly the last 200 of all the lines
    it was given, in the order they were appended, and no other buffer
    changes; a logs request with a limit of at least 200 (1000, say)
    answers with exactly those lines. *)
Theorem appendLog_keeps_most_recent_200 now req st id server line lines text n :
  findServer id = Some server ->
  logsSeeded st = true ->
  matchRoute (pathname req) = Some (id, Some "logs") ->
  method req = "GET" ->
  searchParam "limit" req = Some text ->
  Number text = num n ->
  200 <= n ->
  logsOf id (appendLogs id (line :: lines) st)
    = lastLines 200 (logsOf id st ++ line :: lines)
  /\ length (logsOf id (appendLogs id (line :: lines) st))
     = Nat.min 200 (length (logsOf id st) + S (length lines))
  /\ (forall id', id' <> id ->
        logsOf id' (appendLogs id (line :: lines) st) = logsOf id' st)
  /\ fst (mockApiInterceptor now req (appendLogs id (line :: lines) st))
     = Respond 200 (BLogs (lastLines 200 (logsOf id st ++ line :: lines))).
Proof.
  intros Hfind Hseed Hroute Hm Hlimit Hnum Hn.
  pose proof (appendLogs_logsOf id line lines st) as Hlogs.
  split; [done |]. split.
  { rewrite Hlogs, length_lastLines, length_app. simpl. lia. }
  split.
  { intros id' Hne. by apply appendLogs_other. }
  rewrite (interceptor_route _ _ _ _ _ Hroute), Hfind, (serverRoute_logs _ _ _ _ _ Hm).
  cbn [fst]. unfold ok. do 2 f_equal.
  rewrite Hlimit, (logsLimit_integer _ _ Hnum).
  rewrite slice_neg_num by lia.
  unfold logsOf at 1.
  rewrite seedAll_logs by by rewrite appendLogs_logsSeeded.
  fold (logsOf id (appendLogs id (line :: lines) st)).
  rewrite Hlogs. apply lastLines_all.
  rewrite length_lastLines. lia.
Qed.

Lemma appendLog_keeps_most_recent_200_witness :
  fst (mockApiInterceptor "2026-02-08T08:00:00.000Z" (tailRequest "nau-events" "1000")
         (appendLogs "nau-events" ("first" :: replicate 250 "tick") (seedAll initial)))
  = Respond 200
      (BLogs (lastLines 200
                (logsOf "nau-events" (seedAll initial) ++ "first" :: replicate 250 "tick"))).
Proof.
  refine (proj2 (proj2 (proj2
    (appendLog_keeps_most_recent_200 "2026-02-08T08:00:00.000Z"
       (tailRequest "nau-events" "1000") (seedAll initial) "nau-events"
       {| server_id := "nau-events"; name := "Nau Events";
          path := "D:/Minecraft/servers/nau-events"; port := 25568;
          description := Some "Event server for mini-games and seasonal activities." |}
       "first" (replicate 250 "tick") "1000" 1000 _ _ _ _ _ _ _)))).
  - reflexivity.
  - reflexivity.
  - reflexivity.
  - reflexivity.
  - reflexivity.
  - reflexivity.
  - lia.
Defined.

Example tail_of_255_lines :
  lastLines 200 (logsOf "nau-events" (seedAll initial) ++ "first" :: replicate 250 "tick")
  = replicate 200 "tick".
Proof. vm_compute. reflexivity. Qed.

End LogBuffer.

(** ** Lifecycle actions and commands *)

Module Lifecycle.
Import Js Mock Vocabulary SliceFacts StoreFacts RouteFacts.

(** C2. For every registered server and each of start, stop and restart,
    the call sets the state of that server to the status of the action
    (online, offline, online), records the action and the time of the
    call, appends the one line of the action to the server's buffer, and
    answers 200 with the server and that state; the states and buffers of
    the other servers and all files stay as they were. *)
Theorem lifecycle_action_updates_state_and_log now req st id server a :
  findServer id = Some server ->
  matchRoute (pathname req) = Some (id, Some (actionName a)) ->
  fst (mockApiInterceptor now req st)
    = Respond 200 (BServerState server
        {| status := statusAfter a; lastAction := Some a; lastActionAt := Some now |})
  /\ serverStates (snd (mockApiInterceptor now req st)) !! id
     = Some {| status := statusAfter a; lastAction := Some a; lastActionAt := Some now |}
  /\ logsOf id (snd (mockApiInterceptor now req st))
     = lastLines 200 (logsOf id (seedAll st) ++ [lineOf a])
  /\ ((length (logsOf id (seedAll st)) < 200)%nat ->
      logsOf id (snd (mockApiInterceptor now req st)) = logsOf id (seedAll st) ++ [lineOf a])
  /\ (forall id', id' <> id ->
        serverStates (snd (mockApiInterceptor now req st)) !! id'
          = serverStates (seedAll st) !! id'
        /\ logsOf id' (snd (mockApiInterceptor now req st)) = logsOf id' (seedAll st))
  /\ serverFiles (snd (mockApiInterceptor now req st)) = serverFiles (seedAll st).
Proof.
  intros Hfind Hroute.
  rewrite (interceptor_route _ _ _ _ _ Hroute), Hfind, serverRoute_lifecycle.
  cbn [fst snd].
  split; [done |]. split.
  { rewrite appendLog_states. apply lookup_insert_eq. }
  split.
  { rewrite appendLog_logsOf. done. }
  split.
  { intros Hlen. rewrite appendLog_logsOf. apply lastLines_all.
    rewrite length_app. cbn [length]. unfold logsOf in *. simpl in *. lia. }
  split; [| done].
  intros id' Hne. split.
  - rewrite appendLog_states. simpl. by rewrite lookup_insert_ne.
  - by rewrite appendLog_other.
Qed.

Lemma lifecycle_action_updates_state_and_log_witness :
  fst (mockApiInterceptor "2026-02-08T08:00:00.000Z"
         (request "POST" "/api/servers/nau-creative/start") initial)
  = Respond 200 (BServerState
      {| server_id := "nau-creative"; name := "Nau Creative";
         path := "D:/Minecraft/servers/nau-creative"; port := 25566;
         description := Some "Creative sandbox for builds, schematics, and experiments." |}
      {| status := online; lastAction := Some start;
         lastActionAt := Some "2026-02-08T08:00:00.000Z" |}).
Proof.
  refine (proj1
    (lifecycle_action_updates_state_and_log "2026-02-08T08:00:00.000Z"
       (request "POST" "/api/servers/nau-creative/start") initial "nau-creative"
       _ start _ _)).
  - reflexivity.
  - reflexivity.
Defined.

Lemma appendLog_twice id first second st :
  logsOf id (appendLog id second (appendLog id first st))
  = lastLines 200 (logsOf id st ++ [first; second]).
Proof. apply (appendLogs_logsOf id first [second] st). Qed.

(** C4. For every command sent to a registered server, the text is
    trimmed; when nothing is left no buffer changes, otherwise the
    server's buffer receives two lines in this order, [[CMD]] with the
    command and [[INFO] Executed command:] with the command, and no other
    buffer changes; either way the answer is 200 with [{ok: true}], and
    existing states and all files stay as they were. *)
Theorem command_appends_echo_then_result now req st id server :
  findServer id = Some server ->
  matchRoute (pathname req) = Some (id, Some "command") ->
  method req = "POST" ->
  fst (mockApiInterceptor now req st) = Respond 200 BOk
  /\ (trim (default EmptyString (bodyField "command" req)) = EmptyString ->
      serverLogs (snd (mockApiInterceptor now req st)) = serverLogs (seedAll st))
  /\ (trim (default EmptyString (bodyField "command" req)) <> EmptyString ->
      logsOf id (snd (mockApiInterceptor now req st))
        = lastLines 200
            (logsOf id (seedAll st)
             ++ ["[CMD] " +:+ trim (default EmptyString (bodyField "command" req));
                 "[INFO] Executed command: "
                   +:+ trim (default EmptyString (bodyField "command" req))])
      /\ forall id', id' <> id ->
           logsOf id' (snd (mockApiInterceptor now req st)) = logsOf id' (seedAll st))
  /\ (forall id' state, serverStates (seedAll st) !! id' = Some state ->
        serverStates (snd (mockApiInterceptor now req st)) !! id' = Some state)
  /\ serverFiles (snd (mockApiInterceptor now req st)) = serverFiles (seedAll st).
Proof.
  intros Hfind Hroute Hm.
  rewrite (interceptor_route _ _ _ _ _ Hroute), Hfind, (serverRoute_command _ _ _ _ _ Hm).
  cbn [fst snd].
  set (command := trim (default EmptyString (bodyField "command" req))).
  set (before := seedAll st).
  assert (Hstates : forall id' state, serverStates before !! id' = Some state ->
            serverStates (snd (getServerState id before)) !! id' = Some state).
  { intros id' state H. destruct (decide (id' = id)) as [-> | Hne].
    - by rewrite (getServerState_present _ _ _ H).
    - by rewrite getServerState_other. }
  split; [done |].
  destruct (String.eqb_spec command EmptyString) as [E | E]; cbn [negb].
  - split; [intros _; apply getServerState_logs |].
    split; [done |]. split; [done |]. apply getServerState_files.
  - split; [done |]. split.
    { intros _. split.
      - rewrite appendLog_twice. unfold logsOf. by rewrite getServerState_logs.
      - intros id' Hne. rewrite !appendLog_other by done.
        unfold logsOf. by rewrite getServerState_logs. }
    split; [done |]. apply getServerState_files.
Qed.

Lemma command_appends_echo_then_result_witness :
  fst (mockApiInterceptor "2026-02-08T08:00:00.000Z"
         (commandRequest "nau-events" "  say hello ") initial)
  = Respond 200 BOk.
Proof.
  refine (proj1
    (command_appends_echo_then_result "2026-02-08T08:00:00.000Z"
       (commandRequest "nau-events" "  say hello ") initial "nau-events" _ _ _ _)).
  - reflexivity.
  - reflexivity.
  - reflexivity.
Defined.

Example command_lines :
  logsOf "nau-events"
    (snd (mockApiInterceptor "2026-02-08T08:00:00.000Z"
            (commandRequest "nau-events" "  say hello ") initial))
  = logsOf "nau-events" (seedAll initial)
    ++ ["[CMD] say hello"; "[INFO] Executed command: say hello"].
Proof. vm_compute. reflexivity. Qed.

Example blank_command_appends_nothing :
  snd (mockApiInterceptor "2026-02-08T08:00:00.000Z"
         (commandRequest "nau-events" "   ") initial)
  = seedAll initial.
Proof. vm_compute. reflexivity. Qed.

End Lifecycle.

(** ** The limit of a logs request *)

Module LogsLimit.
Import Js Mock Vocabulary SliceFacts StoreFacts RouteFacts LogBuffer.

Lemma logsLimit_clamped text q :
  Number (default "50" text) = Fin q ->
  logsLimit text = if Qle_bool (inject_Z 1) q then Fin q else num 1.
Proof. intros H. unfold logsLimit. by rewrite H. Qed.

Lemma logsLimit_atLeastOne text : atLeastOne (logsLimit text).
Proof.
  unfold logsLimit. destruct (Number (default "50" text)) as [| | | q]; simpl; try done.
  destruct (Qle_bool (inject_Z 1) q) eqn:E; simpl; done.
Qed.

Lemma slice_atLeastOne (limit : JsNumber) (l : list string) :
  atLeastOne limit ->
  slice (neg limit) l = lastLines (Nat.min (lineCount limit (length l)) (length l)) l.
Proof.
  rewrite lastLines_min.
  destruct limit as [| | | q]; simpl; try done.
  - intros _. rewrite slice_neg_PosInfinity. by rewrite lastLines_all.
  - intros H. apply slice_neg_Fin. by apply truncate_ge_1.
Qed.

(** C3, as stated, fails on a limit that is present but empty
    ([/api/servers/nau-events/logs?limit=]): the empty text is no number,
    yet the answer is the last line alone, as for [limit=1], and not the
    last 50 lines (here all four), which is what a missing limit, 50 and
    [abc] give. [Number] reads the empty text as 0, not as NaN. *)
Lemma empty_limit_is_raised_to_1 :
  searchParam "limit" (tailRequest "nau-events" EmptyString) = Some EmptyString
  /\ hasDigit EmptyString = false
  /\ Number EmptyString = num 0
  /\ fst (mockApiInterceptor "2026-02-08T08:00:00.000Z"
            (tailRequest "nau-events" EmptyString) initial)
     = Respond 200 (BLogs [doneLine "4.66"])
  /\ fst (mockApiInterceptor "2026-02-08T08:00:00.000Z"
            (tailRequest "nau-events" "1") initial)
     = Respond 200 (BLogs [doneLine "4.66"])
  /\ fst (mockApiInterceptor "2026-02-08T08:00:00.000Z"
            (request "GET" "/api/servers/nau-events/logs") initial)
     = Respond 200 (BLogs ["[INFO] Starting minecraft server version 1.20.4";
                           "[INFO] Loading mini-games"; "[INFO] Arena 2 ready";
                           doneLine "4.66"])
  /\ fst (mockApiInterceptor "2026-02-08T08:00:00.000Z"
            (tailRequest "nau-events" "50") initial)
     = Respond 200 (BLogs ["[INFO] Starting minecraft server version 1.20.4";
                           "[INFO] Loading mini-games"; "[INFO] Arena 2 ready";
                           doneLine "4.66"])
  /\ fst (mockApiInterceptor "2026-02-08T08:00:00.000Z"
            (tailRequest "nau-events" "abc") initial)
     = Respond 200 (BLogs ["[INFO] Starting minecraft server version 1.20.4";
                           "[INFO] Loading mini-games"; "[INFO] Arena 2 ready";
                           doneLine "4.66"]).
Proof. repeat split; vm_compute; reflexivity. Qed.

Lemma logsLimit_blank text :
  trim text = EmptyString -> logsLimit (Some text) = num 1.
Proof. intros H. unfold logsLimit, Number. simpl. by rewrite H. Qed.

(** C3, amended. For every registered server and every logs request,
    the answer is the last min(limit, length) lines of the buffer, where
    the limit is 50 when the request has no [limit], 50 when [Number]
    reads its text as NaN, and otherwise the number read, raised to 1
    when it is below 1: an integer n counts as max(1, n), so that 0 and
    -5 give what 1 gives, and so does an empty or blank text, which
    [Number] reads as 0. *)
Theorem logs_tail_limit now req st id server :
  findServer id = Some server ->
  matchRoute (pathname req) = Some (id, Some "logs") ->
  method req = "GET" ->
  fst (mockApiInterceptor now req st)
    = Respond 200
        (BLogs (lastLines
                  (Nat.min (lineCount (logsLimit (searchParam "limit" req))
                              (length (logsOf id (seedAll st))))
                           (length (logsOf id (seedAll st))))
                  (logsOf id (seedAll st))))
  /\ (searchParam "limit" req = None ->
      logsLimit (searchParam "limit" req) = num 50)
  /\ (forall text, searchParam "limit" req = Some text -> Number text = NaN ->
      logsLimit (searchParam "limit" req) = num 50)
  /\ (forall text n, searchParam "limit" req = Some text -> Number text = num n ->
      logsLimit (searchParam "limit" req) = num (Z.max 1 n)
      /\ lineCount (logsLimit (searchParam "limit" req)) (length (logsOf id (seedAll st)))
         = Z.to_nat (Z.max 1 n))
  /\ (forall text q, searchParam "limit" req = Some text -> Number text = Fin q ->
      logsLimit (searchParam "limit" req)
      = if Qle_bool (inject_Z 1) q then Fin q else num 1)
  /\ (forall text, searchParam "limit" req = Some text -> trim text = EmptyString ->
      logsLimit (searchParam "limit" req) = num 1)
  /\ logsLimit (Some "0") = logsLimit (Some "1")
  /\ logsLimit (Some "-5") = logsLimit (Some "1").
Proof.
  intros Hfind Hroute Hm.
  split.
  { rewrite (interceptor_route _ _ _ _ _ Hroute), Hfind, (serverRoute_logs _ _ _ _ _ Hm).
    cbn [fst]. unfold ok. do 2 f_equal.
    apply slice_atLeastOne, logsLimit_atLeastOne. }
  split; [by intros -> |].
  split.
  { intros text -> H. unfold logsLimit. simpl. by rewrite H. }
  split.
  { intros text n -> H. rewrite (logsLimit_integer _ _ H). split; [done |].
    simpl. by rewrite truncate_inject. }
  split.
  { intros text q -> H. by apply logsLimit_clamped. }
  split.
  { intros text -> H. by apply logsLimit_blank. }
  split; reflexivity.
Qed.

Lemma logs_tail_limit_witness :
  fst (mockApiInterceptor "2026-02-08T08:00:00.000Z" (tailRequest "nau-events" "-5") initial)
  = Respond 200
      (BLogs (lastLines
                (Nat.min (lineCount (logsLimit (Some "-5"))
                            (length (logsOf "nau-events" (seedAll initial))))
                         (length (logsOf "nau-events" (seedAll initial))))
                (logsOf "nau-events" (seedAll initial)))).
Proof.
  refine (proj1
    (logs_tail_limit "2026-02-08T08:00:00.000Z" (tailRequest "nau-events" "-5")
       initial "nau-events" _ _ _ _)).
  - reflexivity.
  - reflexivity.
  - reflexivity.
Defined.

Example limit_minus_five_gives_one_line :
  fst (mockApiInterceptor "2026-02-08T08:00:00.000Z" (tailRequest "nau-events" "-5") initial)
  = Respond 200 (BLogs [doneLine "4.66"]).
Proof. vm_compute. reflexivity. Qed.

Example limit_three :
  fst (mockApiInterceptor "2026-02-08T08:00:00.000Z" (tailRequest "nau-events" "3") initial)
  = Respond 200 (BLogs ["[INFO] Loading mini-games"; "[INFO] Arena 2 ready"; doneLine "4.66"]).
Proof. vm_compute. reflexivity. Qed.

(** A fractional limit is truncated by [slice]. *)
Example limit_with_fraction :
  fst (mockApiInterceptor "2026-02-08T08:00:00.000Z" (tailRequest "nau-events" "2.9") initial)
  = Respond 200 (BLogs ["[INFO] Arena 2 ready"; doneLine "4.66"]).
Proof. vm_compute. reflexivity. Qed.

End LogsLimit.

(** ** What every call of the interceptor preserves *)

Module Invariants.
Import Js Mock Vocabulary SliceFacts StoreFacts RouteFacts.

Lemma keeps_refl st : keeps st st.
Proof. by repeat split. Qed.

Lemma keeps_getServerState st st1 id :
  keeps st st1 -> keeps st (snd (getServerState id st1)).
Proof.
  intros (H1 & H2 & H3 & H4). unfold getServerState.
  by destruct (serverStates st1 !! id).
Qed.

Lemma keeps_storeState st st1 id state :
  keeps st st1 -> keeps st (storeState id state st1).
Proof. by intros (H1 & H2 & H3 & H4). Qed.

Lemma keeps_setFilesOf st st1 id files :
  keeps st st1 -> keeps st (setFilesOf id files st1).
Proof.
  intros (H1 & H2 & H3 & H4). repeat split; try done.
  intros _. simpl. apply insert_non_empty.
Qed.

Lemma capped_appendLog id line st : capped st -> capped (appendLog id line st).
Proof.
  intros H id' logs. rewrite appendLog_serverLogs.
  destruct (decide (id = id')) as [-> | Hne].
  - rewrite lookup_insert_eq. intros [= <-]. rewrite length_lastLines. lia.
  - rewrite lookup_insert_ne by done. apply H.
Qed.

Lemma keeps_appendLog st st1 id line :
  keeps st st1 -> keeps st (appendLog id line st1).
Proof.
  intros (H1 & H2 & H3 & H4). repeat split; try done.
  intros Hc. by apply capped_appendLog, H4.
Qed.

Lemma keeps_lifecycle st st1 now action id state :
  keeps st st1 -> keeps st (snd (lifecycle now action id state st1)).
Proof.
  intros H. unfold lifecycle. destruct action as [x |]; [| done].
  destruct (String.eqb x "start"), (String.eqb x "stop"), (String.eqb x "restart");
    cbn [snd]; repeat (apply keeps_appendLog || apply keeps_storeState); done.
Qed.

Lemma keeps_fileRoute st st1 action m req id out st2 :
  fileRoute action m req id st1 = Some (out, st2) -> keeps st st1 -> keeps st st2.
Proof.
  unfold fileRoute. intros H Hk.
  repeat case_match; simplify_eq; try done; by apply keeps_setFilesOf.
Qed.

Lemma keeps_serverRoute st st1 now req id action server :
  keeps st st1 -> keeps st (snd (serverRoute now req id action server st1)).
Proof.
  intros H. unfold serverRoute.
  pose proof (keeps_getServerState st st1 id H) as Hg.
  destruct (getServerState id st1) as [state st2]. cbn [snd] in Hg.
  repeat case_match; simplify_eq; cbn [snd]; try done.
  - by repeat apply keeps_appendLog.
  - match goal with
    | E : fileRoute _ _ _ _ _ = Some ?p |- _ =>
        destruct p; eapply keeps_fileRoute; [exact E | exact Hg]
    end.
  - match goal with
    | E : lifecycle _ _ _ _ _ = _ |- _ =>
        pose proof (keeps_lifecycle st st2 now action id state Hg) as Hl;
        rewrite E in Hl
    end.
    done.
Qed.

(** Seeding. *)

Lemma seedStates_flag st : statesSeeded (seedStates st) = true.
Proof. unfold seedStates. by destruct (statesSeeded st) eqn:E. Qed.

Lemma seedLogs_flags st :
  statesSeeded (seedLogs st) = statesSeeded st /\ logsSeeded (seedLogs st) = true.
Proof. unfold seedLogs. by destruct (logsSeeded st) eqn:E. Qed.

Lemma seedFiles_flags st :
  statesSeeded (seedFiles st) = statesSeeded st
  /\ logsSeeded (seedFiles st) = logsSeeded st.
Proof. unfold seedFiles. by destruct (negb _). Qed.

Lemma seedAll_is_seeded st : seeded (seedAll st).
Proof.
  unfold seedAll. repeat split.
  - rewrite (proj1 (seedFiles_flags _)), (proj1 (seedLogs_flags _)).
    apply seedStates_flag.
  - rewrite (proj2 (seedFiles_flags _)). apply seedLogs_flags.
  - unfold seedFiles.
    destruct (Nat.eqb_spec (size (serverFiles (seedLogs (seedStates st)))) 0) as [E | E];
      cbn [negb].
    + simpl. apply insert_non_empty.
    + intros H. apply E. rewrite H. apply map_size_empty.
Qed.

Lemma capped_fold_insert (entries : list (string * list string))
    (m : gmap string (list string)) :
  (forall id logs, m !! id = Some logs -> (length logs <= 200)%nat) ->
  Forall (fun entry => (length (snd entry) <= 200)%nat) entries ->
  forall id logs,
    fold_left (fun m '(id, logs) => <[id := logs]> m) entries m !! id = Some logs ->
    (length logs <= 200)%nat.
Proof.
  revert m. induction entries as [| [k v] entries IH]; intros m Hm Hall; [done |].
  apply Forall_cons in Hall as [Hv Hall]. simpl.
  apply IH; [| done].
  intros id logs. destruct (decide (k = id)) as [-> | Hne].
  - rewrite lookup_insert_eq. by intros [= <-].
  - rewrite lookup_insert_ne by done. apply Hm.
Qed.

Lemma capped_seedAll st : capped st -> capped (seedAll st).
Proof.
  intros H id logs. unfold seedAll. rewrite seedFiles_logs.
  unfold seedLogs. destruct (logsSeeded (seedStates st)).
  { rewrite seedStates_logs. apply H. }
  cbn [serverLogs]. rewrite seedStates_logs.
  apply capped_fold_insert; [exact H |].
  repeat constructor; simpl; lia.
Qed.

(** Every call leaves a seeded store seeded and a capped store capped. *)
Lemma interceptor_preserves now req st :
  (seeded st -> seeded (snd (mockApiInterceptor now req st)))
  /\ (capped st -> capped (snd (mockApiInterceptor now req st)))
  /\ (snd (mockApiInterceptor now req st) = st
      \/ seeded (snd (mockApiInterceptor now req st))).
Proof.
  unfold mockApiInterceptor.
  destruct (startsWith "/api/" (url req)); cbn [negb]; [| by auto].
  pose proof (seedAll_is_seeded st) as Hs.
  pose proof (capped_seedAll st) as Hc.
  assert (forall st', keeps (seedAll st) st' ->
            (seeded st -> seeded st') /\ (capped st -> capped st')
            /\ (st' = st \/ seeded st')) as Hk.
  { intros st' (H1 & H2 & H3 & H4).
    assert (seeded st').
    { destruct Hs as (S1 & S2 & S3). repeat split; [congruence | congruence | auto]. }
    auto. }
  repeat case_match; cbn [snd]; try (apply Hk, keeps_refl).
  match goal with
  | |- context [serverRoute ?a ?b ?c ?d ?e ?f] =>
      apply Hk, (keeps_serverRoute _ _ a b c d e), keeps_refl
  end.
Qed.

Lemma reachable_capped st : reachable st -> capped st.
Proof.
  induction 1 as [| now req st _ IH].
  - intros id logs H. cbn in H. by rewrite lookup_empty in H.
  - by apply interceptor_preserves.
Qed.

(** A reachable store is the initial one until the first call under
    [/api/], and seeded from then on. *)
Lemma reachable_seeded st : reachable st -> st = initial \/ seeded st.
Proof.
  induction 1 as [| now req st _ IH]; [by left |].
  destruct (interceptor_preserves now req st) as (Hs & _ & [-> | H]); [| by right].
  destruct IH as [-> | IH]; [by left | by right].
Qed.

End Invariants.

(** ** Requests for a server that is not registered *)

Module UnknownServer.
Import Js Mock Vocabulary SliceFacts StoreFacts RouteFacts Invariants.

(** Every call under [/api/] seeds the stores before it routes: on the
    first one, whatever it asks for, the empty stores receive the data of
    [mock-data.ts]. *)
Lemma first_call_seeds_stores :
  fst (mockApiInterceptor "2026-02-08T08:00:00.000Z"
         (request "GET" "/api/servers/ghost/status") initial)
  = Respond 404 (BError "Server not found.")
  /\ snd (mockApiInterceptor "2026-02-08T08:00:00.000Z"
            (request "GET" "/api/servers/ghost/status") initial)
     = seedAll initial
  /\ snd (mockApiInterceptor "2026-02-08T08:00:00.000Z"
            (request "GET" "/api/health") initial)
     = seedAll initial
  /\ seedAll initial <> initial.
Proof.
  repeat split; try (vm_compute; reflexivity).
  intros H. apply (f_equal statesSeeded) in H. vm_compute in H. discriminate H.
Qed.

(** C6. Every request on a per-server path whose id is not registered
    is answered 404 with [{error: 'Server not found.'}], and the branch
    writes nothing: the store it leaves is the store the call started
    from once seeded, as every call under [/api/] starts by seeding. So a
    seeded store is left exactly as it was, and from every reachable
    store, the initial one included, each server state, log buffer and
    file list that exists before the call is the same after it. *)
Theorem unknown_server_answers_404 now req st id action :
  matchRoute (pathname req) = Some (id, action) ->
  findServer id = None ->
  fst (mockApiInterceptor now req st) = Respond 404 (BError "Server not found.")
  /\ snd (mockApiInterceptor now req st) = seedAll st
  /\ (seeded st -> snd (mockApiInterceptor now req st) = st)
  /\ (reachable st ->
      (st <> initial -> snd (mockApiInterceptor now req st) = st)
      /\ forall k,
           (forall state, serverStates st !! k = Some state ->
              serverStates (snd (mockApiInterceptor now req st)) !! k = Some state)
           /\ (forall logs, serverLogs st !! k = Some logs ->
                 serverLogs (snd (mockApiInterceptor now req st)) !! k = Some logs)
           /\ (forall files, serverFiles st !! k = Some files ->
                 serverFiles (snd (mockApiInterceptor now req st)) !! k = Some files)).
Proof.
  intros Hroute Hfind.
  rewrite (interceptor_route _ _ _ _ _ Hroute), Hfind. cbn [fst snd].
  split; [done |]. split; [done |].
  assert (seeded st -> seedAll st = st) as Hs.
  { intros (H1 & H2 & H3). by apply seedAll_seeded. }
  split; [done |].
  intros Hr. destruct (reachable_seeded st Hr) as [-> | Hseeded].
  - split; [done |]. intros k. cbn [serverStates serverLogs serverFiles initial].
    repeat split; intros x H; by rewrite lookup_empty in H.
  - rewrite (Hs Hseeded). split; [done |]. by intros k.
Qed.

Lemma unknown_server_answers_404_witness :
  fst (mockApiInterceptor "2026-02-08T08:00:00.000Z"
         (request "POST" "/api/servers/ghost/start") (seedAll initial))
  = Respond 404 (BError "Server not found.")
  /\ snd (mockApiInterceptor "2026-02-08T08:00:00.000Z"
            (request "POST" "/api/servers/ghost/start") (seedAll initial))
     = seedAll initial.
Proof.
  pose proof (unknown_server_answers_404 "2026-02-08T08:00:00.000Z"
                (request "POST" "/api/servers/ghost/start") (seedAll initial)
                "ghost" (Some "start") eq_refl eq_refl) as (H1 & _ & H3 & _).
  split; [exact H1 |].
  apply H3, seedAll_is_seeded.
Defined.

End UnknownServer.

(** ** Stats without remote-console credentials *)

Module StatsGuard.
Import Js Backend BackendVocabulary.

(** [password] is [None] exactly when the server has no [rcon] entry, or
    one without password, or one whose password is empty. *)
Lemma password_None server :
  password server = None
  <-> rcon server = None
      \/ exists r, rcon server = Some r
                   /\ (rcon_password r = None \/ rcon_password r = Some EmptyString).
Proof.
  unfold password. destruct (rcon server) as [r |]; [| by intuition].
  split.
  - intros H. right. exists r. split; [done |].
    destruct (rcon_password r) as [[| c s] |]; [by right | done | by left].
  - intros [H | (r' & [= <-] & [-> | ->])]; done.
Qed.

(** C5. On a loaded registry, the stats route of a registered server
    that has no remote-console password answers 400 with
    [{error: 'RCON not configured.'}] instead of a snapshot, before it
    connects anywhere, and leaves the whole store, the lifecycle state of
    the server included, as it was. *)
Theorem stats_without_password_is_not_configured env id st server :
  serversLoaded st = true ->
  getServerById id st = Some server ->
  password server = None ->
  statsRoute env id st = ({| code := 400; body := BError "RCON not configured." |}, st).
Proof.
  intros Hloaded Hfind Hpw. unfold statsRoute.
  by rewrite Hloaded, Hfind, Hpw.
Qed.

Lemma stats_without_password_is_not_configured_witness :
  statsRoute quietEnvironment "lobby" loadedStore
  = ({| code := 400; body := BError "RCON not configured." |}, loadedStore).
Proof.
  apply (stats_without_password_is_not_configured quietEnvironment "lobby" loadedStore
           plainServer).
  - reflexivity.
  - reflexivity.
  - reflexivity.
Defined.

(** The two earlier exits of the route leave the store alone as well. *)
Lemma stats_of_unknown_server env id st :
  serversLoaded st = true ->
  getServerById id st = None ->
  statsRoute env id st = ({| code := 404; body := BError "Server not found." |}, st).
Proof. intros Hloaded Hfind. unfold statsRoute. by rewrite Hloaded, Hfind. Qed.

Lemma stats_before_registry_loaded env id st :
  serversLoaded st = false ->
  statsRoute env id st = ({| code := 500; body := BError "No servers configured." |}, st).
Proof. intros Hloaded. unfold statsRoute. by rewrite Hloaded. Qed.

(** With a password the route goes on to the console: a reachable one
    gives the snapshot and sets the server online. *)
Example stats_with_password :
  code (fst (statsRoute quietEnvironment "arena" loadedStore)) = 200
  /\ serverStates (snd (statsRoute quietEnvironment "arena" loadedStore)) !! "arena"
     = Some {| status := online; lastAction := None; lastActionAt := None |}.
Proof. split; vm_compute; reflexivity. Qed.

End StatsGuard.

Module MockStats.
Import Js Mock Vocabulary StoreFacts RouteFacts.

(** The interceptor, which stands in for the backend when the client is
    built with mocks, knows no remote console: its stats route answers
    every registered server with a fixed snapshot carrying the current
    status, and changes no state or buffer. *)
Lemma mock_stats_is_a_fixed_snapshot now req st id server :
  findServer id = Some server ->
  matchRoute (pathname req) = Some (id, Some "stats") ->
  method req = "GET" ->
  mockApiInterceptor now req st
  = (Respond 200 (cannedStats (status (fst (getServerState id (seedAll st)))) now),
     snd (getServerState id (seedAll st))).
Proof.
  intros Hfind Hroute Hm.
  rewrite (interceptor_route _ _ _ _ _ Hroute), Hfind.
  unfold serverRoute. destruct (getServerState id (seedAll st)) as [state st'].
  rewrite Hm. by cbn.
Qed.

End MockStats.

(** ** The console client *)

Module ConsoleFacts.
Import Js Client ClientVocabulary SliceFacts.

Lemma length_string_of_list_ascii l :
  String.length (string_of_list_ascii l) = length l.
Proof. induction l as [| c l IH]; simpl; [done | by rewrite IH]. Qed.

Lemma lastLines_fmap {A B} (f : A -> B) n (l : list A) :
  lastLines n (f <$> l) = f <$> lastLines n l.
Proof. unfold lastLines. by rewrite fmap_drop, length_fmap. Qed.

Lemma slice_maxDisplay {A} (l : list A) :
  slice (neg (num maxDisplay)) l = lastLines 5000 l.
Proof. unfold maxDisplay. by rewrite slice_neg_num. Qed.

Lemma sliceLogs_size x p : sliceLogs x = Some p -> (size p <= 5000)%nat.
Proof.
  unfold sliceLogs. destruct x as [[| | | s | items |] |]; try done; intros [= <-]; simpl.
  - unfold sliceString. rewrite length_string_of_list_ascii, slice_maxDisplay, length_lastLines.
    lia.
  - rewrite slice_maxDisplay, length_lastLines. lia.
Qed.

(** C7. A live-channel message that does not parse as JSON, or that
    parses to a value whose [type] is neither ['logs'] nor ['log'], is
    dropped: the handler returns normally, the service and its published
    logs are what they were, and nothing is sent or requested. *)
Theorem unrecognised_message_is_dropped event c :
  unrecognised event ->
  onMessage event c = Done c []
  /\ forall env, logs (after env (Message event) c) = logs c.
Proof.
  intros H.
  assert (onMessage event c = Done c []) as E.
  { destruct event as [data | message]; [done |].
    destruct H as [H1 H2]. unfold onMessage. rewrite H1, H2.
    by destruct (falsy message). }
  split; [done |].
  intros env. unfold after. simpl. by rewrite E.
Qed.

Lemma unrecognised_message_is_dropped_witness :
  onMessage (Parsed (JObject [("kind", JString "logs"); ("logs", JNull)])) created
  = Done created [].
Proof.
  refine (proj1 (unrecognised_message_is_dropped
                   (Parsed (JObject [("kind", JString "logs"); ("logs", JNull)]))
                   created _)).
  split; reflexivity.
Defined.

Example unparsable_message : onMessage (Unparsable "{oops") created = Done created [].
Proof. reflexivity. Qed.

Example null_message : onMessage (Parsed JNull) created = Done created [].
Proof. reflexivity. Qed.

(** A message of type ['logs'] without a [logs] array does raise. *)
Example snapshot_without_logs :
  onMessage (Parsed (JObject [("type", JString "logs")])) created = Throw.
Proof. reflexivity. Qed.

(** Every step keeps the published logs within [maxDisplay]. *)
Lemma step_bounded env e c :
  (size (logs c) <= 5000)%nat -> (size (logs (after env e c)) <= 5000)%nat.
Proof.
  intros H. unfold after, step.
  destruct e as [id n | n | command | | | | event | id | r | succeeded].
  - unfold connect, disconnect, startPolling, openSocket. cbn [socket].
    destruct (String.eqb id EmptyString); [simpl; lia |].
    destruct (useMocks env); [simpl; lia |].
    destruct (socket c) as [[] |]; simpl; lia.
  - unfold setLimit. cbn [serverId].
    destruct (String.eqb (serverId c) EmptyString); [done |].
    by destruct (useMocks env).
  - unfold sendCommand.
    destruct (_ || _)%bool; [done |]. by destruct (useMocks env).
  - done.
  - by destruct (socket c).
  - by destruct (socket c).
  - unfold onMessage. destruct event as [data | message]; [done |].
    destruct (falsy message); [done |].
    destruct (strictEq (property "type" message) "logs").
    { destruct (sliceLogs (property "logs" message)) as [p |] eqn:E; [| done].
      simpl. by apply sliceLogs_size in E. }
    destruct (strictEq (property "type" message) "log"); [| done].
    simpl. rewrite slice_maxDisplay, length_lastLines. lia.
  - destruct (pollingId c) as [current |]; [| done]. by destruct (Nat.eqb id current).
  - unfold onLogs. destruct r as [response |]; [| simpl; lia].
    assert (forall x, (size (logs match sliceLogs x with
                                  | Some p => publish p c
                                  | None => c
                                  end) <= 5000)%nat) as Hx.
    { intros x. destruct (sliceLogs x) as [p |] eqn:E; [| done].
      simpl. by apply sliceLogs_size in E. }
    destruct response; try done;
      match goal with
      | |- context [sliceLogs ?x] => specialize (Hx x); by destruct (sliceLogs x)
      end.
  - done.
Qed.

(** The two truncations of [onMessage] and the one of [fetchLogs], as
    they are written. *)
Lemma snapshot_publishes_last_5000 (tail : list string) c :
  onMessage (snapshotMessage tail) c = Done (publish (lines (lastLines 5000 tail)) c) [].
Proof.
  unfold onMessage, snapshotMessage. cbn. rewrite slice_maxDisplay. unfold lines.
  by rewrite <- list_fmap_compose, lastLines_fmap.
Qed.

Lemma line_publishes_last_5000 (previous : list string) (line : string) c :
  onMessage (lineMessage line) (publish (lines previous) c)
  = Done (publish (lines (lastLines 5000 (previous ++ [line]))) c) [].
Proof.
  unfold onMessage, lineMessage. cbn. rewrite slice_maxDisplay. unfold lines, publish. cbn.
  by rewrite <- lastLines_fmap, fmap_app.
Qed.

Lemma logs_response_publishes (tail : list string) c :
  onLogs (PollBody (logsBody tail)) c = Done (publish (lines (lastLines 5000 tail)) c) [].
Proof.
  unfold onLogs, logsBody. cbn. rewrite slice_maxDisplay. unfold lines.
  by rewrite <- list_fmap_compose, lastLines_fmap.
Qed.

(** C9. Whatever the service is asked and whatever snapshot messages,
    line messages and poll responses reach it, well formed or not, the
    logs it publishes never number more than 5000; a snapshot publishes
    the last 5000 lines it carries, a line message the last 5000 of the
    published lines followed by the new one, and a poll response the last
    5000 lines of its tail. *)
Theorem published_logs_never_exceed_5000 env events :
  (size (logs (run env events created)) <= 5000)%nat
  /\ (forall tail c,
        onMessage (snapshotMessage tail) c
        = Done (publish (lines (lastLines 5000 tail)) c) [])
  /\ (forall previous line c,
        onMessage (lineMessage line) (publish (lines previous) c)
        = Done (publish (lines (lastLines 5000 (previous ++ [line]))) c) [])
  /\ (forall tail c,
        onLogs (PollBody (logsBody tail)) c
        = Done (publish (lines (lastLines 5000 tail)) c) []).
Proof.
  split.
  { assert (forall c, (size (logs c) <= 5000)%nat ->
              (size (logs (run env events c)) <= 5000)%nat) as H.
    { induction events as [| e events IH]; intros c Hc; [done |].
      simpl. apply IH. by apply step_bounded. }
    apply H. simpl. lia. }
  split; [apply snapshot_publishes_last_5000 |].
  split; [apply line_publishes_last_5000 | apply logs_response_publishes].
Qed.

Example too_many_lines_arrive :
  size (logs (run {| useMocks := false; apiBaseUrl := EmptyString |}
                [Connect "nau-events" 200; SocketOpen;
                 Message (snapshotMessage (replicate 5000 "tick"));
                 Message (lineMessage "tock"); Message (lineMessage "tock")]
                created)) = 5000%nat.
Proof. vm_compute. reflexivity. Qed.

End ConsoleFacts.

(** ** Polling in place of the live channel *)

Module MockResponses.
Import Js Mock Vocabulary SliceFacts StoreFacts RouteFacts Invariants.

Lemma fileRoute_not_logs action m req id st code tail st' :
  fileRoute action m req id st <> Some (Respond code (BLogs tail), st').
Proof. unfold fileRoute. repeat case_match; done. Qed.

Lemma serverRoute_logs_tail now req id action server st code tail :
  fst (serverRoute now req id action server st) = Respond code (BLogs tail) ->
  exists start, tail = slice start (logsOf id st).
Proof.
  unfold serverRoute.
  pose proof (getServerState_logs id st) as Hg.
  destruct (getServerState id st) as [state st1]. cbn [snd] in Hg.
  repeat case_match; cbn [fst]; try done.
  - intros [= _ <-]. unfold logsOf. rewrite Hg. by eexists.
  - intros Hout. exfalso.
    match goal with
    | E : fileRoute _ _ _ _ _ = Some ?p |- _ =>
        destruct p as [out st2]; cbn [fst] in Hout; subst out;
        by apply fileRoute_not_logs in E
    end.
Qed.

(** No logs response of the interceptor carries more than 200 lines. *)
Lemma logs_response_bounded now req st code tail :
  reachable st ->
  fst (mockApiInterceptor now req st) = Respond code (BLogs tail) ->
  (length tail <= 200)%nat.
Proof.
  intros Hr%reachable_capped. unfold mockApiInterceptor.
  repeat case_match; cbn [fst]; try done.
  intros [start ->]%serverRoute_logs_tail.
  etrans; [apply length_slice |].
  unfold logsOf.
  match goal with
  | |- context [serverLogs (seedAll st) !! ?k] =>
      destruct (serverLogs (seedAll st) !! k) as [logs |] eqn:E; simpl; [| lia];
      by apply (capped_seedAll st Hr k)
  end.
Qed.

Lemma fileRoute_not_state action m req id st code server state st' :
  fileRoute action m req id st <> Some (Respond code (BServerState server state), st').
Proof. unfold fileRoute. repeat case_match; done. Qed.

Lemma findServer_id id server : findServer id = Some server -> server_id server = id.
Proof.
  unfold findServer. intros H. apply find_some in H as [_ H].
  by apply String.eqb_eq.
Qed.

(** A response that carries a server and its state carries the server
    the path names. *)
Lemma state_response_names_server now req st id action code server state :
  matchRoute (pathname req) = Some (id, action) ->
  fst (mockApiInterceptor now req st) = Respond code (BServerState server state) ->
  server_id server = id.
Proof.
  intros Hroute. rewrite (interceptor_route _ _ _ _ _ Hroute).
  destruct (findServer id) as [found |] eqn:Hfind; [| done].
  apply findServer_id in Hfind.
  unfold serverRoute. destruct (getServerState id (seedAll st)) as [state0 st1].
  repeat case_match; cbn [fst]; try done; try (by intros [= _ <- _]).
  intros Hout. exfalso.
  match goal with
  | E : fileRoute _ _ _ _ _ = Some ?p |- _ =>
      destruct p as [out st2]; cbn [fst] in Hout; subst out;
      by apply fileRoute_not_state in E
  end.
Qed.

End MockResponses.

Module Polling.
Import Js Client ClientVocabulary SliceFacts ConsoleFacts.

Lemma not_empty (s : string) : s <> EmptyString -> String.eqb s EmptyString = false.
Proof. intros H. by apply String.eqb_neq. Qed.

Example polled_url :
  logsUrl {| useMocks := true; apiBaseUrl := EmptyString |} "nau-events" 500
  = "/api/servers/nau-events/logs?limit=500".
Proof. vm_compute. reflexivity. Qed.

(** Without a selected server [setLimit] only stores the limit. *)
Example setLimit_without_server env n :
  setLimit env n created = (withLimit n created, []).
Proof. reflexivity. Qed.

(** A failed request empties the published logs. *)
Example failed_poll_publishes_nothing c :
  onLogs PollError c = Done (publish (PArray []) c) [].
Proof. reflexivity. Qed.

End Polling.

(** ** Refreshing the statuses *)

Module StatusRefresh.
Import Js Client ClientVocabulary.

Lemma collect_absent results m k :
  Forall (fun r => server_id (server r) <> k) results ->
  collect results m !! k = m !! k.
Proof.
  revert m. induction results as [| r results IH]; intros m H; [done |].
  apply Forall_cons in H as [Hr H]. simpl.
  rewrite IH by done. by rewrite lookup_insert_ne.
Qed.

(** The entry of [k] is the state of any result for [k], when all
    results for [k] agree. *)
Lemma collect_present results m k v :
  Exists (fun r => server_id (server r) = k) results ->
  Forall (fun r => server_id (server r) = k -> state r = v) results ->
  collect results m !! k = Some v.
Proof.
  revert m. induction results as [| r results IH]; intros m Hex Hall.
  { by apply Exists_nil in Hex. }
  apply Forall_cons in Hall as [Hr Hall]. simpl.
  destruct (decide (Exists (fun r => server_id (server r) = k) results)) as [H | H].
  { by apply IH. }
  apply not_Exists_Forall in H; [| intros x; apply _].
  rewrite collect_absent by (eapply Forall_impl; [exact H | done]).
  apply Exists_cons in Hex as [Hk | Hex]; [| by apply Forall_Exists_neg in H].
  subst k. rewrite lookup_insert_eq. by rewrite Hr.
Qed.

Lemma collect_dom results m :
  dom (collect results m)
  = dom m ∪ list_to_set ((fun r => server_id (server r)) <$> results).
Proof.
  revert m. induction results as [| r results IH]; intros m; simpl.
  - by rewrite union_empty_r_L.
  - rewrite IH, dom_insert_L.
    rewrite (union_comm_L {[server_id (server r)]} (dom m)).
    by rewrite union_assoc_L.
Qed.

(** C10. For a list of servers that is not empty, when every status
    response names the server it was asked about, the published map has
    an entry for each id of the list and for nothing else, and the entry
    of each server is the state of its own response, or the offline
    fallback [{status: 'offline', lastAction: null, lastActionAt: null}]
    when its own request failed: a failure changes no other entry and
    does not stop the refresh. *)
Theorem refresh_replaces_failures_only http servers :
  servers <> [] ->
  (forall s response, s ∈ servers -> http (statusUrl s) = Succeeded response ->
     server_id (server response) = server_id s) ->
  dom (refreshStatuses http servers) = list_to_set (server_id <$> servers)
  /\ (forall s, s ∈ servers ->
        refreshStatuses http servers !! server_id s = Some (statusFor http s))
  /\ (forall s, s ∈ servers -> http (statusUrl s) = Failed ->
        refreshStatuses http servers !! server_id s = Some offlineState)
  /\ (forall s response, s ∈ servers -> http (statusUrl s) = Succeeded response ->
        refreshStatuses http servers !! server_id s = Some (state response)).
Proof.
  intros Hne Hecho.
  set (answer := fun s => match http (statusUrl s) with
                          | Succeeded response => response
                          | Failed => {| server := s; state := offlineState |}
                          end).
  assert (refreshStatuses http servers = collect (answer <$> servers) ∅) as ->.
  { unfold refreshStatuses. by destruct servers. }
  assert (Hid : forall s, s ∈ servers -> server_id (server (answer s)) = server_id s).
  { intros s Hs. unfold answer. destruct (http (statusUrl s)) eqn:E; [| done].
    by apply Hecho. }
  assert (Hstate : forall s, state (answer s) = statusFor http s).
  { intros s. unfold answer, statusFor. by destruct (http (statusUrl s)). }
  assert (Hlookup : forall s, s ∈ servers ->
            collect (answer <$> servers) ∅ !! server_id s = Some (statusFor http s)).
  { intros s Hs. apply collect_present.
    - apply Exists_exists. exists (answer s). split; [| by apply Hid].
      by apply list_elem_of_fmap_2.
    - apply Forall_forall. intros r [s' [-> Hs']]%list_elem_of_fmap.
      rewrite (Hid s' Hs'), !Hstate. intros Heq.
      unfold statusFor, statusUrl. by rewrite Heq. }
  split.
  { rewrite collect_dom, dom_empty_L, union_empty_l_L. f_equal.
    rewrite <- list_fmap_compose. apply Forall_fmap_ext_1.
    apply Forall_forall. intros s Hs. by apply Hid. }
  split; [done |].
  split.
  - intros s Hs Hf. rewrite (Hlookup s Hs). unfold statusFor. by rewrite Hf.
  - intros s response Hs Hok. rewrite (Hlookup s Hs). unfold statusFor. by rewrite Hok.
Qed.

Lemma refresh_replaces_failures_only_witness :
  refreshStatuses downFor [survival; creative] !! "nau-survival" = Some offlineState
  /\ refreshStatuses downFor [survival; creative] !! "nau-creative"
     = Some {| status := online; lastAction := Some start;
               lastActionAt := Some "2026-02-08T07:40:00.000Z" |}.
Proof.
  assert (forall s response, s ∈ [survival; creative] ->
            downFor (statusUrl s) = Succeeded response ->
            server_id (server response) = server_id s) as Hecho.
  { intros s response Hs H. apply list_elem_of_In in Hs. simpl in Hs.
    destruct Hs as [<- | [<- | []]]; vm_compute in H.
    - discriminate H.
    - injection H as <-. reflexivity. }
  assert ([survival; creative] <> []) as Hne by discriminate.
  pose proof (refresh_replaces_failures_only downFor [survival; creative] Hne Hecho)
    as (_ & Hall & _).
  split.
  - apply (Hall survival). apply list_elem_of_In. simpl. auto.
  - apply (Hall creative). apply list_elem_of_In. simpl. auto.
Defined.

End StatusRefresh.

Module PathFacts.
Import Js Mock PathVocabulary.

#[local] Arguments String.append !_ _ / : simpl nomatch.

Lemma dropLeadingSlashes_cons c r :
  dropLeadingSlashes (String c r)
  = if Ascii.eqb c "/" then dropLeadingSlashes r else String c r.
Proof. by destruct c as [[] [] [] [] [] [] [] []]. Qed.

Lemma dropLeadingSlashes_first s : firstChar (dropLeadingSlashes s) <> Some "/"%char.
Proof.
  induction s as [| c r IH]; [done |].
  rewrite dropLeadingSlashes_cons.
  destruct (Ascii.eqb_spec c "/") as [-> | Hc]; [done |].
  simpl. congruence.
Qed.

Lemma dropLeadingSlashes_id s :
  firstChar s <> Some "/"%char -> dropLeadingSlashes s = s.
Proof.
  destruct s as [| c r]; [done |]. rewrite dropLeadingSlashes_cons. simpl.
  destruct (Ascii.eqb_spec c "/") as [-> | Hc]; done.
Qed.

Lemma dropTrailingSlashes_cons c r :
  dropTrailingSlashes (String c r)
  = match dropTrailingSlashes r with
    | EmptyString => if Ascii.eqb c "/" then EmptyString else String c EmptyString
    | r' => String c r'
    end.
Proof. reflexivity. Qed.

Lemma lastChar_cons c r : r <> EmptyString -> lastChar (String c r) = lastChar r.
Proof. by destruct r. Qed.

Lemma dropTrailingSlashes_last s : lastChar (dropTrailingSlashes s) <> Some "/"%char.
Proof.
  induction s as [| c r IH]; [done |].
  rewrite dropTrailingSlashes_cons.
  destruct (dropTrailingSlashes r) as [| d t] eqn:E.
  - destruct (Ascii.eqb_spec c "/") as [-> | Hc]; simpl; congruence.
  - by rewrite lastChar_cons.
Qed.

Lemma dropTrailingSlashes_id s :
  lastChar s <> Some "/"%char -> dropTrailingSlashes s = s.
Proof.
  induction s as [| c r IH]; [done |].
  rewrite dropTrailingSlashes_cons. intros H.
  destruct r as [| d t].
  - simpl in *. destruct (Ascii.eqb_spec c "/") as [-> | Hc]; done.
  - rewrite lastChar_cons in H by done. by rewrite (IH H).
Qed.

Lemma dropTrailingSlashes_first s :
  firstChar s <> Some "/"%char -> firstChar (dropTrailingSlashes s) <> Some "/"%char.
Proof.
  destruct s as [| c r]; [done |]. rewrite dropTrailingSlashes_cons. simpl. intros H.
  destruct (dropTrailingSlashes r); [by destruct (Ascii.eqb c "/") |]. done.
Qed.

Lemma normalizePath_first value : firstChar (normalizePath value) <> Some "/"%char.
Proof. apply dropTrailingSlashes_first, dropLeadingSlashes_first. Qed.

Lemma normalizePath_last value : lastChar (normalizePath value) <> Some "/"%char.
Proof. apply dropTrailingSlashes_last. Qed.

Lemma normalizePath_fixed value :
  firstChar value <> Some "/"%char -> lastChar value <> Some "/"%char ->
  normalizePath value = value.
Proof.
  intros H1 H2. unfold normalizePath.
  by rewrite (dropLeadingSlashes_id value H1), (dropTrailingSlashes_id value H2).
Qed.

Lemma normalizePath_idem v : normalizePath (normalizePath v) = normalizePath v.
Proof. apply normalizePath_fixed; [apply normalizePath_first | apply normalizePath_last]. Qed.

(** X1. [normalizePath] yields a path that neither starts nor ends with
    a slash, and leaves such a path alone: it is idempotent. *)
Theorem normalizePath_is_a_normal_form value :
  firstChar (normalizePath value) <> Some "/"%char
  /\ lastChar (normalizePath value) <> Some "/"%char
  /\ normalizePath (normalizePath value) = normalizePath value
  /\ (firstChar value <> Some "/"%char -> lastChar value <> Some "/"%char ->
      normalizePath value = value).
Proof.
  split; [apply normalizePath_first |].
  split; [apply normalizePath_last |].
  split; [| apply normalizePath_fixed].
  apply normalizePath_fixed.
  - apply dropTrailingSlashes_first, dropLeadingSlashes_first.
  - apply dropTrailingSlashes_last.
Qed.

(** [split] and [join]. *)

Lemma split_nonempty sep s : split sep s <> [].
Proof.
  destruct s as [| c r]; [done |]. simpl.
  destruct (Ascii.eqb c sep); [done |]. by destruct (split sep r).
Qed.

Lemma join_cons sep x y l : join sep (x :: y :: l) = x +:+ sep +:+ join sep (y :: l).
Proof. reflexivity. Qed.

Lemma append_assoc (a b c : string) : (a +:+ b) +:+ c = a +:+ (b +:+ c).
Proof. induction a as [| x a IH]; simpl; congruence. Qed.

Lemma append_empty_r (a : string) : a +:+ EmptyString = a.
Proof. induction a as [| x a IH]; simpl; congruence. Qed.

Lemma join_split sep s : join (String sep EmptyString) (split sep s) = s.
Proof.
  induction s as [| c r IH]; [done |]. simpl.
  destruct (Ascii.eqb_spec c sep) as [-> | Hc].
  - pose proof (split_nonempty sep r) as Hne.
    destruct (split sep r) as [| p ps]; [done |].
    by rewrite join_cons, IH.
  - pose proof (split_nonempty sep r) as Hne.
    destruct (split sep r) as [| p ps]; [done |].
    rewrite <- IH. destruct ps as [| q qs]; [done |].
    by rewrite !join_cons.
Qed.

(** The parts of a split hold no separator. *)
Lemma split_parts sep s : Forall (fun p => occurs sep p = false) (split sep s).
Proof.
  induction s as [| c r IH]; [by repeat constructor |]. simpl.
  destruct (Ascii.eqb_spec c sep) as [-> | Hc].
  - by constructor.
  - destruct (split sep r) as [| p ps]; simpl.
    + repeat constructor. simpl. by destruct (Ascii.eqb_spec c sep).
    + apply Forall_cons in IH as [Hp Hps]. constructor; [| done].
      simpl. rewrite Hp. by destruct (Ascii.eqb_spec c sep).
Qed.

Lemma split_single sep s : occurs sep s = false -> split sep s = [s].
Proof.
  induction s as [| c r IH]; [done |]. simpl.
  destruct (Ascii.eqb_spec c sep) as [-> | Hc]; [done |]. simpl.
  intros H. by rewrite (IH H).
Qed.

Lemma split_several sep s :
  occurs sep s = true -> (2 <= length (split sep s))%nat.
Proof.
  induction s as [| c r IH]; [done |]. simpl.
  destruct (Ascii.eqb_spec c sep) as [-> | Hc]; simpl.
  - intros _. pose proof (split_nonempty sep r). destruct (split sep r); [done | simpl; lia].
  - intros H. specialize (IH H). destruct (split sep r) as [| p ps]; simpl in *; lia.
Qed.

Lemma join_removelast sep (l : list string) :
  (2 <= length l)%nat ->
  join sep l = join sep (removelast l) +:+ sep +:+ List.last l EmptyString.
Proof.
  induction l as [| x l IH]; [simpl; lia |].
  destruct l as [| y l]; [simpl; lia |]. intros _.
  destruct l as [| z l]; [done |].
  rewrite join_cons, IH by (simpl; lia).
  change (removelast (x :: y :: z :: l)) with (x :: removelast (y :: z :: l)).
  change (List.last (x :: y :: z :: l) EmptyString) with (List.last (y :: z :: l) EmptyString).
  destruct (removelast (y :: z :: l)) as [| a b] eqn:E; [done |].
  by rewrite join_cons, !append_assoc.
Qed.

Lemma last_Forall {A} (P : A -> Prop) (l : list A) d :
  l <> [] -> Forall P l -> P (List.last l d).
Proof.
  induction l as [| x l IH]; [done |]. intros _ H.
  apply Forall_cons in H as [Hx Hl].
  destruct l as [| y l]; [done |]. by apply IH.
Qed.

Lemma getName_no_slash value : occurs "/" (getName value) = false.
Proof.
  unfold getName.
  apply (last_Forall (fun p => occurs "/" p = false)); [apply split_nonempty | apply split_parts].
Qed.

Lemma path_without_slash value :
  occurs "/" (normalizePath value) = false ->
  getParentPath value = EmptyString /\ getName value = normalizePath value.
Proof. intros H. unfold getParentPath, getName. by rewrite (split_single _ _ H). Qed.

Lemma path_with_slash value :
  occurs "/" (normalizePath value) = true ->
  normalizePath value = getParentPath value +:+ "/" +:+ getName value.
Proof.
  intros H. unfold getParentPath, getName.
  rewrite <- (join_split "/" (normalizePath value)) at 1.
  apply join_removelast. by apply split_several.
Qed.

(** X2. [getParentPath] and [getName] cut the normalised path at its
    last slash: the name holds no slash; a path without slash is its own
    name and has the empty parent; any other path is the parent, a slash
    and the name. *)
Theorem parent_and_name_rebuild_the_path value :
  occurs "/" (getName value) = false
  /\ (occurs "/" (normalizePath value) = false ->
      getParentPath value = EmptyString /\ getName value = normalizePath value)
  /\ (occurs "/" (normalizePath value) = true ->
      normalizePath value = getParentPath value +:+ "/" +:+ getName value).
Proof.
  split; [apply getName_no_slash |].
  split; [apply path_without_slash | apply path_with_slash].
Qed.

End PathFacts.

Module FileRoutes.
Import Js Mock Vocabulary PathVocabulary FileVocabulary StoreFacts RouteFacts Invariants PathFacts.

#[local] Arguments String.append !_ _ / : simpl nomatch.

(** A request that one of the file routes takes is answered by it. *)
Lemma serverRoute_file now req id act server st result :
  fileRoute act (method req) req id (snd (getServerState id st)) = Some result ->
  serverRoute now req id (Some act) server st = result.
Proof.
  intros H. unfold serverRoute. destruct (getServerState id st) as [state st1].
  cbn [snd] in *. change (default EmptyString (Some act)) with act.
  assert (String.eqb act EmptyString = false /\ String.eqb act "status" = false
          /\ String.eqb act "logs" = false /\ String.eqb act "command" = false
          /\ String.eqb act "stats" = false) as (H1 & H2 & H3 & H4 & H5).
  { unfold fileRoute in H.
    repeat match type of H with
           | (if (String.eqb act ?a && _)%bool then _ else _) = _ =>
               destruct (String.eqb_spec act a) as [-> | _]; [by repeat split |];
               cbn [andb] in H
           end.
    done. }
  by rewrite H1, H2, H3, H4, H5, H.
Qed.

Lemma interceptor_file now req st id act server result :
  findServer id = Some server ->
  matchRoute (pathname req) = Some (id, Some act) ->
  fileRoute act (method req) req id (snd (getServerState id (seedAll st))) = Some result ->
  mockApiInterceptor now req st = result.
Proof.
  intros Hfind Hroute H.
  rewrite (interceptor_route _ _ _ _ _ Hroute), Hfind.
  by apply serverRoute_file.
Qed.

Lemma filesOf_getServerState id st :
  filesOf id (snd (getServerState id st)) = filesOf id st.
Proof. unfold filesOf. by rewrite getServerState_files. Qed.

Lemma filesOf_setFilesOf id files st : filesOf id (setFilesOf id files st) = files.
Proof. unfold filesOf. simpl. by rewrite lookup_insert_eq. Qed.

Lemma seeded_setFilesOf id files st : seeded st -> seeded (setFilesOf id files st).
Proof. intros (H1 & H2 & H3). repeat split; try done. simpl. apply insert_non_empty. Qed.

Lemma seeded_getServerState id st : seeded st -> seeded (snd (getServerState id st)).
Proof.
  intros (H1 & H2 & H3). unfold getServerState. by destruct (serverStates st !! id).
Qed.

Lemma seedAll_fixed st : seeded st -> seedAll st = st.
Proof. intros (H1 & H2 & H3). by apply seedAll_seeded. Qed.

(** The files of [id] that the handlers of a call see. *)
Lemma handler_files id st :
  filesOf id (snd (getServerState id (seedAll st))) = filesOf id (seedAll st).
Proof. apply filesOf_getServerState. Qed.

(** The store a write to the files of [id] leaves, as the next call sees it. *)
Lemma next_call_files id files st :
  filesOf id (seedAll (setFilesOf id files (snd (getServerState id (seedAll st))))) = files.
Proof.
  rewrite seedAll_fixed.
  - apply filesOf_setFilesOf.
  - apply seeded_setFilesOf, seeded_getServerState, seedAll_is_seeded.
Qed.


(** What each writing route stores and answers. *)

Lemma fileRoute_save req id st :
  method req = "POST" ->
  fileRoute "files/content" (method req) req id st
  = Some (ok BOk,
          setFilesOf id
            (savedFiles (bodyPath "path" req) (default EmptyString (bodyField "content" req))
               (filesOf id st)) st).
Proof. intros ->. reflexivity. Qed.

Lemma fileRoute_read req id st :
  method req = "GET" ->
  fileRoute "files/content" (method req) req id st
  = Some (match List.find (fileAt (queryPath req)) (filesOf id st) with
          | None => Respond 404 (BError "File not found.")
          | Some entry => ok (BContent (default EmptyString (entry_content entry)))
          end, st).
Proof.
  intros ->. cbn. unfold queryPath, fileAt, atPath.
  by destruct (List.find _ (filesOf id st)).
Qed.

Lemma fileRoute_download req id st :
  method req = "GET" ->
  fileRoute "files/download" (method req) req id st
  = Some (match List.find (fileAt (queryPath req)) (filesOf id st) with
          | None => Respond 404 (BError "File not found.")
          | Some entry => ok (BBlob (default EmptyString (entry_content entry)))
          end, st).
Proof.
  intros ->. cbn. unfold queryPath, fileAt, atPath.
  by destruct (List.find _ (filesOf id st)).
Qed.

Lemma fileRoute_dir req id st :
  method req = "POST" ->
  fileRoute "files/dir" (method req) req id st
  = Some (ok BOk, setFilesOf id (withFolder (bodyPath "path" req) (filesOf id st)) st).
Proof. intros ->. reflexivity. Qed.

Lemma fileRoute_delete req id st :
  method req = "DELETE" ->
  fileRoute "files" (method req) req id st
  = Some (ok BOk, setFilesOf id (withoutTree (queryPath req) (filesOf id st)) st).
Proof. intros ->. reflexivity. Qed.

Lemma fileRoute_upload req id st :
  method req = "POST" ->
  fileRoute "files/upload" (method req) req id st
  = Some (match atob (default EmptyString (bodyField "contentBase64" req)) with
          | None => (Thrown, st)
          | Some content =>
              (ok BOk,
               setFilesOf id
                 (filesOf id st ++ [{| entry_path := uploadPath req; entry_type := file;
                                       entry_content := Some content |}]) st)
          end).
Proof.
  intros ->. cbn. unfold uploadPath, bodyPath.
  by destruct (atob _).
Qed.


(** Lists of entries. *)

Lemma find_updateFirst (here good : FileEntry -> bool) upd files first :
  (forall x, here x = true -> good (upd x) = true) ->
  (forall x, good x = true -> here x = true) ->
  List.find here files = Some first ->
  List.find good (updateFirst here upd files) = Some (upd first).
Proof.
  intros Hupd Hgood. induction files as [| y r IH]; [done |]. simpl.
  destruct (here y) eqn:Hy.
  - intros [= <-]. simpl. by rewrite (Hupd y Hy).
  - intros H. simpl. destruct (good y) eqn:Gy.
    + apply Hgood in Gy. congruence.
    + by apply IH.
Qed.

Lemma find_app_None {A} (p q : A -> bool) (l : list A) x :
  (forall y, q y = true -> p y = true) ->
  List.find p l = None -> q x = true ->
  List.find q (l ++ [x]) = Some x.
Proof.
  intros Hq. induction l as [| y r IH]; simpl; intros H Hx.
  - by rewrite Hx.
  - destruct (p y) eqn:Py; [done |]. destruct (q y) eqn:Qy.
    + apply Hq in Qy. congruence.
    + by apply IH.
Qed.

Lemma fileAt_atPath p x : fileAt p x = true -> atPath p x = true.
Proof. unfold fileAt. by intros [H _]%andb_prop. Qed.


Lemma bodyPath_normal key req : normalizePath (bodyPath key req) = bodyPath key req.
Proof. apply normalizePath_idem. Qed.

Lemma savedFiles_found pathParam content files :
  normalizePath pathParam = pathParam ->
  exists entry,
    List.find (fileAt pathParam) (savedFiles pathParam content files) = Some entry
    /\ entry_content entry = Some content.
Proof.
  intros Hnorm. unfold savedFiles.
  destruct (List.find (atPath pathParam) files) as [first |] eqn:E.
  - eexists. split.
    + apply (find_updateFirst (atPath pathParam) (fileAt pathParam)); [| | exact E].
      * intros x Hx. unfold fileAt, atPath in *. simpl. by rewrite Hx.
      * apply fileAt_atPath.
    + done.
  - eexists. split.
    + apply (find_app_None (atPath pathParam)); [apply fileAt_atPath | exact E |].
      unfold fileAt, atPath. simpl. rewrite Hnorm. by rewrite String.eqb_refl.
    + done.
Qed.

(** Entries at other paths are kept as they were, in their order. *)
Lemma savedFiles_others pathParam content files :
  normalizePath pathParam = pathParam ->
  List.filter (fun item => negb (atPath pathParam item)) (savedFiles pathParam content files)
  = List.filter (fun item => negb (atPath pathParam item)) files.
Proof.
  intros Hnorm. unfold savedFiles.
  destruct (List.find (atPath pathParam) files) as [first |] eqn:E.
  - clear E. induction files as [| y r IH]; [done |]. simpl.
    destruct (atPath pathParam y) eqn:Hy; simpl.
    + unfold atPath in *. simpl. by rewrite Hy.
    + rewrite Hy. simpl. by rewrite IH.
  - rewrite List.filter_app. simpl. unfold atPath at 2. simpl.
    rewrite Hnorm, String.eqb_refl. simpl. by rewrite app_nil_r.
Qed.

(** X3. A file saved through [POST files/content] reads back through
    [GET files/content]: whatever was stored at that path before, file,
    folder or nothing, a read of the same normalised path answers 200
    with the content just saved, and the entries at other paths are
    untouched. *)
Theorem saved_file_reads_back now later save read st id server :
  findServer id = Some server ->
  matchRoute (pathname save) = Some (id, Some "files/content") ->
  method save = "POST" ->
  matchRoute (pathname read) = Some (id, Some "files/content") ->
  method read = "GET" ->
  queryPath read = bodyPath "path" save ->
  fst (mockApiInterceptor now save st) = Respond 200 BOk
  /\ fst (mockApiInterceptor later read (snd (mockApiInterceptor now save st)))
     = Respond 200 (BContent (default EmptyString (bodyField "content" save)))
  /\ List.filter (fun item => negb (atPath (bodyPath "path" save) item))
       (filesOf id (snd (mockApiInterceptor now save st)))
     = List.filter (fun item => negb (atPath (bodyPath "path" save) item))
         (filesOf id (seedAll st)).
Proof.
  intros Hfind Hsave Hpost Hread Hget Hpath.
  rewrite (interceptor_file now save st id _ server _ Hfind Hsave (fileRoute_save _ _ _ Hpost)).
  cbn [fst snd]. split; [done |]. split.
  - rewrite (interceptor_file later read _ id _ server _ Hfind Hread (fileRoute_read _ _ _ Hget)).
    cbn [fst]. rewrite handler_files, next_call_files, handler_files, Hpath.
    destruct (savedFiles_found (bodyPath "path" save)
                (default EmptyString (bodyField "content" save))
                (filesOf id (seedAll st)) (bodyPath_normal _ _)) as (entry & -> & ->).
    done.
  - rewrite filesOf_setFilesOf, handler_files.
    apply savedFiles_others, bodyPath_normal.
Qed.

Lemma saved_file_reads_back_witness :
  fst (mockApiInterceptor "2026-02-08T08:00:01.000Z"
         (fileQuery "GET" "nau-events" "files/content" "/config/eula.txt")
         (snd (mockApiInterceptor "2026-02-08T08:00:00.000Z"
                 (filePost "nau-events" "files/content"
                    [("path", "config/eula.txt/"); ("content", "eula=false")])
                 initial)))
  = Respond 200 (BContent "eula=false").
Proof.
  refine (proj1 (proj2
    (saved_file_reads_back "2026-02-08T08:00:00.000Z" "2026-02-08T08:00:01.000Z"
       (filePost "nau-events" "files/content"
          [("path", "config/eula.txt/"); ("content", "eula=false")])
       (fileQuery "GET" "nau-events" "files/content" "/config/eula.txt")
       initial "nau-events" _ _ _ _ _ _ _))).
  - reflexivity.
  - reflexivity.
  - reflexivity.
  - reflexivity.
  - reflexivity.
  - reflexivity.
Defined.

Lemma withFolder_idem pathParam files :
  normalizePath pathParam = pathParam ->
  withFolder pathParam (withFolder pathParam files) = withFolder pathParam files.
Proof.
  intros Hnorm. unfold withFolder at 2.
  destruct (List.find (atPath pathParam) files) as [first |] eqn:E.
  - done.
  - unfold withFolder. rewrite E.
    destruct (List.find (atPath pathParam) (files ++ _)) eqn:E2; [done |].
    exfalso.
    assert (List.find (atPath pathParam)
              (files ++ [{| entry_path := pathParam; entry_type := dir;
                            entry_content := None |}]) <> None) as Hsome.
    { rewrite (find_app_None (atPath pathParam) (atPath pathParam) files _ (fun y H => H) E);
        [done |].
      unfold atPath. simpl. by rewrite Hnorm, String.eqb_refl. }
    done.
Qed.

Lemma setFilesOf_same id st :
  is_Some (serverFiles st !! id) -> setFilesOf id (filesOf id st) st = st.
Proof.
  intros [files H]. unfold setFilesOf, filesOf, setFiles. rewrite H. simpl.
  rewrite insert_id by done. by destruct st.
Qed.


Lemma getServerState_after_write id files st :
  getServerState id (setFilesOf id files (snd (getServerState id st)))
  = (fst (getServerState id st), setFilesOf id files (snd (getServerState id st))).
Proof.
  apply getServerState_present. simpl. apply getServerState_lookup.
Qed.

Lemma seedAll_after_write id files st :
  seedAll (setFilesOf id files (snd (getServerState id (seedAll st))))
  = setFilesOf id files (snd (getServerState id (seedAll st))).
Proof.
  apply seedAll_fixed, seeded_setFilesOf, seeded_getServerState, seedAll_is_seeded.
Qed.

(** X4. Creating a folder is idempotent and never clobbers: a second
    [POST files/dir] for the same path leaves the store exactly as the
    first left it; when some entry, file or folder, already has that
    path the list of files is left as it is, and otherwise one folder
    entry is added at its end. *)
Theorem folder_creation_is_idempotent now later req st id server :
  findServer id = Some server ->
  matchRoute (pathname req) = Some (id, Some "files/dir") ->
  method req = "POST" ->
  snd (mockApiInterceptor later req (snd (mockApiInterceptor now req st)))
    = snd (mockApiInterceptor now req st)
  /\ (forall entry,
        List.find (atPath (bodyPath "path" req)) (filesOf id (seedAll st)) = Some entry ->
        filesOf id (snd (mockApiInterceptor now req st)) = filesOf id (seedAll st))
  /\ (List.find (atPath (bodyPath "path" req)) (filesOf id (seedAll st)) = None ->
      filesOf id (snd (mockApiInterceptor now req st))
      = filesOf id (seedAll st)
        ++ [{| entry_path := bodyPath "path" req; entry_type := dir;
               entry_content := None |}]).
Proof.
  intros Hfind Hroute Hpost.
  rewrite (interceptor_file now req st id _ server _ Hfind Hroute (fileRoute_dir _ _ _ Hpost)).
  cbn [snd]. rewrite handler_files.
  set (folders := withFolder (bodyPath "path" req) (filesOf id (seedAll st))).
  split.
  - rewrite (interceptor_file later req _ id _ server _ Hfind Hroute (fileRoute_dir _ _ _ Hpost)).
    cbn [snd]. rewrite seedAll_after_write, getServerState_after_write. cbn [snd].
    rewrite filesOf_setFilesOf. unfold folders.
    rewrite withFolder_idem by apply bodyPath_normal. fold folders.
    rewrite <- (filesOf_setFilesOf id folders (snd (getServerState id (seedAll st)))) at 1.
    apply setFilesOf_same. simpl. rewrite lookup_insert_eq. by eexists.
  - rewrite filesOf_setFilesOf. unfold folders, withFolder.
    split; [by intros entry -> | by intros ->].
Qed.

Lemma folder_creation_is_idempotent_witness :
  snd (mockApiInterceptor "2026-02-08T08:00:01.000Z"
         (filePost "nau-events" "files/dir" [("path", "plugins")])
         (snd (mockApiInterceptor "2026-02-08T08:00:00.000Z"
                 (filePost "nau-events" "files/dir" [("path", "plugins")]) initial)))
  = snd (mockApiInterceptor "2026-02-08T08:00:00.000Z"
           (filePost "nau-events" "files/dir" [("path", "plugins")]) initial).
Proof.
  refine (proj1
    (folder_creation_is_idempotent "2026-02-08T08:00:00.000Z" "2026-02-08T08:00:01.000Z"
       (filePost "nau-events" "files/dir" [("path", "plugins")])
       initial "nau-events" _ _ _ _)).
  - reflexivity.
  - reflexivity.
  - reflexivity.
Defined.

Lemma withoutTree_clear pathParam files :
  Forall (fun item => under pathParam (normalizePath (entry_path item)) = false)
    (withoutTree pathParam files).
Proof.
  unfold withoutTree. apply Forall_forall. intros item Hin.
  apply list_elem_of_In, filter_In in Hin as [_ H]. by apply negb_true_iff.
Qed.

Lemma find_none_Forall {A} (p : A -> bool) (l : list A) :
  Forall (fun x => p x = false) l -> List.find p l = None.
Proof. induction 1 as [| x l Hx _ IH]; [done |]. simpl. by rewrite Hx. Qed.

Lemma withoutTree_not_found pathParam q files :
  under pathParam q = true -> List.find (fileAt q) (withoutTree pathParam files) = None.
Proof.
  intros Hq. apply find_none_Forall.
  eapply Forall_impl; [apply withoutTree_clear |].
  intros item H. simpl in H. unfold fileAt, atPath.
  destruct (String.eqb_spec (normalizePath (entry_path item)) q) as [E | E]; [| done].
  rewrite E in H. congruence.
Qed.

(** X5. [DELETE files] removes the entry at the path and everything
    under it: no entry at or under the path remains, the entries
    elsewhere are kept in their order, and a later read or download of
    any path at or under it answers 404. *)
Theorem deleted_tree_is_gone now later del get st id server action :
  findServer id = Some server ->
  matchRoute (pathname del) = Some (id, Some "files") ->
  method del = "DELETE" ->
  matchRoute (pathname get) = Some (id, Some action) ->
  action = "files/content" \/ action = "files/download" ->
  method get = "GET" ->
  under (queryPath del) (queryPath get) = true ->
  fst (mockApiInterceptor now del st) = Respond 200 BOk
  /\ filesOf id (snd (mockApiInterceptor now del st))
     = List.filter
         (fun item => negb (under (queryPath del) (normalizePath (entry_path item))))
         (filesOf id (seedAll st))
  /\ Forall (fun item => under (queryPath del) (normalizePath (entry_path item)) = false)
       (filesOf id (snd (mockApiInterceptor now del st)))
  /\ fst (mockApiInterceptor later get (snd (mockApiInterceptor now del st)))
     = Respond 404 (BError "File not found.").
Proof.
  intros Hfind Hdel Hdelete Hget Haction Hm Hunder.
  rewrite (interceptor_file now del st id _ server _ Hfind Hdel (fileRoute_delete _ _ _ Hdelete)).
  cbn [fst snd]. rewrite filesOf_setFilesOf, handler_files.
  split; [done |]. split; [done |]. split; [apply withoutTree_clear |].
  destruct Haction as [-> | ->].
  - rewrite (interceptor_file later get _ id _ server _ Hfind Hget (fileRoute_read _ _ _ Hm)).
    cbn [fst]. rewrite handler_files, next_call_files.
    by rewrite (withoutTree_not_found _ _ _ Hunder).
  - rewrite (interceptor_file later get _ id _ server _ Hfind Hget (fileRoute_download _ _ _ Hm)).
    cbn [fst]. rewrite handler_files, next_call_files.
    by rewrite (withoutTree_not_found _ _ _ Hunder).
Qed.

Lemma deleted_tree_is_gone_witness :
  fst (mockApiInterceptor "2026-02-08T08:00:01.000Z"
         (fileQuery "GET" "nau-events" "files/content" "config/eula.txt")
         (snd (mockApiInterceptor "2026-02-08T08:00:00.000Z"
                 (fileQuery "DELETE" "nau-events" "files" "config") initial)))
  = Respond 404 (BError "File not found.").
Proof.
  refine (proj2 (proj2 (proj2
    (deleted_tree_is_gone "2026-02-08T08:00:00.000Z" "2026-02-08T08:00:01.000Z"
       (fileQuery "DELETE" "nau-events" "files" "config")
       (fileQuery "GET" "nau-events" "files/content" "config/eula.txt")
       initial "nau-events" _ "files/content" _ _ _ _ _ _ _)))).
  - reflexivity.
  - reflexivity.
  - reflexivity.
  - reflexivity.
  - left. reflexivity.
  - reflexivity.
  - reflexivity.
Defined.

Lemma find_app_last {A} (p : A -> bool) (l : list A) x :
  p x = true ->
  List.find p (l ++ [x]) = Some (default x (List.find p l)).
Proof.
  intros Hx. induction l as [| y r IH]; simpl; [by rewrite Hx |].
  by destruct (p y).
Qed.

(** X6. [POST files/upload] decodes the base64 text and adds a file at
    the end of the list without looking for an entry of the same path; a
    download of that path then answers with the first file of that path:
    the upload when there was none, the earlier file otherwise. Text
    that is not base64 makes the call raise and leaves the files as they
    were. *)
Theorem upload_adds_and_download_takes_the_first now later up down st id server :
  findServer id = Some server ->
  matchRoute (pathname up) = Some (id, Some "files/upload") ->
  method up = "POST" ->
  matchRoute (pathname down) = Some (id, Some "files/download") ->
  method down = "GET" ->
  queryPath down = uploadPath up ->
  (forall content,
     atob (default EmptyString (bodyField "contentBase64" up)) = Some content ->
     fst (mockApiInterceptor now up st) = Respond 200 BOk
     /\ filesOf id (snd (mockApiInterceptor now up st))
        = filesOf id (seedAll st)
          ++ [{| entry_path := uploadPath up; entry_type := file;
                 entry_content := Some content |}]
     /\ fst (mockApiInterceptor later down (snd (mockApiInterceptor now up st)))
        = Respond 200
            (BBlob match List.find (fileAt (uploadPath up)) (filesOf id (seedAll st)) with
                   | Some earlier => default EmptyString (entry_content earlier)
                   | None => content
                   end))
  /\ (atob (default EmptyString (bodyField "contentBase64" up)) = None ->
      fst (mockApiInterceptor now up st) = Thrown
      /\ filesOf id (snd (mockApiInterceptor now up st)) = filesOf id (seedAll st)).
Proof.
  intros Hfind Hup Hpost Hdown Hget Hpath.
  rewrite (interceptor_file now up st id _ server _ Hfind Hup (fileRoute_upload _ _ _ Hpost)).
  split.
  - intros content ->. cbn [fst snd]. rewrite filesOf_setFilesOf, handler_files.
    split; [done |]. split; [done |].
    rewrite (interceptor_file later down _ id _ server _ Hfind Hdown
               (fileRoute_download _ _ _ Hget)).
    cbn [fst]. rewrite handler_files, next_call_files, Hpath.
    rewrite find_app_last.
    + by destruct (List.find (fileAt (uploadPath up)) (filesOf id (seedAll st))).
    + unfold fileAt, atPath, uploadPath. simpl.
      by rewrite normalizePath_idem, String.eqb_refl.
  - intros ->. cbn [fst snd]. split; [done | apply handler_files].
Qed.

Lemma upload_adds_and_download_takes_the_first_witness :
  fst (mockApiInterceptor "2026-02-08T08:00:01.000Z"
         (fileQuery "GET" "nau-events" "files/download" "world/level.dat")
         (snd (mockApiInterceptor "2026-02-08T08:00:00.000Z"
                 (filePost "nau-events" "files/upload"
                    [("path", "world"); ("name", "level.dat"); ("contentBase64", "TmF1")])
                 initial)))
  = Respond 200 (BBlob "Nau").
Proof.
  refine (proj2 (proj2 (proj1
    (upload_adds_and_download_takes_the_first
       "2026-02-08T08:00:00.000Z" "2026-02-08T08:00:01.000Z"
       (filePost "nau-events" "files/upload"
          [("path", "world"); ("name", "level.dat"); ("contentBase64", "TmF1")])
       (fileQuery "GET" "nau-events" "files/download" "world/level.dat")
       initial "nau-events" _ _ _ _ _ _ _) "Nau" _))).
  - reflexivity.
  - reflexivity.
  - reflexivity.
  - reflexivity.
  - reflexivity.
  - reflexivity.
  - reflexivity.
Defined.


Lemma getSubstitution_plain matched before after repl :
  occurs "$" repl = false -> getSubstitution matched before after repl = repl.
Proof.
  induction repl as [| c r IH]; [done |].
  simpl. intros H. apply orb_false_iff in H as [Hc Hr].
  specialize (IH Hr).
  destruct c as [[] [] [] [] [] [] [] []]; try discriminate Hc; simpl; by rewrite IH.
Qed.

Lemma replaceFrom_prefix pat repl before s :
  String.prefix pat s = true ->
  replaceFrom pat repl before s
  = before +:+ getSubstitution pat before (skip (String.length pat) s) repl
      +:+ skip (String.length pat) s.
Proof. intros H. destruct s; cbn [replaceFrom]; by rewrite H. Qed.

Lemma prefix_dropPrefix a s :
  String.prefix a s = match dropPrefix a s with Some _ => true | None => false end.
Proof.
  revert s. induction a as [| c r IH]; intros s; [by destruct s |].
  destruct s as [| d t]; [done |]. simpl.
  destruct (ascii_dec c d) as [-> | Hne].
  - by rewrite Ascii.eqb_refl.
  - by apply Ascii.eqb_neq in Hne as ->.
Qed.

Lemma dropPrefix_app a b : dropPrefix a (a +:+ b) = Some b.
Proof. induction a as [| c r IH]; [done |]. simpl. by rewrite Ascii.eqb_refl. Qed.

Lemma skip_app a b : skip (String.length a) (a +:+ b) = b.
Proof. by induction a. Qed.

Lemma replace_prefixed from to rest :
  occurs "$" to = false -> replace from to (from +:+ rest) = to +:+ rest.
Proof.
  intros Hto. unfold replace. rewrite replaceFrom_prefix.
  - by rewrite getSubstitution_plain, skip_app.
  - by rewrite prefix_dropPrefix, dropPrefix_app.
Qed.

Lemma fileRoute_rename req id st :
  method req = "POST" ->
  fileRoute "files/rename" (method req) req id st
  = Some (ok BOk,
          setFilesOf id
            (map (fun item =>
                    if under (bodyPath "from" req) (normalizePath (entry_path item))
                    then {| entry_path :=
                              replace (bodyPath "from" req) (bodyPath "to" req)
                                (normalizePath (entry_path item));
                            entry_type := entry_type item;
                            entry_content := entry_content item |}
                    else item)
               (filesOf id st)) st).
Proof. intros ->. reflexivity. Qed.

Lemma moved_entry from to item :
  occurs "$" to = false ->
  (if under from (normalizePath (entry_path item))
   then {| entry_path := replace from to (normalizePath (entry_path item));
           entry_type := entry_type item;
           entry_content := entry_content item |}
   else item)
  = moved from to item.
Proof.
  intros Hto. unfold under, startsWith, moved.
  destruct (String.eqb_spec (normalizePath (entry_path item)) from) as [E | E].
  - cbn [orb]. rewrite E.
    pose proof (replace_prefixed from to EmptyString Hto) as H.
    rewrite !append_empty_r in H. by rewrite H.
  - rewrite orb_false_l, prefix_dropPrefix.
    destruct (dropPrefix (from +:+ "/") (normalizePath (entry_path item)))
      as [rest |] eqn:D; [| done].
    apply dropPrefix_Some in D. rewrite D, append_assoc.
    by rewrite replace_prefixed.
Qed.

(** X7. [POST files/rename] with a target that holds no [$] moves the
    entry at [from] and everything under it: the entry whose normalised
    path is [from] gets the target as its path, an entry at [from/rest]
    gets [to/rest], and every other entry, like the type and content of
    every entry, is left as it was. *)
Theorem rename_moves_the_tree now req st id server :
  findServer id = Some server ->
  matchRoute (pathname req) = Some (id, Some "files/rename") ->
  method req = "POST" ->
  occurs "$" (bodyPath "to" req) = false ->
  fst (mockApiInterceptor now req st) = Respond 200 BOk
  /\ filesOf id (snd (mockApiInterceptor now req st))
     = map (moved (bodyPath "from" req) (bodyPath "to" req)) (filesOf id (seedAll st)).
Proof.
  intros Hfind Hroute Hpost Hto.
  rewrite (interceptor_file now req st id _ server _ Hfind Hroute (fileRoute_rename _ _ _ Hpost)).
  cbn [fst snd]. rewrite filesOf_setFilesOf, handler_files.
  split; [done |].
  apply map_ext. intros item. by apply moved_entry.
Qed.

Lemma rename_moves_the_tree_witness :
  map entry_path
    (filesOf "nau-events"
       (snd (mockApiInterceptor "2026-02-08T08:00:00.000Z"
               (filePost "nau-events" "files/rename" [("from", "config"); ("to", "settings")])
               initial)))
  = [ "settings"; "logs"; "world"; "settings/server.properties"; "settings/eula.txt";
      "logs/latest.log" ].
Proof.
  rewrite (proj2
    (rename_moves_the_tree "2026-02-08T08:00:00.000Z"
       (filePost "nau-events" "files/rename" [("from", "config"); ("to", "settings")])
       initial "nau-events" _ eq_refl eq_refl eq_refl eq_refl)).
  reflexivity.
Defined.


Lemma fileRoute_list req id st :
  method req = "GET" ->
  fileRoute "files" (method req) req id st
  = Some (ok (BEntries
                (map (fun entry =>
                        {| listing_name := getName (entry_path entry);
                           listing_path := normalizePath (entry_path entry);
                           listing_type := entry_type entry;
                           listing_size :=
                             if isFile (entry_type entry)
                             then Some (default O (String.length <$> entry_content entry))
                             else None |})
                   (List.filter
                      (fun entry => String.eqb (getParentPath (entry_path entry)) (queryPath req))
                      (filesOf id st)))),
          st).
Proof. intros ->. reflexivity. Qed.

Lemma getParentPath_normal value : getParentPath (normalizePath value) = getParentPath value.
Proof. unfold getParentPath. by rewrite normalizePath_idem. Qed.

Lemma getName_normal value : getName (normalizePath value) = getName value.
Proof. unfold getName. by rewrite normalizePath_idem. Qed.

Lemma withFolder_holds pathParam files :
  normalizePath pathParam = pathParam ->
  exists item, In item (withFolder pathParam files)
               /\ normalizePath (entry_path item) = pathParam.
Proof.
  intros Hnormal. unfold withFolder.
  destruct (List.find (atPath pathParam) files) as [item |] eqn:E.
  - apply find_some in E as [Hin Hat]. exists item. split; [done |].
    by apply String.eqb_eq.
  - eexists. split; [apply in_or_app; right; by left |]. done.
Qed.

(** X8. A folder that has been created is listed in its parent: after
    [POST files/dir], the listing of the parent of the given path holds
    an entry with that path, under the last segment of the path as its
    name - the new folder, or the entry that had the path before. *)
Theorem created_folder_is_listed now later mk list st id server :
  findServer id = Some server ->
  matchRoute (pathname mk) = Some (id, Some "files/dir") ->
  method mk = "POST" ->
  matchRoute (pathname list) = Some (id, Some "files") ->
  method list = "GET" ->
  queryPath list = getParentPath (bodyPath "path" mk) ->
  exists entries entry,
    fst (mockApiInterceptor later list (snd (mockApiInterceptor now mk st)))
    = Respond 200 (BEntries entries)
    /\ In entry entries
    /\ listing_path entry = bodyPath "path" mk
    /\ listing_name entry = getName (bodyPath "path" mk).
Proof.
  intros Hfind Hmk Hpost Hlist Hget Hparent.
  rewrite (interceptor_file now mk st id _ server _ Hfind Hmk (fileRoute_dir _ _ _ Hpost)).
  cbn [snd].
  rewrite (interceptor_file later list _ id _ server _ Hfind Hlist (fileRoute_list _ _ _ Hget)).
  cbn [fst]. rewrite handler_files, next_call_files, handler_files.
  destruct (withFolder_holds (bodyPath "path" mk) (filesOf id (seedAll st))
              (bodyPath_normal _ _)) as (item & Hin & Hpath).
  eexists _, _. split; [reflexivity |]. split.
  - apply in_map, filter_In. split; [exact Hin |].
    apply String.eqb_eq. rewrite Hparent.
    by rewrite <- (getParentPath_normal (entry_path item)), Hpath.
  - cbn [listing_path listing_name]. split; [exact Hpath |].
    by rewrite <- (getName_normal (entry_path item)), Hpath.
Qed.

Lemma created_folder_is_listed_witness :
  exists entries entry,
    fst (mockApiInterceptor "2026-02-08T08:00:01.000Z"
           (fileQuery "GET" "nau-events" "files" "config")
           (snd (mockApiInterceptor "2026-02-08T08:00:00.000Z"
                   (filePost "nau-events" "files/dir" [("path", "config/plugins")]) initial)))
    = Respond 200 (BEntries entries)
    /\ In entry entries
    /\ listing_path entry = "config/plugins"
    /\ listing_name entry = "plugins".
Proof.
  refine (created_folder_is_listed "2026-02-08T08:00:00.000Z" "2026-02-08T08:00:01.000Z"
            (filePost "nau-events" "files/dir" [("path", "config/plugins")])
            (fileQuery "GET" "nau-events" "files" "config")
            initial "nau-events" _ _ _ _ _ _ _).
  - reflexivity.
  - reflexivity.
  - reflexivity.
  - reflexivity.
  - reflexivity.
  - reflexivity.
Defined.

End FileRoutes.

Module Frames.
Import Js Mock Vocabulary FrameVocabulary StoreFacts RouteFacts Invariants FileRoutes.

Lemma fileRoute_frame action m req id st out st' k :
  fileRoute action m req id st = Some (out, st') ->
  serverStates st' = serverStates st
  /\ serverLogs st' = serverLogs st
  /\ (k <> id -> serverFiles st' !! k = serverFiles st !! k).
Proof.
  unfold fileRoute. intros H.
  repeat case_match; simplify_eq; repeat split; try done;
    intros Hk; cbn; by rewrite lookup_insert_ne.
Qed.

Lemma lifecycle_frame now action id state st k :
  serverFiles (snd (lifecycle now action id state st)) = serverFiles st
  /\ (k <> id ->
      serverStates (snd (lifecycle now action id state st)) !! k = serverStates st !! k
      /\ serverLogs (snd (lifecycle now action id state st)) !! k = serverLogs st !! k).
Proof.
  unfold lifecycle. destruct action as [x |]; [| done].
  destruct (String.eqb x "start"), (String.eqb x "stop"), (String.eqb x "restart");
    cbn [snd]; (split; [done |]); intros Hk;
    rewrite ?appendLog_serverLogs, ?appendLog_states; cbn;
    rewrite ?lookup_insert_ne by done; done.
Qed.


Lemma getServerState_frame id st k :
  k <> id -> holding k (snd (getServerState id st)) = holding k st.
Proof.
  intros Hk. unfold holding.
  by rewrite getServerState_other, getServerState_logs, getServerState_files.
Qed.

Lemma appendLog_holding id line st k :
  k <> id -> holding k (appendLog id line st) = holding k st.
Proof.
  intros Hk. unfold holding.
  by rewrite appendLog_states, appendLog_files, appendLog_serverLogs, lookup_insert_ne.
Qed.

Lemma serverRoute_frame now req id action server st k :
  k <> id -> holding k (snd (serverRoute now req id action server st)) = holding k st.
Proof.
  intros Hk. unfold serverRoute.
  pose proof (getServerState_frame id st k Hk) as Hg.
  destruct (getServerState id st) as [state st1]. cbn [snd] in Hg.
  rewrite <- Hg. clear Hg.
  repeat case_match; simplify_eq; cbn [snd]; try done;
    try (by rewrite !appendLog_holding).
  - match goal with
    | E : fileRoute _ _ _ _ _ = Some ?p |- _ =>
        destruct p as [out st2];
        destruct (fileRoute_frame _ _ _ _ _ _ _ k E) as (Hs & Hl & Hf)
    end.
    unfold holding. cbn [snd]. by rewrite Hs, Hl, Hf.
  - match goal with
    | E : lifecycle ?a ?b ?c ?d ?e = _ |- _ =>
        destruct (lifecycle_frame a b c d e k) as (Hf & Hrest);
        destruct (Hrest Hk) as [Hs Hl]; rewrite E in Hf, Hs, Hl
    end.
    cbn [snd] in *. unfold holding. by rewrite Hf, Hs, Hl.
Qed.

Lemma other_server_call now req st id id' action :
  seeded st ->
  matchRoute (pathname req) = Some (id', action) -> id' <> id ->
  holding id (snd (mockApiInterceptor now req st)) = holding id st.
Proof.
  intros Hseeded Hroute Hne.
  rewrite (interceptor_route _ _ _ _ _ Hroute), (seedAll_fixed st Hseeded).
  destruct (findServer id') as [server |]; [| done].
  by apply serverRoute_frame.
Qed.

Lemma unrouted_call now req st :
  seeded st -> matchRoute (pathname req) = None ->
  snd (mockApiInterceptor now req st) = st.
Proof.
  intros Hseeded Hnone. unfold mockApiInterceptor.
  rewrite (seedAll_fixed st Hseeded), Hnone. by repeat case_match.
Qed.

(** X9. The servers of the mock are isolated from one another: on a
    seeded store, a request on the path of one server, whatever its
    action, method and body, leaves the state, the buffer and the file
    list of every other server as they were; so does every request that
    is on no server's path. *)
Theorem servers_are_isolated now req st id :
  seeded st ->
  (forall id' action,
     matchRoute (pathname req) = Some (id', action) -> id' <> id ->
     holding id (snd (mockApiInterceptor now req st)) = holding id st)
  /\ (matchRoute (pathname req) = None ->
      snd (mockApiInterceptor now req st) = st).
Proof.
  intros Hseeded. split.
  - intros id' action Hroute Hne. by apply (other_server_call now req st id id' action).
  - by apply unrouted_call.
Qed.

Lemma servers_are_isolated_witness :
  holding "nau-events"
    (snd (mockApiInterceptor "2026-02-08T08:00:00.000Z"
            (request "POST" "/api/servers/nau-survival/stop") (seedAll initial)))
  = holding "nau-events" (seedAll initial).
Proof.
  refine (proj1
    (servers_are_isolated "2026-02-08T08:00:00.000Z"
       (request "POST" "/api/servers/nau-survival/stop") (seedAll initial) "nau-events" _)
    "nau-survival" (Some "stop") _ _).
  - repeat split. vm_compute. discriminate.
  - reflexivity.
  - discriminate.
Defined.


(** Requests that are no lifecycle action of [id] leave its state. *)
Lemma lifecycle_idle now action id state st :
  match action with
  | Some x => (String.eqb x "start" || String.eqb x "stop" || String.eqb x "restart")%bool
  | None => false
  end = false ->
  lifecycle now action id state st = (state, st).
Proof.
  unfold lifecycle. destruct action as [x |]; [| done].
  destruct (String.eqb x "start"), (String.eqb x "stop"), (String.eqb x "restart"); done.
Qed.

Lemma serverRoute_state now req id action server st state :
  serverStates st !! id = Some state ->
  match action with
  | Some x => (String.eqb x "start" || String.eqb x "stop" || String.eqb x "restart")%bool
  | None => false
  end = false ->
  serverStates (snd (serverRoute now req id action server st)) !! id = Some state.
Proof.
  intros Hstate Hidle. unfold serverRoute.
  rewrite (getServerState_present _ _ _ Hstate).
  repeat case_match; simplify_eq; cbn [snd]; try done.
  - match goal with
    | E : fileRoute _ _ _ _ _ = Some ?p |- _ =>
        destruct p as [out st2];
        destruct (fileRoute_frame _ _ _ _ _ _ _ id E) as (Hs & _)
    end.
    cbn [snd]. by rewrite Hs.
  - match goal with
    | E : lifecycle ?a ?b ?c ?d ?e = _ |- _ =>
        rewrite (lifecycle_idle a b c d e Hidle) in E; by injection E as _ <-
    end.
Qed.

Lemma quiet_call now req st id state :
  seeded st ->
  serverStates st !! id = Some state ->
  actsOn id req = false ->
  seeded (snd (mockApiInterceptor now req st))
  /\ serverStates (snd (mockApiInterceptor now req st)) !! id = Some state.
Proof.
  intros Hseeded Hstate Hquiet.
  split; [by apply interceptor_preserves |].
  destruct (matchRoute (pathname req)) as [[id' action] |] eqn:Hroute.
  - destruct (decide (id' = id)) as [-> | Hne].
    + rewrite (interceptor_route _ _ _ _ _ Hroute), (seedAll_fixed st Hseeded).
      destruct (findServer id) as [server |]; [| done].
      apply serverRoute_state; [done |].
      unfold actsOn in Hquiet. rewrite Hroute, String.eqb_refl in Hquiet.
      by destruct action.
    + pose proof (other_server_call now req st id id' action Hseeded Hroute Hne) as H.
      unfold holding in H. injection H as H _ _. by rewrite H.
  - by rewrite (unrouted_call now req st Hseeded Hroute).
Qed.

Lemma quiet_calls requests st id state :
  seeded st ->
  serverStates st !! id = Some state ->
  Forall (fun call => actsOn id (snd call) = false) requests ->
  seeded (calls requests st) /\ serverStates (calls requests st) !! id = Some state.
Proof.
  revert st. induction requests as [| [now req] requests IH]; intros st Hseeded Hstate Hall;
    [done |].
  apply Forall_cons in Hall as [Hquiet Hall].
  destruct (quiet_call now req st id state Hseeded Hstate Hquiet) as [H1 H2].
  by apply IH.
Qed.

Lemma keeps_seeded st st' : seeded st -> keeps st st' -> seeded st'.
Proof.
  intros (S1 & S2 & S3) (K1 & K2 & K3 & _). repeat split; [congruence | congruence | auto].
Qed.

Lemma interceptor_seeds now req st id action :
  matchRoute (pathname req) = Some (id, action) ->
  seeded (snd (mockApiInterceptor now req st)).
Proof.
  intros Hroute. rewrite (interceptor_route _ _ _ _ _ Hroute).
  pose proof (seedAll_is_seeded st) as Hs.
  destruct (findServer id) as [server |]; [| done].
  apply (keeps_seeded (seedAll st)); [done |].
  apply keeps_serverRoute, keeps_refl.
Qed.

(** X10. The state a lifecycle action leaves is kept until the next
    one: after [start], [stop] or [restart] of a registered server at
    some time, whatever requests follow that are no lifecycle action of
    that server - logs, commands, file operations, anything on other
    servers - a request for the status of the server answers 200 with the
    status of that action, the action and its time. *)
Theorem state_is_kept_until_the_next_action now later a act requests probe st id server
    asked :
  findServer id = Some server ->
  matchRoute (pathname act) = Some (id, Some (actionName a)) ->
  Forall (fun call => actsOn id (snd call) = false) requests ->
  matchRoute (pathname probe) = Some (id, asked) ->
  asked = None \/ asked = Some "status" ->
  fst (mockApiInterceptor later probe (calls requests (snd (mockApiInterceptor now act st))))
  = Respond 200
      (BServerState server
         {| status := statusAfter a; lastAction := Some a; lastActionAt := Some now |}).
Proof.
  intros Hfind Hact Hquiet Hprobe Hasked.
  pose proof (interceptor_seeds now act st id _ Hact) as Hseeded.
  assert (serverStates (snd (mockApiInterceptor now act st)) !! id
          = Some {| status := statusAfter a; lastAction := Some a; lastActionAt := Some now |})
    as Hstate.
  { rewrite (interceptor_route _ _ _ _ _ Hact), Hfind, serverRoute_lifecycle.
    cbn [snd]. rewrite appendLog_states. apply lookup_insert_eq. }
  destruct (quiet_calls requests _ id _ Hseeded Hstate Hquiet) as [Hs Hkept].
  rewrite (interceptor_route _ _ _ _ _ Hprobe), Hfind, (seedAll_fixed _ Hs).
  unfold serverRoute. rewrite (getServerState_present _ _ _ Hkept).
  by destruct Hasked as [-> | ->].
Qed.

Lemma state_is_kept_until_the_next_action_witness :
  fst (mockApiInterceptor "2026-02-08T08:05:00.000Z"
         (request "GET" "/api/servers/nau-events/status")
         (calls [("2026-02-08T08:01:00.000Z", commandRequest "nau-events" "list");
                 ("2026-02-08T08:02:00.000Z", request "POST" "/api/servers/nau-survival/start")]
            (snd (mockApiInterceptor "2026-02-08T08:00:00.000Z"
                    (request "POST" "/api/servers/nau-events/stop") initial))))
  = Respond 200
      (BServerState
         {| server_id := "nau-events"; Mock.name := "Nau Events";
            Mock.path := "D:/Minecraft/servers/nau-events"; Mock.port := 25568;
            Mock.description :=
              Some "Event server for mini-games and seasonal activities." |}
         {| status := offline; lastAction := Some stop;
            lastActionAt := Some "2026-02-08T08:00:00.000Z" |}).
Proof.
  refine (state_is_kept_until_the_next_action
            "2026-02-08T08:00:00.000Z" "2026-02-08T08:05:00.000Z" stop
            (request "POST" "/api/servers/nau-events/stop")
            [("2026-02-08T08:01:00.000Z", commandRequest "nau-events" "list");
             ("2026-02-08T08:02:00.000Z", request "POST" "/api/servers/nau-survival/start")]
            (request "GET" "/api/servers/nau-events/status") initial "nau-events" _
            (Some "status") _ _ _ _ _).
  - reflexivity.
  - reflexivity.
  - repeat constructor.
  - reflexivity.
  - right. reflexivity.
Defined.

End Frames.

Module TrimFacts.
Import Js PathVocabulary.

Lemma trimStart_first s c :
  firstChar (trimStart s) = Some c -> isWhiteSpace c = false.
Proof.
  induction s as [| d r IH]; [done |]. simpl.
  destruct (isWhiteSpace d) eqn:E; [done |]. simpl. by intros [= <-].
Qed.

Lemma trimStart_fixed s :
  (forall c, firstChar s = Some c -> isWhiteSpace c = false) -> trimStart s = s.
Proof.
  destruct s as [| d r]; [done |]. simpl. intros H. by rewrite (H d).
Qed.

Lemma trimEnd_cons c r :
  trimEnd (String c r)
  = match trimEnd r with
    | EmptyString => if isWhiteSpace c then EmptyString else String c EmptyString
    | r' => String c r'
    end.
Proof. reflexivity. Qed.

Lemma trimEnd_last s c :
  lastChar (trimEnd s) = Some c -> isWhiteSpace c = false.
Proof.
  induction s as [| d r IH]; [done |]. rewrite trimEnd_cons.
  destruct (trimEnd r) as [| e t] eqn:E.
  - destruct (isWhiteSpace d) eqn:W; [done |]. simpl. by intros [= <-].
  - exact IH.
Qed.

Lemma trimEnd_fixed s :
  (forall c, lastChar s = Some c -> isWhiteSpace c = false) -> trimEnd s = s.
Proof.
  induction s as [| d r IH]; [done |]. intros H. rewrite trimEnd_cons.
  destruct r as [| e t].
  - simpl. by rewrite (H d).
  - rewrite IH by exact H. done.
Qed.

Lemma trimEnd_first s c :
  firstChar s = Some c -> isWhiteSpace c = false -> firstChar (trimEnd s) = Some c.
Proof.
  destruct s as [| d r]; [done |]. intros [= ->] W. rewrite trimEnd_cons.
  destruct (trimEnd r); [by rewrite W | done].
Qed.

Lemma trimEnd_first_inv s c :
  firstChar (trimEnd s) = Some c -> firstChar s = Some c.
Proof.
  destruct s as [| d r]; [done |]. rewrite trimEnd_cons.
  destruct (trimEnd r); [by destruct (isWhiteSpace d) | done].
Qed.

Lemma lastChar_cons' c d r : lastChar (String c (String d r)) = lastChar (String d r).
Proof. reflexivity. Qed.

Lemma trim_first s c : firstChar (trim s) = Some c -> isWhiteSpace c = false.
Proof. intros H. apply trimEnd_first_inv in H. by apply trimStart_first in H. Qed.

Lemma trim_last s c : lastChar (trim s) = Some c -> isWhiteSpace c = false.
Proof. apply trimEnd_last. Qed.

Lemma trim_fixed s :
  (forall c, firstChar s = Some c -> isWhiteSpace c = false) ->
  (forall c, lastChar s = Some c -> isWhiteSpace c = false) ->
  trim s = s.
Proof.
  intros Hfirst Hlast. unfold trim. rewrite (trimStart_fixed _ Hfirst).
  by apply trimEnd_fixed.
Qed.

Lemma trim_idem s : trim (trim s) = trim s.
Proof. apply trim_fixed; [apply trim_first | apply trim_last]. Qed.

End TrimFacts.

Module SlugFacts.
Import Js BackendText PathVocabulary TextVocabulary TrimFacts.

(** What the class [[a-z0-9]] excludes. *)
Lemma isSlugChar_plain c :
  isSlugChar c = true ->
  isWhiteSpace c = false /\ lowerChar c = c /\ Ascii.eqb c "-" = false.
Proof. by destruct c as [[] [] [] [] [] [] [] []]. Qed.

Lemma dash_plain : isSlugChar "-" = false /\ isWhiteSpace "-" = false /\ lowerChar "-" = "-"%char.
Proof. done. Qed.


Lemma dashed_dashRuns b s : dashed b (dashRuns b s) = true.
Proof.
  revert b. induction s as [| c r IH]; intros b; [done |]. simpl.
  destruct (isSlugChar c) eqn:E.
  - simpl. by rewrite E.
  - destruct b; [apply IH |]. simpl. apply IH.
Qed.

Lemma dashed_slugFrom b s : slugFrom b s = true -> dashed b s = true.
Proof.
  revert b. induction s as [| c r IH]; intros b; [done |]. simpl.
  destruct (isSlugChar c); [apply IH |].
  destruct (Ascii.eqb c "-"); [| done].
  intros [H1 H2]%andb_true_iff. rewrite H1. by apply IH.
Qed.

Lemma dropLastDash_cons c d r :
  dropLastDash (String c (String d r)) = String c (dropLastDash (String d r)).
Proof. reflexivity. Qed.

Lemma dropLastDash_slug b s :
  dashed b s = true ->
  match dropLastDash s with
  | EmptyString => True
  | t => slugFrom b t = true
  end.
Proof.
  revert b. induction s as [| c r IH]; intros b; [done |].
  destruct r as [| d t].
  - simpl. destruct (isSlugChar c) eqn:E.
    + destruct (isSlugChar_plain c E) as (_ & _ & ->). simpl. by rewrite E.
    + by destruct (Ascii.eqb c "-").
  - rewrite dropLastDash_cons. cbn [dashed slugFrom].
    destruct (isSlugChar c) eqn:E.
    + intros H. specialize (IH false H).
      destruct (dropLastDash (String d t)); [done | exact IH].
    + destruct (Ascii.eqb c "-"); [| done].
      intros [H1 H2]%andb_true_iff. rewrite H1. specialize (IH true H2).
      destruct (dropLastDash (String d t)) eqn:D; [| exact IH].
      exfalso. cbn [dashed] in H2. destruct t as [| e u].
      * simpl in D. destruct (isSlugChar d) eqn:Ed.
        -- destruct (isSlugChar_plain d Ed) as (_ & _ & Hd). by rewrite Hd in D.
        -- by destruct (Ascii.eqb d "-").
      * by rewrite dropLastDash_cons in D.
Qed.

Lemma dropEdgeDashes_slug s : dashed false s = true -> isSlug (dropEdgeDashes s) = true.
Proof.
  intros H. unfold dropEdgeDashes.
  assert (dashed true (match s with
                       | String c r => if Ascii.eqb c "-" then r else s
                       | EmptyString => EmptyString
                       end) = true) as Hs.
  { destruct s as [| c r]; [done |]. simpl in H.
    destruct (isSlugChar c) eqn:E.
    - destruct (isSlugChar_plain c E) as (_ & _ & ->). simpl. by rewrite E.
    - destruct (Ascii.eqb c "-"); [exact H | done]. }
  apply dropLastDash_slug in Hs. unfold isSlug.
  by destruct (dropLastDash _).
Qed.

Lemma toSlug_slug value : isSlug (toSlug value) = true.
Proof. apply dropEdgeDashes_slug, dashed_dashRuns. Qed.

(** A slug is left as it is by each stage. *)
Lemma slugFrom_first s c :
  slugFrom true s = true -> firstChar s = Some c -> isSlugChar c = true.
Proof.
  destruct s as [| d r]; [done |]. simpl. intros H [= ->].
  destruct (isSlugChar c); [done |]. by destruct (Ascii.eqb c "-").
Qed.

Lemma slugFrom_last b s c :
  slugFrom b s = true -> lastChar s = Some c -> isSlugChar c = true.
Proof.
  revert b. induction s as [| d r IH]; intros b; [done |].
  destruct r as [| e t].
  - simpl. intros H [= ->]. destruct (isSlugChar c); [done |].
    destruct (Ascii.eqb c "-"); [| done]. by rewrite andb_false_r in H.
  - intros H. rewrite lastChar_cons' . cbn [slugFrom] in H.
    destruct (isSlugChar d); [by apply (IH false) |].
    destruct (Ascii.eqb d "-"); [| done].
    apply andb_true_iff in H as [_ H]. by apply (IH true).
Qed.

Lemma toLowerCase_dashed b s : dashed b s = true -> toLowerCase s = s.
Proof.
  revert b. induction s as [| c r IH]; intros b; [done |]. simpl.
  destruct (isSlugChar c) eqn:E.
  - intros H. destruct (isSlugChar_plain c E) as (_ & -> & _). by rewrite (IH _ H).
  - destruct (Ascii.eqb_spec c "-") as [-> | _]; [| done].
    intros [_ H]%andb_true_iff. by rewrite (IH _ H).
Qed.

Lemma dashRuns_dashed b s : dashed b s = true -> dashRuns b s = s.
Proof.
  revert b. induction s as [| c r IH]; intros b; [done |]. simpl.
  destruct (isSlugChar c) eqn:E.
  - intros H. by rewrite (IH _ H).
  - destruct (Ascii.eqb_spec c "-") as [-> | _]; [| done].
    intros [Hb H]%andb_true_iff. apply negb_true_iff in Hb as ->. by rewrite (IH _ H).
Qed.

Lemma dropLastDash_fixed s :
  (forall c, lastChar s = Some c -> Ascii.eqb c "-" = false) -> dropLastDash s = s.
Proof.
  induction s as [| c r IH]; [done |]. destruct r as [| d t].
  - intros H. simpl. by rewrite (H c).
  - intros H. rewrite dropLastDash_cons, IH; [done |]. exact H.
Qed.

Lemma toSlug_fixed s : isSlug s = true -> toSlug s = s.
Proof.
  destruct s as [| c r]; [done |]. unfold isSlug. intros H.
  set (t := String c r) in *.
  assert (forall d, firstChar t = Some d -> isSlugChar d = true) as Hfirst
    by (intros d; by apply slugFrom_first).
  assert (forall d, lastChar t = Some d -> isSlugChar d = true) as Hlast
    by (intros d; by apply (slugFrom_last true)).
  pose proof (dashed_slugFrom _ _ H) as Hd.
  unfold toSlug. rewrite trim_fixed.
  - rewrite (toLowerCase_dashed _ _ Hd).
    assert (dashed false t = true) as Hd'.
    { subst t. simpl in *. destruct (isSlugChar c); [done |].
      by destruct (Ascii.eqb c "-"). }
    rewrite (dashRuns_dashed _ _ Hd'). unfold dropEdgeDashes. subst t.
    destruct (isSlugChar_plain c (Hfirst c eq_refl)) as (_ & _ & ->).
    apply dropLastDash_fixed. intros d Hl. by apply isSlugChar_plain, Hlast.
  - intros d Hf. by apply isSlugChar_plain, Hfirst.
  - intros d Hl. by apply isSlugChar_plain, Hlast.
Qed.

(** Which texts are turned into the empty slug. *)
Lemma lowerChar_idem c : lowerChar (lowerChar c) = lowerChar c.
Proof. by destruct c as [[] [] [] [] [] [] [] []]. Qed.

Lemma isWhiteSpace_not_slug c : isWhiteSpace c = true -> isSlugChar (lowerChar c) = false.
Proof. by destruct c as [[] [] [] [] [] [] [] []]. Qed.

Lemma hasSlugChar_trimStart s : hasSlugChar (trimStart s) = hasSlugChar s.
Proof.
  induction s as [| c r IH]; [done |]. simpl.
  destruct (isWhiteSpace c) eqn:W; [| done].
  by rewrite (isWhiteSpace_not_slug c W).
Qed.

Lemma hasSlugChar_trimEnd s : hasSlugChar (trimEnd s) = hasSlugChar s.
Proof.
  induction s as [| c r IH]; [done |]. rewrite trimEnd_cons.
  cbn [hasSlugChar]. rewrite <- IH.
  destruct (trimEnd r) as [| d t]; [| done].
  destruct (isWhiteSpace c) eqn:W; [| done].
  by rewrite (isWhiteSpace_not_slug c W).
Qed.

Lemma hasSlugChar_toLowerCase s : hasSlugChar (toLowerCase s) = hasSlugChar s.
Proof.
  induction s as [| c r IH]; [done |]. simpl. by rewrite lowerChar_idem, IH.
Qed.

Lemma isSlugChar_lower c : isSlugChar c = true -> isSlugChar (lowerChar c) = true.
Proof. intros H. by destruct (isSlugChar_plain c H) as (_ & -> & _). Qed.

Lemma hasSlugChar_dashRuns b s :
  hasSlugChar (dashRuns b (toLowerCase s)) = hasSlugChar s.
Proof.
  revert b. induction s as [| c r IH]; intros b; [done |]. simpl.
  destruct (isSlugChar (lowerChar c)) eqn:E.
  - simpl. by rewrite lowerChar_idem, E.
  - destruct b; simpl; by rewrite IH.
Qed.

Lemma hasSlugChar_dropLastDash s : hasSlugChar (dropLastDash s) = hasSlugChar s.
Proof.
  induction s as [| c r IH]; [done |]. destruct r as [| d t].
  - simpl. by destruct (Ascii.eqb_spec c "-") as [-> | _].
  - rewrite dropLastDash_cons. cbn [hasSlugChar] in *. by rewrite IH.
Qed.

Lemma hasSlugChar_dropEdgeDashes s : hasSlugChar (dropEdgeDashes s) = hasSlugChar s.
Proof.
  unfold dropEdgeDashes. rewrite hasSlugChar_dropLastDash.
  destruct s as [| c r]; [done |].
  by destruct (Ascii.eqb_spec c "-") as [-> | _].
Qed.

Lemma hasSlugChar_toSlug value : hasSlugChar (toSlug value) = hasSlugChar value.
Proof.
  unfold toSlug, trim.
  by rewrite hasSlugChar_dropEdgeDashes, hasSlugChar_dashRuns, hasSlugChar_trimEnd,
    hasSlugChar_trimStart.
Qed.

Lemma slug_empty s : isSlug s = true -> (s = EmptyString <-> hasSlugChar s = false).
Proof.
  destruct s as [| c r]; [done |]. intros H. split; [done |].
  simpl. rewrite (isSlugChar_lower c); [done |].
  by apply (slugFrom_first (String c r)).
Qed.

(** X11. [toSlug] yields a slug - only the letters a to z, digits and
    dashes, no dash at either end and no two dashes in a row - and the
    slugs are exactly the texts it leaves as they are, so it is
    idempotent; the slug is empty exactly when the text holds no letter
    A to Z or a to z and no digit. *)
Theorem toSlug_yields_a_slug value :
  isSlug (toSlug value) = true
  /\ toSlug (toSlug value) = toSlug value
  /\ (forall s, isSlug s = true <-> toSlug s = s)
  /\ (toSlug value = EmptyString <-> hasSlugChar value = false).
Proof.
  split; [apply toSlug_slug |].
  split; [apply toSlug_fixed, toSlug_slug |].
  split.
  - intros s. split; [apply toSlug_fixed |].
    intros <-. apply toSlug_slug.
  - rewrite <- hasSlugChar_toSlug. apply slug_empty, toSlug_slug.
Qed.

End SlugFacts.

Module PropertiesFacts.
Import Js Mock BackendText PathVocabulary TextVocabulary PathFacts RouteFacts FileRoutes.

#[local] Arguments String.append !_ _ / : simpl nomatch.

Lemma comment_names_nothing trimmed :
  (String.eqb trimmed EmptyString || startsWith "#" trimmed)%bool = true ->
  namesLevel trimmed = false.
Proof.
  destruct trimmed as [| c r]; [done |].
  unfold namesLevel, startsWith. rewrite !prefix_dropPrefix.
  by destruct c as [[] [] [] [] [] [] [] []].
Qed.

Lemma level_line_split trimmed :
  namesLevel trimmed = true ->
  exists values, split "=" trimmed = "level-name" :: values
                 /\ join "=" values = levelValue trimmed.
Proof.
  unfold namesLevel, levelValue, startsWith. intros H.
  apply orb_true_iff in H as [H | H].
  - apply String.eqb_eq in H as ->. by exists [].
  - rewrite prefix_dropPrefix in H.
    destruct (dropPrefix "level-name=" trimmed) as [value |] eqn:D; [| done].
    apply dropPrefix_Some in D as ->. exists (split "=" value). split.
    + simpl. by destruct (split "=" value) eqn:E.
    + apply join_split.
Qed.

Lemma other_line_split trimmed key values :
  split "=" trimmed = key :: values ->
  String.eqb key "level-name" = false ->
  namesLevel trimmed = false.
Proof.
  intros Hsplit Hkey. destruct (namesLevel trimmed) eqn:N; [| done].
  destruct (level_line_split trimmed N) as (values' & Hs & _).
  rewrite Hs in Hsplit. injection Hsplit as <- _. done.
Qed.

Lemma levelNameOf_find lines :
  levelNameOf lines
  = match List.find namesLevel (map trim lines) with
    | Some trimmed => trim (levelValue trimmed)
    | None => EmptyString
    end.
Proof.
  induction lines as [| line rest IH]; [done |]. cbn [levelNameOf map List.find].
  destruct (String.eqb (trim line) EmptyString || startsWith "#" (trim line))%bool eqn:C.
  - by rewrite (comment_names_nothing _ C).
  - destruct (namesLevel (trim line)) eqn:N.
    + destruct (level_line_split _ N) as (values & -> & <-). done.
    + destruct (split "=" (trim line)) as [| key values] eqn:S; [done |].
      destruct (String.eqb key "level-name") eqn:K; [| done].
      apply String.eqb_eq in K as ->.
      assert (namesLevel (trim line) = true) as N'; [| congruence].
      pose proof (join_split "=" (trim line)) as J. rewrite S in J.
      unfold namesLevel, startsWith. rewrite <- J.
      destruct values as [| v vs]; [done |]. rewrite join_cons.
      apply orb_true_iff. right. rewrite prefix_dropPrefix.
      by rewrite <- append_assoc, dropPrefix_app.
Qed.

(** X12. [parseServerProperties] answers with the value of the first
    line that, once trimmed, is [level-name] or starts with
    [level-name=]: everything after that first [=], trimmed; blank lines
    and [#] comments are never such a line, and without one the answer
    is the empty text. The answer holds no white space at either end. *)
Theorem level_name_is_the_first_such_line raw :
  parseServerProperties raw
  = match List.find namesLevel (map trim (splitLines raw)) with
    | Some trimmed => trim (levelValue trimmed)
    | None => EmptyString
    end
  /\ trim (parseServerProperties raw) = parseServerProperties raw
  /\ (forall trimmed,
        (String.eqb trimmed EmptyString || startsWith "#" trimmed)%bool = true ->
        namesLevel trimmed = false).
Proof.
  unfold parseServerProperties. rewrite levelNameOf_find.
  split; [done |]. split; [| apply comment_names_nothing].
  destruct (List.find namesLevel (map trim (splitLines raw))); [| done].
  apply TrimFacts.trim_idem.
Qed.

End PropertiesFacts.

Module TextExamples.
Import Js BackendText.

Example toSlug_name : toSlug "  Nau Events: Season #2  " = "nau-events-season-2".
Proof. vm_compute. reflexivity. Qed.

Example toSlug_symbols : toSlug " *** " = EmptyString.
Proof. vm_compute. reflexivity. Qed.

Example level_name_with_equals :
  parseServerProperties
    ("# Minecraft" +:+ String "013" (String "010" "motd=hi")
     +:+ String "010" " level-name= my=world " +:+ String "010" "level-name=other")
  = "my=world".
Proof. vm_compute. reflexivity. Qed.

(** The key is compared as it stands: white space before [=] hides it. *)
Example level_name_key_is_not_trimmed :
  parseServerProperties "level-name = world" = EmptyString.
Proof. vm_compute. reflexivity. Qed.

End TextExamples.

Module HubFacts.
Import Js Backend BackendConsole ConsoleVocabulary SliceFacts.

Lemma broadcastLog_listeners id line hub :
  broadcastLog id line hub = toAll (listeners id hub) line.
Proof.
  unfold broadcastLog, listeners, subscribersOf, toAll.
  by destruct (serverSubscribers hub !! id).
Qed.

Lemma appendLog_sent id line hub :
  snd (appendLog id line hub) = toAll (listeners id hub) line.
Proof. apply broadcastLog_listeners. Qed.

Lemma appendLog_logs id line hub :
  serverLogs (store (fst (appendLog id line hub)))
  = <[id := lastLines 200 (logsOf id hub ++ [line])]> (serverLogs (store hub)).
Proof.
  unfold appendLog, logsOf, lastLines. cbn [fst store setStore setLogs serverLogs].
  f_equal. destruct (Nat.ltb_spec 200 (length (default [] (serverLogs (store hub) !! id) ++ [line])))
    as [H | H]; [done |].
  replace (_ - 200)%nat with O by lia. by rewrite drop_0.
Qed.

Lemma hub_appendLog_logsOf id line hub :
  logsOf id (fst (appendLog id line hub)) = lastLines 200 (logsOf id hub ++ [line]).
Proof. unfold logsOf at 1. by rewrite appendLog_logs, lookup_insert_eq. Qed.

Lemma hub_appendLog_other id id' line hub :
  id' <> id -> logsOf id' (fst (appendLog id line hub)) = logsOf id' hub.
Proof. intros H. unfold logsOf. by rewrite appendLog_logs, lookup_insert_ne. Qed.

Lemma appendLog_listeners id id' line hub :
  listeners id' (fst (appendLog id line hub)) = listeners id' hub.
Proof. reflexivity. Qed.

Lemma appendLog_frame id line hub :
  serverSubscribers (fst (appendLog id line hub)) = serverSubscribers hub
  /\ socketServerId (fst (appendLog id line hub)) = socketServerId hub
  /\ openSockets (fst (appendLog id line hub)) = openSockets hub
  /\ sockets (fst (appendLog id line hub)) = sockets hub
  /\ serverStates (store (fst (appendLog id line hub))) = serverStates (store hub)
  /\ servers (store (fst (appendLog id line hub))) = servers (store hub)
  /\ serversLoaded (store (fst (appendLog id line hub))) = serversLoaded (store hub).
Proof. done. Qed.

Lemma hub_capped_appendLog id line hub : capped hub -> capped (fst (appendLog id line hub)).
Proof.
  intros H id' logs. rewrite appendLog_logs.
  destruct (decide (id' = id)) as [-> | Hne].
  - rewrite lookup_insert_eq. intros [= <-]. rewrite length_lastLines. lia.
  - rewrite lookup_insert_ne by done. apply H.
Qed.

(** The command block. *)
Lemma execute_nothing serverId hub : execute serverId EmptyString hub = (hub, []).
Proof. reflexivity. Qed.

Lemma execute_lines serverId text hub :
  text <> EmptyString ->
  execute serverId text hub
  = (fst (appendLog serverId ("[INFO] Executed command: " +:+ text)
            (fst (appendLog serverId ("[CMD] " +:+ text) hub))),
     toAll (listeners serverId hub) ("[CMD] " +:+ text)
     ++ toAll (listeners serverId hub) ("[INFO] Executed command: " +:+ text)).
Proof.
  intros H%String.eqb_neq. unfold execute. rewrite H.
  destruct (appendLog serverId ("[CMD] " +:+ text) hub) as [hub1 first] eqn:E1.
  destruct (appendLog serverId ("[INFO] Executed command: " +:+ text) hub1)
    as [hub2 second] eqn:E2.
  cbn [fst]. rewrite E2. cbn [fst]. f_equal.
  change first with (snd (hub1, first)). rewrite <- E1, appendLog_sent.
  change second with (snd (hub2, second)). rewrite <- E2, appendLog_sent.
  change hub1 with (fst (hub1, first)). rewrite <- E1. done.
Qed.

Lemma execute_logsOf serverId text hub :
  text <> EmptyString ->
  logsOf serverId (fst (execute serverId text hub))
  = lastLines 200
      (logsOf serverId hub ++ ["[CMD] " +:+ text; "[INFO] Executed command: " +:+ text]).
Proof.
  intros H. rewrite (execute_lines _ _ _ H). cbn [fst].
  rewrite !hub_appendLog_logsOf, lastLines_app. by rewrite <- app_assoc.
Qed.

Lemma execute_other serverId id' text hub :
  id' <> serverId -> logsOf id' (fst (execute serverId text hub)) = logsOf id' hub.
Proof.
  intros Hne. destruct (decide (text = EmptyString)) as [-> | H]; [done |].
  rewrite (execute_lines _ _ _ H). cbn [fst]. by rewrite !hub_appendLog_other.
Qed.

Lemma execute_frame serverId text hub :
  serverSubscribers (fst (execute serverId text hub)) = serverSubscribers hub
  /\ socketServerId (fst (execute serverId text hub)) = socketServerId hub
  /\ openSockets (fst (execute serverId text hub)) = openSockets hub
  /\ sockets (fst (execute serverId text hub)) = sockets hub
  /\ serverStates (store (fst (execute serverId text hub))) = serverStates (store hub)
  /\ servers (store (fst (execute serverId text hub))) = servers (store hub)
  /\ serversLoaded (store (fst (execute serverId text hub))) = serversLoaded (store hub).
Proof.
  destruct (decide (text = EmptyString)) as [-> | H]; [done |].
  by rewrite (execute_lines _ _ _ H).
Qed.

Lemma capped_execute serverId text hub : capped hub -> capped (fst (execute serverId text hub)).
Proof.
  intros Hc. destruct (decide (text = EmptyString)) as [-> | H]; [done |].
  rewrite (execute_lines _ _ _ H). cbn [fst]. by do 2 apply hub_capped_appendLog.
Qed.

Lemma getServerById_id id s server :
  getServerById id s = Some server -> server_id server = id.
Proof.
  unfold getServerById. intros H. apply find_some in H as [_ H].
  by apply String.eqb_eq.
Qed.

Lemma onMessage_command ws data serverId hub :
  data_type data = Some "command" ->
  socketServerId hub !! ws = Some serverId ->
  serverId <> EmptyString ->
  onMessage ws (Parsed (Some data)) hub
  = execute serverId (trim (default EmptyString (data_command data))) hub.
Proof.
  intros Htype Hws Hid%String.eqb_neq. unfold onMessage. by rewrite Htype, Hws, Hid.
Qed.

Lemma commandRoute_found id text server hub :
  serversLoaded (store hub) = true ->
  getServerById id (store hub) = Some server ->
  commandRoute id text hub
  = ({| code := 200; body := BOk |},
     fst (execute id (trim (default EmptyString text)) hub),
     snd (execute id (trim (default EmptyString text)) hub)).
Proof.
  intros Hloaded Hfound. unfold commandRoute, guarded. rewrite Hloaded, Hfound.
  rewrite (getServerById_id _ _ _ Hfound). cbn [negb].
  by destruct (execute id (trim (default EmptyString text)) hub).
Qed.

(** X13. A command of a socket that has subscribed, once trimmed and
    not empty, puts the two lines [[CMD]] and [[INFO] Executed command:]
    into the buffer of the server the socket subscribed to last, keeping
    its last 200 lines, and sends each line to every open subscriber of
    that server, in the order of subscription, first the one line to all
    and then the other; no other buffer, no subscription and no state
    changes. The route [POST /api/servers/:id/command] of a configured
    server does the same and answers 200 with [{ok: true}]. *)
Theorem command_is_logged_and_broadcast ws data serverId hub :
  data_type data = Some "command" ->
  socketServerId hub !! ws = Some serverId ->
  serverId <> EmptyString ->
  trim (default EmptyString (data_command data)) <> EmptyString ->
  snd (onMessage ws (Parsed (Some data)) hub)
  = toAll (listeners serverId hub)
      ("[CMD] " +:+ trim (default EmptyString (data_command data)))
    ++ toAll (listeners serverId hub)
         ("[INFO] Executed command: " +:+ trim (default EmptyString (data_command data)))
  /\ logsOf serverId (fst (onMessage ws (Parsed (Some data)) hub))
     = lastLines 200
         (logsOf serverId hub
          ++ ["[CMD] " +:+ trim (default EmptyString (data_command data));
              "[INFO] Executed command: "
                +:+ trim (default EmptyString (data_command data))])
  /\ (forall id', id' <> serverId ->
        logsOf id' (fst (onMessage ws (Parsed (Some data)) hub)) = logsOf id' hub)
  /\ serverSubscribers (fst (onMessage ws (Parsed (Some data)) hub)) = serverSubscribers hub
  /\ socketServerId (fst (onMessage ws (Parsed (Some data)) hub)) = socketServerId hub
  /\ serverStates (store (fst (onMessage ws (Parsed (Some data)) hub)))
     = serverStates (store hub)
  /\ (forall server,
        serversLoaded (store hub) = true ->
        getServerById serverId (store hub) = Some server ->
        commandRoute serverId (data_command data) hub
        = ({| code := 200; body := BOk |},
           fst (onMessage ws (Parsed (Some data)) hub),
           snd (onMessage ws (Parsed (Some data)) hub))).
Proof.
  intros Htype Hws Hid Htext.
  rewrite (onMessage_command _ _ _ _ Htype Hws Hid).
  split; [by rewrite (execute_lines _ _ _ Htext) |].
  split; [by apply execute_logsOf |].
  split; [intros id' Hne; by apply execute_other |].
  pose proof (execute_frame serverId (trim (default EmptyString (data_command data))) hub)
    as (H1 & H2 & _ & _ & H5 & _).
  split; [exact H1 |]. split; [exact H2 |]. split; [exact H5 |].
  intros server Hloaded Hfound. by apply commandRoute_found with server.
Qed.

Lemma command_is_logged_and_broadcast_witness :
  snd (onMessage 0 (command " say hello ") oneListener)
  = toAll (listeners "survival" oneListener) "[CMD] say hello"
    ++ toAll (listeners "survival" oneListener) "[INFO] Executed command: say hello".
Proof.
  refine (proj1
    (command_is_logged_and_broadcast 0
       {| data_type := Some "command"; data_serverId := None; data_limit := None;
          data_command := Some " say hello " |} "survival" oneListener _ _ _ _)).
  - reflexivity.
  - reflexivity.
  - discriminate.
  - vm_compute. discriminate.
Defined.


(** The sets of subscribers. *)
Lemma has_In client set : has client set = true <-> In client set.
Proof.
  unfold has. rewrite existsb_exists. split.
  - intros (x & Hx & ->%Nat.eqb_eq). done.
  - intros H. exists client. by rewrite Nat.eqb_refl.
Qed.

Lemma In_add client set : In client (add client set).
Proof.
  unfold add. destruct (has client set) eqn:E; [by apply has_In |].
  apply in_or_app. right. by left.
Qed.

Lemma In_add_mono client other set : In other set -> In other (add client set).
Proof.
  intros H. unfold add. destruct (has client set); [done |].
  apply in_or_app. by left.
Qed.

Lemma NoDup_add client set : List.NoDup set -> List.NoDup (add client set).
Proof.
  intros H. unfold add. destruct (has client set) eqn:E; [done |].
  apply List.NoDup_app; [done | repeat constructor; by intros [] |].
  intros a Ha [<- | []]. apply has_In in Ha. congruence.
Qed.

Lemma In_delete client other set :
  In other (delete client set) <-> In other set /\ other <> client.
Proof.
  unfold delete. rewrite filter_In, negb_true_iff, Nat.eqb_neq. done.
Qed.

Lemma NoDup_delete client set : List.NoDup set -> List.NoDup (delete client set).
Proof. apply List.NoDup_filter. Qed.

(** A subscription. *)
Lemma onMessage_subscribe ws data hub :
  data_type data = Some "subscribe" ->
  trim (default EmptyString (data_serverId data)) <> EmptyString ->
  onMessage ws (Parsed (Some data)) hub
  = ({| store := store hub;
        serverSubscribers :=
          <[trim (default EmptyString (data_serverId data)) :=
              add ws (subscribersOf (trim (default EmptyString (data_serverId data))) hub)]>
            (serverSubscribers hub);
        socketServerId :=
          <[ws := trim (default EmptyString (data_serverId data))]> (socketServerId hub);
        openSockets := openSockets hub; sockets := sockets hub |},
     [(ws, Logs (slice (neg (clamp (default (num 50) (data_limit data))))
                   (logsOf (trim (default EmptyString (data_serverId data))) hub)))]).
Proof.
  intros Htype Hid%String.eqb_neq. unfold onMessage. by rewrite Htype, Hid.
Qed.

Lemma clamp_atLeastOne limitParam : Vocabulary.atLeastOne (clamp limitParam).
Proof.
  unfold clamp. destruct limitParam as [| | | q]; simpl; try done.
  destruct (Qle_bool (inject_Z 1) q) eqn:E; simpl; done.
Qed.

Lemma clamp_num n : clamp (num n) = num (Z.max 1 n).
Proof.
  unfold clamp, num. simpl. unfold Qle_bool. simpl.
  destruct (Z.leb_spec (1 * 1) (n * 1)); [rewrite Z.max_r | rewrite Z.max_l]; done || lia.
Qed.

Lemma slice_tail (limit : JsNumber) (l : list string) :
  Vocabulary.atLeastOne limit ->
  exists front, l = front ++ slice (neg limit) l /\ (l <> [] -> slice (neg limit) l <> []).
Proof.
  intros H. rewrite (LogsLimit.slice_atLeastOne _ _ H), lastLines_min.
  destruct (lastLines_suffix (Vocabulary.lineCount limit (length l)) l) as [front Hfront].
  exists front. split; [done |].
  intros Hl Hnil. apply (f_equal length) in Hnil. rewrite length_lastLines in Hnil.
  assert (1 <= Vocabulary.lineCount limit (length l))%nat as Hone.
  { destruct limit as [| | | q]; simpl in *; try done.
    - destruct l; [done | cbn [length]; lia].
    - apply truncate_ge_1 in H. lia. }
  destruct l; [done |]. cbn [length] in *. lia.
Qed.

(** X14. A subscription with a server name that is not blank once
    trimmed is answered to the subscribing socket alone, with one [logs]
    message that holds a tail of that server's buffer: its last 50 lines
    without a limit, its last [max 1 n] lines for the whole number [n],
    and never nothing of a buffer that holds lines. The socket joins the
    subscribers of that server and that server becomes the target of its
    commands; nobody, the socket included, leaves any set of subscribers,
    and no buffer changes. The name is not looked up among the
    configured servers. *)
Theorem subscription_sends_the_tail_and_only_adds ws data hub :
  data_type data = Some "subscribe" ->
  trim (default EmptyString (data_serverId data)) <> EmptyString ->
  (exists front tail,
      snd (onMessage ws (Parsed (Some data)) hub) = [(ws, Logs tail)]
      /\ logsOf (trim (default EmptyString (data_serverId data))) hub = front ++ tail
      /\ (logsOf (trim (default EmptyString (data_serverId data))) hub <> [] -> tail <> []))
  /\ (data_limit data = None ->
      snd (onMessage ws (Parsed (Some data)) hub)
      = [(ws, Logs (lastLines 50
                      (logsOf (trim (default EmptyString (data_serverId data))) hub)))])
  /\ (forall n, data_limit data = Some (num n) ->
      snd (onMessage ws (Parsed (Some data)) hub)
      = [(ws, Logs (lastLines (Z.to_nat (Z.max 1 n))
                      (logsOf (trim (default EmptyString (data_serverId data))) hub)))])
  /\ In ws (subscribersOf (trim (default EmptyString (data_serverId data)))
              (fst (onMessage ws (Parsed (Some data)) hub)))
  /\ (forall id client,
        In client (subscribersOf id hub) ->
        In client (subscribersOf id (fst (onMessage ws (Parsed (Some data)) hub))))
  /\ socketServerId (fst (onMessage ws (Parsed (Some data)) hub)) !! ws
     = Some (trim (default EmptyString (data_serverId data)))
  /\ store (fst (onMessage ws (Parsed (Some data)) hub)) = store hub.
Proof.
  intros Htype Hid. rewrite (onMessage_subscribe _ _ _ Htype Hid). cbn [fst snd].
  set (serverId := trim (default EmptyString (data_serverId data))).
  split.
  { destruct (slice_tail (clamp (default (num 50) (data_limit data))) (logsOf serverId hub)
                (clamp_atLeastOne _)) as (front & Hfront & Hsome).
    by exists front, (slice (neg (clamp (default (num 50) (data_limit data))))
                        (logsOf serverId hub)). }
  split.
  { intros ->. change (default (num 50) None) with (num 50).
    rewrite clamp_num. by rewrite slice_neg_num. }
  split.
  { intros n ->. change (default (num 50) (Some (num n))) with (num n).
    rewrite clamp_num. rewrite slice_neg_num; [done | lia]. }
  split.
  { unfold subscribersOf at 1. cbn [serverSubscribers].
    rewrite lookup_insert_eq. apply In_add. }
  split.
  { intros id client H. unfold subscribersOf at 1. cbn [serverSubscribers].
    destruct (decide (id = serverId)) as [-> | Hne].
    - rewrite lookup_insert_eq. by apply In_add_mono.
    - by rewrite lookup_insert_ne. }
  split; [| done].
  cbn [socketServerId]. apply lookup_insert_eq.
Qed.

Lemma subscription_sends_the_tail_and_only_adds_witness :
  In 0%nat (subscribersOf "survival" oneListener).
Proof.
  refine (proj1 (proj2 (proj2 (proj2
    (subscription_sends_the_tail_and_only_adds 0
       {| data_type := Some "subscribe"; data_serverId := Some " survival ";
          data_limit := None; data_command := None |}
       (snd (onConnection started)) _ _))))).
  - reflexivity.
  - vm_compute. discriminate.
Defined.


Lemma subscribe_hub ws serverId limit hub :
  trim serverId <> EmptyString ->
  fst (onMessage ws (subscribe serverId limit) hub)
  = {| store := store hub;
       serverSubscribers :=
         <[trim serverId := add ws (subscribersOf (trim serverId) hub)]> (serverSubscribers hub);
       socketServerId := <[ws := trim serverId]> (socketServerId hub);
       openSockets := openSockets hub; sockets := sockets hub |}.
Proof.
  intros H. unfold subscribe.
  by rewrite (onMessage_subscribe ws
                {| data_type := Some "subscribe"; data_serverId := Some serverId;
                   data_limit := limit; data_command := None |} hub eq_refl H).
Qed.

Lemma In_listeners client id hub :
  In client (listeners id hub) <-> In client (subscribersOf id hub) /\ client ∈ openSockets hub.
Proof.
  unfold listeners, isOpen. rewrite filter_In. by rewrite bool_decide_eq_true.
Qed.

Lemma In_toAll client line clients :
  In (client, Log line) (toAll clients line) <-> In client clients.
Proof.
  unfold toAll. rewrite in_map_iff. split.
  - by intros (x & [= ->] & H).
  - intros H. by exists client.
Qed.

(** X15. Subscribing to a second server does not end the first
    subscription: a socket that subscribes to [a] and then to [b] is a
    subscriber of both, is sent the lines of both while it is open, and
    has [b] as the target of its commands. When it closes it is taken
    out of the subscribers of [b] alone: it stays listed under [a], and
    is sent nothing more because it is no longer open. *)
Theorem earlier_subscription_survives ws a b limit limit' line hub :
  trim a <> EmptyString ->
  trim b <> EmptyString ->
  trim a <> trim b ->
  ws ∈ openSockets hub ->
  In (ws, Log line)
    (broadcastLog (trim a) line
       (fst (onMessage ws (subscribe b limit') (fst (onMessage ws (subscribe a limit) hub)))))
  /\ In (ws, Log line)
       (broadcastLog (trim b) line
          (fst (onMessage ws (subscribe b limit') (fst (onMessage ws (subscribe a limit) hub)))))
  /\ socketServerId
       (fst (onMessage ws (subscribe b limit') (fst (onMessage ws (subscribe a limit) hub))))
       !! ws = Some (trim b)
  /\ In ws (subscribersOf (trim a)
              (onClose ws
                 (fst (onMessage ws (subscribe b limit')
                         (fst (onMessage ws (subscribe a limit) hub))))))
  /\ ~ In ws (subscribersOf (trim b)
                (onClose ws
                   (fst (onMessage ws (subscribe b limit')
                           (fst (onMessage ws (subscribe a limit) hub))))))
  /\ (forall id text,
        ~ In ws (map fst
                   (broadcastLog id text
                      (onClose ws
                         (fst (onMessage ws (subscribe b limit')
                                 (fst (onMessage ws (subscribe a limit) hub)))))))).
Proof.
  intros Ha Hb Hab Hopen.
  rewrite (subscribe_hub ws b limit' _ Hb), (subscribe_hub ws a limit hub Ha).
  set (hub2 := {| store := _; serverSubscribers := _; socketServerId := _;
                  openSockets := _; sockets := _ |}).
  assert (In ws (subscribersOf (trim a) hub2)) as Hina.
  { unfold subscribersOf, hub2. cbn [serverSubscribers].
    rewrite lookup_insert_ne by done. unfold subscribersOf. cbn [serverSubscribers].
    rewrite lookup_insert_eq. apply In_add. }
  assert (In ws (subscribersOf (trim b) hub2)) as Hinb.
  { unfold subscribersOf, hub2. cbn [serverSubscribers].
    rewrite lookup_insert_eq. apply In_add. }
  assert (socketServerId hub2 !! ws = Some (trim b)) as Hws
    by apply lookup_insert_eq.
  assert (is_Some (serverSubscribers hub2 !! trim b)) as [subscribers Hsub]
    by (unfold hub2; cbn [serverSubscribers]; rewrite lookup_insert_eq; by eexists).
  assert (onClose ws hub2
          = {| store := store hub2;
               serverSubscribers := <[trim b := delete ws subscribers]> (serverSubscribers hub2);
               socketServerId := socketServerId hub2;
               openSockets := openSockets hub2 ∖ {[ws]}; sockets := sockets hub2 |}) as Hclose.
  { unfold onClose. cbn [socketServerId serverSubscribers]. fold (socketServerId hub2).
    rewrite Hws. apply String.eqb_neq in Hb as ->.
    fold (serverSubscribers hub2). by rewrite Hsub. }
  split; [rewrite broadcastLog_listeners; by apply In_toAll, In_listeners |].
  split; [rewrite broadcastLog_listeners; by apply In_toAll, In_listeners |].
  split; [exact Hws |].
  rewrite Hclose. split.
  { unfold subscribersOf at 1. cbn [serverSubscribers].
    by rewrite lookup_insert_ne by done. }
  split.
  { unfold subscribersOf. cbn [serverSubscribers]. rewrite lookup_insert_eq.
    cbn [default]. intros [_ H]%In_delete. done. }
  intros id text. rewrite broadcastLog_listeners. intros (x & Hx & Hin)%in_map_iff.
  destruct x as [client payload]. simpl in Hx. subst client.
  unfold toAll in Hin. apply in_map_iff in Hin as (client & [= -> _] & Hin).
  apply In_listeners in Hin as [_ Hin]. cbn [openSockets] in Hin.
  apply elem_of_difference in Hin as [_ Hin]. apply Hin. by apply elem_of_singleton.
Qed.

Lemma earlier_subscription_survives_witness :
  In (0%nat, Log "[INFO] Server started")
    (broadcastLog "survival" "[INFO] Server started"
       (fst (onMessage 0 (subscribe "creative" None)
               (fst (onMessage 0 (subscribe "survival" None) (snd (onConnection started))))))).
Proof.
  refine (proj1
    (earlier_subscription_survives 0 "survival" "creative" None None
       "[INFO] Server started" (snd (onConnection started)) _ _ _ _)).
  - vm_compute. discriminate.
  - vm_compute. discriminate.
  - vm_compute. discriminate.
  - simpl. apply elem_of_union_l. by apply elem_of_singleton.
Defined.


(** What a step sends, and to whom. *)
Lemma execute_sent serverId text hub client payload :
  In (client, payload) (snd (execute serverId text hub)) ->
  In client (listeners serverId hub) /\ exists line, payload = Log line.
Proof.
  destruct (decide (text = EmptyString)) as [-> | H]; [done |].
  rewrite (execute_lines _ _ _ H). cbn [snd]. unfold toAll.
  intros [Hin | Hin]%in_app_or; apply in_map_iff in Hin as (x & [= -> <-] & Hx);
    (split; [done | by eexists]).
Qed.

Lemma onMessage_cases ws raw hub :
  onMessage ws raw hub = (hub, [])
  \/ (exists data,
        raw = Parsed (Some data) /\ data_type data = Some "subscribe"
        /\ trim (default EmptyString (data_serverId data)) <> EmptyString)
  \/ (exists serverId text,
        socketServerId hub !! ws = Some serverId
        /\ onMessage ws raw hub = execute serverId text hub).
Proof.
  unfold onMessage. destruct raw as [| [data |]]; [by left | | by left].
  destruct (data_type data) as [type |] eqn:Htype; [| by left]. cbv zeta.
  change (default EmptyString (Some type)) with type.
  destruct (String.eqb type EmptyString); [by left |].
  destruct (String.eqb_spec type "subscribe") as [-> | _].
  - destruct (String.eqb_spec (trim (default EmptyString (data_serverId data))) EmptyString)
      as [_ | Hid]; [by left |].
    right. left. by exists data.
  - destruct (String.eqb type "command"); [| by left].
    destruct (socketServerId hub !! ws) as [serverId |] eqn:Hws; [| by left].
    destruct (String.eqb serverId EmptyString); [by left |].
    right. right. by eexists _, _.
Qed.

Lemma guarded_cases id hub handler :
  guarded id hub handler
  = ({| code := 500; body := BError "No servers configured." |}, hub, [])
  \/ guarded id hub handler
     = ({| code := 404; body := BError "Server not found." |}, hub, [])
  \/ (exists server,
        serversLoaded (store hub) = true /\ getServerById id (store hub) = Some server
        /\ server_id server = id /\ guarded id hub handler = handler server).
Proof.
  unfold guarded. destruct (serversLoaded (store hub)); [| by left]. cbn [negb].
  destruct (getServerById id (store hub)) as [server |] eqn:E; [| right; by left].
  right. right. exists server. by rewrite (getServerById_id _ _ _ E).
Qed.

Lemma lifecycleRoute_cases action now id hub :
  snd (fst (lifecycleRoute action now id hub)) = hub /\ snd (lifecycleRoute action now id hub) = []
  \/ exists s,
       serverLogs s = serverLogs (store hub)
       /\ snd (fst (lifecycleRoute action now id hub))
          = fst (appendLog id (lineOf action) (setStore s hub))
       /\ snd (lifecycleRoute action now id hub)
          = snd (appendLog id (lineOf action) (setStore s hub)).
Proof.
  unfold lifecycleRoute.
  match goal with
  | |- context [guarded id hub ?handler] =>
      destruct (guarded_cases id hub handler)
        as [-> | [-> | (server & _ & _ & Hid & ->)]]; [by left | by left |]
  end.
  right. rewrite Hid.
  destruct (getServerState id (store hub)) as [state s] eqn:E.
  exists (setStates (<[id := {| status := statusOf action; lastAction := Some action;
                               lastActionAt := Some now |}]> (serverStates s)) s).
  split; [| done].
  unfold getServerState in E. by destruct (serverStates (store hub) !! id); injection E as _ <-.
Qed.

Lemma commandRoute_cases id text hub :
  snd (fst (commandRoute id text hub)) = hub /\ snd (commandRoute id text hub) = []
  \/ snd (fst (commandRoute id text hub)) = fst (execute id (trim (default EmptyString text)) hub)
     /\ snd (commandRoute id text hub) = snd (execute id (trim (default EmptyString text)) hub).
Proof.
  unfold commandRoute.
  match goal with
  | |- context [guarded id hub ?handler] =>
      destruct (guarded_cases id hub handler)
        as [-> | [-> | (server & _ & _ & Hid & ->)]]; [by left | by left |]
  end.
  right. rewrite Hid. by destruct (execute id (trim (default EmptyString text)) hub).
Qed.

Lemma logsRoute_hub id limit hub :
  snd (fst (logsRoute id limit hub)) = hub /\ snd (logsRoute id limit hub) = [].
Proof.
  unfold logsRoute.
  match goal with
  | |- context [guarded id hub ?handler] =>
      by destruct (guarded_cases id hub handler)
        as [-> | [-> | (server & _ & _ & Hid & ->)]]
  end.
Qed.


Lemma step_lifecycle action now id hub :
  step (Lifecycle action now id) hub
  = (snd (fst (lifecycleRoute action now id hub)), snd (lifecycleRoute action now id hub)).
Proof. simpl. by destruct (lifecycleRoute action now id hub) as [[response hub'] sent]. Qed.

Lemma step_logs id limit hub : step (GetLogs id limit) hub = (hub, []).
Proof.
  simpl. destruct (logsRoute_hub id limit hub) as [H1 H2].
  destruct (logsRoute id limit hub) as [[response hub'] sent]. simpl in *. congruence.
Qed.

Lemma step_command id text hub :
  step (PostCommand id text) hub
  = (snd (fst (commandRoute id text hub)), snd (commandRoute id text hub)).
Proof. simpl. by destruct (commandRoute id text hub) as [[response hub'] sent]. Qed.

Lemma onClose_frame ws hub :
  store (onClose ws hub) = store hub
  /\ openSockets (onClose ws hub) = openSockets hub ∖ {[ws]}
  /\ sockets (onClose ws hub) = sockets hub
  /\ (serverSubscribers (onClose ws hub) = serverSubscribers hub
      \/ exists serverId subscribers,
           serverSubscribers hub !! serverId = Some subscribers
           /\ serverSubscribers (onClose ws hub)
              = <[serverId := delete ws subscribers]> (serverSubscribers hub)).
Proof.
  unfold onClose. cbn [socketServerId serverSubscribers].
  destruct (socketServerId hub !! ws) as [serverId |]; [| by auto].
  destruct (String.eqb serverId EmptyString); [by auto |].
  destruct (serverSubscribers hub !! serverId) as [subscribers |] eqn:E; [| by auto].
  repeat split; try done. right. by exists serverId, subscribers.
Qed.

(** What a step keeps. *)
Lemma capped_setStore s hub :
  serverLogs s = serverLogs (store hub) -> capped hub -> capped (setStore s hub).
Proof. intros H Hc id logs. cbn [store setStore]. rewrite H. apply Hc. Qed.

Lemma capped_same hub hub' : store hub' = store hub -> capped hub -> capped hub'.
Proof. intros H Hc id logs. rewrite H. apply Hc. Qed.

Lemma capped_step e hub : capped hub -> capped (fst (step e hub)).
Proof.
  intros Hc. destruct e as [data | | ws raw | ws | ws | action now id | id limit | id text].
  - by apply capped_setStore.
  - by apply (capped_same hub).
  - cbn [step]. destruct (onMessage_cases ws raw hub)
      as [-> | [(data & -> & Htype & Hid) | (serverId & text & _ & ->)]].
    + done.
    + rewrite (onMessage_subscribe _ _ _ Htype Hid). by apply (capped_same hub).
    + by apply capped_execute.
  - by apply (capped_same hub).
  - cbn [step fst]. apply (capped_same hub); [apply onClose_frame | done].
  - rewrite step_lifecycle. cbn [fst].
    destruct (lifecycleRoute_cases action now id hub) as [[-> _] | (s & Hs & -> & _)]; [done |].
    by apply hub_capped_appendLog, capped_setStore.
  - by rewrite step_logs.
  - rewrite step_command. cbn [fst].
    destruct (commandRoute_cases id text hub) as [[-> _] | [-> _]]; [done |].
    by apply capped_execute.
Qed.

Lemma NoDup_subscribersOf_insert id id' set hub hub' :
  serverSubscribers hub' = <[id' := set]> (serverSubscribers hub) ->
  List.NoDup set ->
  List.NoDup (subscribersOf id hub) -> List.NoDup (subscribersOf id hub').
Proof.
  intros H Hset Hold. unfold subscribersOf. rewrite H.
  destruct (decide (id = id')) as [-> | Hne].
  - by rewrite lookup_insert_eq.
  - by rewrite lookup_insert_ne.
Qed.

Lemma NoDup_same id hub hub' :
  serverSubscribers hub' = serverSubscribers hub ->
  List.NoDup (subscribersOf id hub) -> List.NoDup (subscribersOf id hub').
Proof. intros H. unfold subscribersOf. by rewrite H. Qed.

Lemma NoDup_step e hub :
  (forall id, List.NoDup (subscribersOf id hub)) ->
  forall id, List.NoDup (subscribersOf id (fst (step e hub))).
Proof.
  intros Hn id.
  destruct e as [data | | ws raw | ws | ws | action now id' | id' limit | id' text].
  - by apply (NoDup_same id hub).
  - by apply (NoDup_same id hub).
  - cbn [step]. destruct (onMessage_cases ws raw hub)
      as [-> | [(data & -> & Htype & Hid) | (serverId & text & _ & ->)]].
    + done.
    + rewrite (onMessage_subscribe _ _ _ Htype Hid). cbn [fst].
      eapply (NoDup_subscribersOf_insert id _ _ hub); [reflexivity | | done].
      by apply NoDup_add.
    + apply (NoDup_same id hub); [apply execute_frame | done].
  - by apply (NoDup_same id hub).
  - cbn [step fst]. destruct (onClose_frame ws hub)
      as (_ & _ & _ & [H | (serverId & subscribers & Hsub & H)]).
    + by apply (NoDup_same id hub).
    + eapply (NoDup_subscribersOf_insert id _ _ hub); [exact H | | done].
      apply NoDup_delete. specialize (Hn serverId). unfold subscribersOf in Hn.
      by rewrite Hsub in Hn.
  - rewrite step_lifecycle. cbn [fst].
    destruct (lifecycleRoute_cases action now id' hub) as [[-> _] | (s & Hs & -> & _)]; [done |].
    by apply (NoDup_same id hub).
  - by rewrite step_logs.
  - rewrite step_command. cbn [fst].
    destruct (commandRoute_cases id' text hub) as [[-> _] | [-> _]]; [done |].
    apply (NoDup_same id hub); [apply execute_frame | done].
Qed.

Ltac quiet := cbn [step fst snd]; repeat split; try done; by intros ? [].

Lemma closed_step ws e hub :
  silent ws e = true ->
  ws ∉ openSockets hub -> (ws < sockets hub)%nat ->
  (ws ∉ openSockets (fst (step e hub)))
  /\ (ws < sockets (fst (step e hub)))%nat
  /\ forall payload, ~ In (ws, payload) (snd (step e hub)).
Proof.
  intros Hsilent Hclosed Hold.
  destruct e as [data | | from raw | from | from | action now id | id limit | id text].
  - quiet.
  - cbn [step fst snd onConnection openSockets sockets].
    split; [| split; [lia | by intros payload []]].
    intros [H%elem_of_singleton | H]%elem_of_union; [lia | done].
  - cbn [step]. cbn [silent] in Hsilent. apply negb_true_iff, Nat.eqb_neq in Hsilent.
    destruct (onMessage_cases from raw hub)
      as [-> | [(data & -> & Htype & Hid) | (serverId & text & _ & ->)]].
    + quiet.
    + rewrite (onMessage_subscribe _ _ _ Htype Hid). cbn [fst snd openSockets sockets].
      repeat split; try done. intros payload [[= H _] | []]. done.
    + destruct (execute_frame serverId text hub) as (_ & _ & -> & -> & _).
      repeat split; try done. intros payload [H _]%execute_sent.
      by apply In_listeners in H as [_ H].
  - cbn [step fst snd onClosing openSockets sockets].
    split; [| split; [done | by intros payload []]].
    intros [H _]%elem_of_difference. done.
  - cbn [step fst snd]. destruct (onClose_frame from hub) as (_ & -> & -> & _).
    split; [| split; [done | by intros payload []]].
    intros [H _]%elem_of_difference. done.
  - rewrite step_lifecycle. cbn [fst snd].
    destruct (lifecycleRoute_cases action now id hub)
      as [[-> ->] | (s & Hs & -> & ->)]; [quiet |].
    destruct (appendLog_frame id (lineOf action) (setStore s hub)) as (_ & _ & -> & -> & _).
    repeat split; try done. intros payload. rewrite appendLog_sent.
    intros (x & [= <- _] & H)%in_map_iff. by apply In_listeners in H as [_ H].
  - rewrite step_logs. quiet.
  - rewrite step_command. cbn [fst snd].
    destruct (commandRoute_cases id text hub) as [[-> ->] | [-> ->]]; [quiet |].
    destruct (execute_frame id (trim (default EmptyString text)) hub)
      as (_ & _ & -> & -> & _).
    repeat split; try done. intros payload [H _]%execute_sent.
    by apply In_listeners in H as [_ H].
Qed.

(** Runs. *)
Lemma run_from events hub sent :
  fold_left
    (fun '(hub, sent) e => let '(hub', more) := step e hub in (hub', sent ++ more))
    events (hub, sent)
  = (fst (run events hub), sent ++ snd (run events hub)).
Proof.
  revert hub sent. induction events as [| e events IH]; intros hub sent.
  - simpl. by rewrite app_nil_r.
  - unfold run. simpl. destruct (step e hub) as [hub' more].
    rewrite !IH. cbn [fst snd]. by rewrite app_assoc.
Qed.

Lemma run_cons e events hub :
  run (e :: events) hub
  = (fst (run events (fst (step e hub))),
     snd (step e hub) ++ snd (run events (fst (step e hub)))).
Proof.
  unfold run at 1. simpl. destruct (step e hub) as [hub' more].
  by rewrite run_from.
Qed.

Lemma capped_run events hub : capped hub -> capped (fst (run events hub)).
Proof.
  revert hub. induction events as [| e events IH]; intros hub H; [done |].
  rewrite run_cons. cbn [fst]. by apply IH, capped_step.
Qed.

Lemma NoDup_run events hub :
  (forall id, List.NoDup (subscribersOf id hub)) ->
  forall id, List.NoDup (subscribersOf id (fst (run events hub))).
Proof.
  revert hub. induction events as [| e events IH]; intros hub H; [done |].
  rewrite run_cons. cbn [fst]. by apply IH, NoDup_step.
Qed.

Lemma closed_run ws events hub :
  forallb (silent ws) events = true ->
  ws ∉ openSockets hub -> (ws < sockets hub)%nat ->
  forall payload, ~ In (ws, payload) (snd (run events hub)).
Proof.
  revert hub. induction events as [| e events IH]; intros hub Hs Hc Ho payload; [by intros [] |].
  cbn [forallb] in Hs. apply andb_true_iff in Hs as [He Hs].
  destruct (closed_step ws e hub He Hc Ho) as (Hc' & Ho' & Hsent).
  rewrite run_cons. cbn [snd]. intros [H | H]%in_app_or.
  - by apply (Hsent payload).
  - by apply (IH _ Hs Hc' Ho' payload).
Qed.

(** X16. A socket that has closed is sent nothing more: after the close
    handler of an accepted socket has run, whatever happens next -
    configuration, connections, messages and closes of other sockets,
    and calls of the routes - no payload is sent to it, although it may
    still be listed as a subscriber. *)
Theorem closed_socket_is_sent_nothing ws events hub :
  (ws < sockets hub)%nat ->
  forallb (silent ws) events = true ->
  forall payload, ~ In (ws, payload) (snd (run events (onClose ws hub))).
Proof.
  intros Hold Hsilent. destruct (onClose_frame ws hub) as (_ & Hopen & Hsockets & _).
  apply closed_run; [done | | by rewrite Hsockets].
  rewrite Hopen. intros [_ H]%elem_of_difference. apply H. by apply elem_of_singleton.
Qed.

Lemma closed_socket_is_sent_nothing_witness :
  forallb (silent 0)
    [Connection; Message 1 (subscribe "survival" None); Message 1 (command "list")] = true
  /\ ~ In (0%nat, Log "[CMD] list")
         (snd (run [Connection; Message 1 (subscribe "survival" None);
                    Message 1 (command "list")]
                 (onClose 0 oneListener))).
Proof.
  split; [reflexivity |].
  apply (closed_socket_is_sent_nothing 0
           [Connection; Message 1 (subscribe "survival" None); Message 1 (command "list")]
           oneListener).
  - vm_compute. lia.
  - reflexivity.
Defined.

(** X17. Whatever happens from the start of the process, no buffer
    grows beyond 200 lines, no socket is listed twice among the
    subscribers of a server, and the tail answered by [GET
    /api/servers/:id/logs] holds at most 200 lines. *)
Theorem buffers_stay_capped events :
  capped (fst (run events started))
  /\ (forall id, List.NoDup (subscribersOf id (fst (run events started))))
  /\ (forall id limit logs,
        body (fst (fst (logsRoute id limit (fst (run events started))))) = BLogs logs ->
        (length logs <= 200)%nat).
Proof.
  assert (capped (fst (run events started))) as Hc by (by apply capped_run).
  split; [exact Hc |].
  split; [apply NoDup_run; intros id; constructor |].
  intros id limit logs. unfold logsRoute, guarded.
  destruct (negb _); [done |].
  destruct (getServerById _ _) as [server |]; [| done].
  cbn [fst body]. intros [= <-].
  etransitivity; [apply length_slice |].
  unfold logsOf. destruct (serverLogs _ !! _) as [logs |] eqn:E; [by apply (Hc _ _ E) |].
  simpl. lia.
Qed.

End HubFacts.

Module MockFidelity.
Import Js Backend BackendConsole ConsoleVocabulary SliceFacts HubFacts.

Lemma Number_50 : Number "50" = num 50.
Proof. vm_compute. reflexivity. Qed.

Lemma logsLimit_clamp text :
  Mock.logsLimit text
  = clamp match text with Some t => Number t | None => num 50 end.
Proof.
  unfold Mock.logsLimit, clamp. destruct text as [t |]; [done |].
  change (default "50" None) with "50". by rewrite Number_50.
Qed.

Lemma statusAfter_statusOf a : Vocabulary.statusAfter a = statusOf a.
Proof. by destruct a. Qed.

Lemma lineOf_same a : Vocabulary.lineOf a = lineOf a.
Proof. by destruct a. Qed.

Lemma mock_state_after_append id line m :
  fst (Mock.getServerState id (Mock.appendLog id line m)) = fst (Mock.getServerState id m).
Proof.
  unfold Mock.getServerState. rewrite StoreFacts.appendLog_states.
  by destruct (Mock.serverStates m !! id).
Qed.

Lemma mock_state_after_read id m :
  fst (Mock.getServerState id (snd (Mock.getServerState id m))) = fst (Mock.getServerState id m).
Proof.
  rewrite (StoreFacts.getServerState_present id _ _ (StoreFacts.getServerState_lookup id m)).
  done.
Qed.

Lemma mock_logs_after_read id m :
  Mock.logsOf id (snd (Mock.getServerState id m)) = Mock.logsOf id m.
Proof. unfold Mock.logsOf. by rewrite StoreFacts.getServerState_logs. Qed.

Lemma hub_state_after_execute id text hub :
  fst (getServerState id (store (fst (execute id text hub))))
  = fst (getServerState id (store hub)).
Proof.
  unfold getServerState.
  destruct (execute_frame id text hub) as (_ & _ & _ & _ & -> & _).
  by destruct (serverStates (store hub) !! id).
Qed.

(** X18. The mock interceptor answers as the backend does on the
    lifecycle, command and logs routes: when a seeded mock store and a
    hub with its configuration loaded know the server and show the same
    buffer and the same state for it, then [POST start], [stop] or
    [restart] at the same time answer 200 with the same state, [POST
    command] with the same text answers 200 [{ok: true}] on both sides,
    and after either call the two still show the same buffer and state;
    [GET logs] with the same [limit] answers 200 with the same lines. *)
Theorem mock_answers_as_the_backend now req m hub id mserver server :
  Vocabulary.seeded m ->
  Vocabulary.findServer id = Some mserver ->
  serversLoaded (store hub) = true ->
  getServerById id (store hub) = Some server ->
  inStep id m hub ->
  (forall a,
     Mock.matchRoute (Mock.pathname req) = Some (id, Some (Vocabulary.actionName a)) ->
     exists state,
       fst (Mock.mockApiInterceptor now req m)
       = Mock.Respond 200 (Mock.BServerState mserver state)
       /\ fst (fst (lifecycleRoute a now id hub))
          = {| code := 200; body := BServerState server state |}
       /\ inStep id (snd (Mock.mockApiInterceptor now req m))
            (snd (fst (lifecycleRoute a now id hub))))
  /\ (Mock.matchRoute (Mock.pathname req) = Some (id, Some "command") ->
      Mock.method req = "POST" ->
      fst (Mock.mockApiInterceptor now req m) = Mock.Respond 200 Mock.BOk
      /\ fst (fst (commandRoute id (Mock.bodyField "command" req) hub))
         = {| code := 200; body := BOk |}
      /\ inStep id (snd (Mock.mockApiInterceptor now req m))
           (snd (fst (commandRoute id (Mock.bodyField "command" req) hub))))
  /\ (Mock.matchRoute (Mock.pathname req) = Some (id, Some "logs") ->
      Mock.method req = "GET" ->
      exists logs,
        fst (Mock.mockApiInterceptor now req m) = Mock.Respond 200 (Mock.BLogs logs)
        /\ fst (fst (logsRoute id (Mock.searchParam "limit" req) hub))
           = {| code := 200; body := BLogs logs |}).
Proof.
  intros Hseeded Hmock Hloaded Hfound [Hlogs Hstate].
  pose proof (FileRoutes.seedAll_fixed m Hseeded) as Hfixed.
  pose proof (getServerById_id _ _ _ Hfound) as Hid.
  split; [| split].
  - intros a Hroute.
    exists {| status := statusOf a; lastAction := Some a; lastActionAt := Some now |}.
    rewrite (RouteFacts.interceptor_route _ _ _ _ _ Hroute), Hmock, Hfixed,
      RouteFacts.serverRoute_lifecycle, statusAfter_statusOf.
    unfold lifecycleRoute, guarded. rewrite Hloaded, Hfound, Hid. cbn [negb fst snd].
    destruct (getServerState id (store hub)) as [old s] eqn:E.
    set (state := {| status := statusOf a; lastAction := Some a; lastActionAt := Some now |}).
    destruct (appendLog id (lineOf a) _) as [hub' sent] eqn:Happend.
    cbn [fst snd]. split; [done |]. split; [done |].
    assert (hub' = fst (appendLog id (lineOf a)
                          (setStore (setStates (<[id := state]> (serverStates s)) s) hub)))
      as -> by by rewrite Happend.
    split.
    + rewrite StoreFacts.appendLog_logsOf, hub_appendLog_logsOf, lineOf_same.
      f_equal. f_equal. unfold Mock.logsOf, Mock.storeState. cbn [Mock.serverLogs Mock.setStates].
      fold (Mock.logsOf id m). rewrite Hlogs. unfold logsOf. cbn [store setStore].
      unfold setStates. cbn [serverLogs].
      unfold getServerState in E. by destruct (serverStates (store hub) !! id); injection E as _ <-.
    + rewrite mock_state_after_append.
      unfold Mock.getServerState, Mock.storeState. cbn [Mock.serverStates Mock.setStates].
      rewrite lookup_insert_eq. cbn [fst].
      unfold getServerState. cbn [store fst appendLog setStore setLogs serverStates setStates].
      by rewrite lookup_insert_eq.
  - intros Hroute Hpost.
    rewrite (RouteFacts.interceptor_route _ _ _ _ _ Hroute), Hmock, Hfixed,
      (RouteFacts.serverRoute_command _ _ _ _ _ Hpost).
    rewrite (commandRoute_found _ _ _ _ Hloaded Hfound). cbn [fst snd].
    split; [done |]. split; [done |].
    set (text := trim (default EmptyString (Mock.bodyField "command" req))).
    destruct (decide (text = EmptyString)) as [Hempty | Hsome].
    + rewrite Hempty. cbn [String.eqb negb]. rewrite execute_nothing. cbn [fst].
      split; [by rewrite mock_logs_after_read | by rewrite mock_state_after_read].
    + apply String.eqb_neq in Hsome as Hneq. rewrite Hneq. cbn [negb]. split.
      * rewrite (execute_logsOf _ _ _ Hsome), !StoreFacts.appendLog_logsOf, lastLines_app.
        by rewrite mock_logs_after_read, Hlogs, <- app_assoc.
      * rewrite hub_state_after_execute, !mock_state_after_append.
        by rewrite mock_state_after_read.
  - intros Hroute Hget.
    exists (slice (neg (Mock.logsLimit (Mock.searchParam "limit" req))) (Mock.logsOf id m)).
    rewrite (RouteFacts.interceptor_route _ _ _ _ _ Hroute), Hmock, Hfixed,
      (RouteFacts.serverRoute_logs _ _ _ _ _ Hget).
    split; [done |].
    unfold logsRoute, guarded. rewrite Hloaded, Hfound, Hid. cbn [negb fst].
    by rewrite logsLimit_clamp, Hlogs.
Qed.

Lemma mock_answers_as_the_backend_witness :
  exists logs,
    fst (Mock.mockApiInterceptor "2026-02-08T08:00:00.000Z"
           (Vocabulary.tailRequest "nau-events" "2") (Mock.seedAll Mock.initial))
    = Mock.Respond 200 (Mock.BLogs logs)
    /\ fst (fst (logsRoute "nau-events"
                   (Mock.searchParam "limit" (Vocabulary.tailRequest "nau-events" "2"))
                   (mirror (Mock.seedAll Mock.initial))))
       = {| code := 200; body := BLogs logs |}.
Proof.
  refine (proj2 (proj2
    (mock_answers_as_the_backend "2026-02-08T08:00:00.000Z"
       (Vocabulary.tailRequest "nau-events" "2") (Mock.seedAll Mock.initial)
       (mirror (Mock.seedAll Mock.initial)) "nau-events" _ _ _ _ _ _ _)) _ _).
  - repeat split. vm_compute. discriminate.
  - reflexivity.
  - reflexivity.
  - reflexivity.
  - split; reflexivity.
  - reflexivity.
  - reflexivity.
Defined.

End MockFidelity.

Module HubExamples.
Import Js Backend BackendConsole ConsoleVocabulary.

(** The other subscriber hears the command; the closed socket does not. *)
Example command_after_close :
  snd (run [Connection; Message 1 (subscribe "survival" None); Message 1 (command "list")]
         (onClose 0 oneListener))
  = [(1%nat, Logs []); (1%nat, Log "[CMD] list");
     (1%nat, Log "[INFO] Executed command: list")].
Proof. vm_compute. reflexivity. Qed.

End HubExamples.

Module ServiceFacts.
Import Js Client ClientVocabulary ServiceVocabulary.

Lemma trace_from env events c effects :
  fold_left (fun '(c, effects) e => (after env e c, effects ++ effectsOf env e c))
    events (c, effects)
  = (fst (trace env events c), effects ++ snd (trace env events c)).
Proof.
  revert c effects. induction events as [| e events IH]; intros c effects.
  - simpl. by rewrite app_nil_r.
  - unfold trace. simpl. rewrite !IH. cbn [fst snd]. by rewrite app_assoc.
Qed.

Lemma trace_cons env e events c :
  trace env (e :: events) c
  = (fst (trace env events (after env e c)),
     effectsOf env e c ++ snd (trace env events (after env e c))).
Proof. unfold trace at 1. simpl. by rewrite trace_from. Qed.

Lemma liveFrom_app ids first second :
  liveFrom ids (first ++ second) = liveFrom (liveFrom ids first) second.
Proof. apply fold_left_app. Qed.

Lemma subscriptionFrom_app sub first second :
  subscriptionFrom sub (first ++ second)
  = subscriptionFrom (subscriptionFrom sub first) second.
Proof. apply fold_left_app. Qed.

Lemma tidy_step env e c ids :
  tidy c ids -> tidy (after env e c) (liveFrom ids (effectsOf env e c)).
Proof.
  intros [-> Hlt]. unfold tidy, held, after, effectsOf in *.
  destruct c as [sock poll sid lim lg tm]. cbn [pollingId timers] in *.
  destruct e as [id n | n | command | | | | event | id | r | succeeded]; cbn [step].
  - unfold connect, disconnect, startPolling, openSocket, fetchLogs, send.
    cbn [socket pollingId serverId limit logs timers].
    destruct (String.eqb id EmptyString) eqn:Hid.
    + destruct sock as [[] |], poll as [old |]; cbn; rewrite ?Nat.eqb_refl; by split.
    + destruct (useMocks env).
      * destruct poll as [old |]; cbn; rewrite ?Nat.eqb_refl; cbn;
          (split; [done | intros ? [= <-]; lia]).
      * destruct sock as [[] |], poll as [old |]; cbn; (split; [done | exact Hlt]).
  - unfold setLimit, fetchLogs, send. cbn [socket pollingId serverId limit logs timers].
    destruct (String.eqb sid EmptyString); [by destruct poll |].
    destruct (useMocks env); [by destruct poll |].
    destruct sock as [[] |]; by destruct poll.
  - unfold sendCommand, send. cbn [socket pollingId serverId limit logs timers].
    destruct (_ || _)%bool; [by destruct poll |].
    destruct (useMocks env); [by destruct poll |].
    destruct sock as [[] |]; by destruct poll.
  - unfold disconnect. cbn [socket pollingId serverId limit logs timers].
    destruct sock as [[] |], poll as [old |]; cbn; rewrite ?Nat.eqb_refl; by split.
  - unfold send. destruct sock as [state |]; cbn; [| by destruct poll].
    destruct (String.eqb sid EmptyString); by destruct poll.
  - destruct sock as [state |]; by destruct poll.
  - unfold onMessage. destruct event as [data | message]; [by destruct poll |].
    destruct (falsy message); [by destruct poll |].
    destruct (strictEq (property "type" message) "logs").
    { destruct (sliceLogs (property "logs" message)); by destruct poll. }
    destruct (strictEq (property "type" message) "log"); by destruct poll.
  - unfold fetchLogs. cbn [pollingId serverId]. destruct poll as [current |]; [| done].
    destruct (Nat.eqb id current); [| done].
    by destruct (String.eqb sid EmptyString).
  - unfold onLogs. destruct r as [response |]; [| by destruct poll].
    destruct response; try (by destruct poll);
      destruct (sliceLogs _); by destruct poll.
  - unfold fetchLogs. cbn [serverId]. destruct succeeded; [| by destruct poll].
    destruct (String.eqb sid EmptyString); by destruct poll.
Qed.

Lemma tidy_trace env events c ids :
  tidy c ids ->
  tidy (fst (trace env events c)) (liveFrom ids (snd (trace env events c))).
Proof.
  revert c ids. induction events as [| e events IH]; intros c ids H; [done |].
  rewrite trace_cons. cbn [fst snd]. rewrite liveFrom_app.
  by apply IH, tidy_step.
Qed.

(** X19. The service never leaks an interval: whatever is called and
    whatever arrives, in either build, the intervals that have been set
    and not yet cleared are exactly the one the service holds in
    [pollingId], if any; so there is never more than one, and
    [disconnect] clears the only one there is. *)
Theorem at_most_one_interval_is_alive env events :
  live (snd (trace env events created)) = held (fst (trace env events created))
  /\ (length (live (snd (trace env events created))) <= 1)%nat
  /\ live (snd (trace env (events ++ [Disconnect]) created)) = [].
Proof.
  assert (forall events, live (snd (trace env events created))
                         = held (fst (trace env events created))) as H.
  { intros evs. apply (tidy_trace env evs created []). by split. }
  split; [apply H |]. split.
  - rewrite H. unfold held. destruct (pollingId _); simpl; lia.
  - rewrite H. unfold trace. rewrite fold_left_app. fold (trace env events created).
    destruct (trace env events created) as [c effects]. done.
Qed.

Lemma inTune_step env e c current :
  useMocks env = false ->
  inTune c current -> inTune (after env e c) (subscriptionFrom current (effectsOf env e c)).
Proof.
  intros Hlive H. unfold inTune, after, effectsOf in *.
  destruct c as [sock poll sid lim lg tm]. cbn [socket serverId limit] in *.
  destruct e as [id n | n | command | | | | event | id | r | succeeded]; cbn [step].
  - unfold connect, disconnect, startPolling, openSocket, fetchLogs, send.
    cbn [socket pollingId serverId limit logs timers]. rewrite Hlive.
    destruct (String.eqb id EmptyString) eqn:Hid.
    + by destruct sock as [[] |], poll as [old |].
    + by destruct sock as [[] |].
  - unfold setLimit, fetchLogs, send. cbn [socket pollingId serverId limit logs timers].
    rewrite Hlive.
    destruct (String.eqb_spec sid EmptyString) as [-> | Hsid]; [done |].
    by destruct sock as [[] |].
  - unfold sendCommand, send. cbn [socket pollingId serverId limit logs timers].
    rewrite Hlive.
    destruct (_ || _)%bool; [done |].
    by destruct sock as [[] |].
  - unfold disconnect. cbn [socket pollingId serverId limit logs timers].
    by destruct sock as [[] |], poll as [old |].
  - unfold send. destruct sock as [state |]; cbn; [| done].
    by destruct (String.eqb_spec sid EmptyString) as [-> | Hsid].
  - by destruct sock as [state |].
  - unfold onMessage. destruct event as [data | message]; [done |].
    destruct (falsy message); [done |].
    destruct (strictEq (property "type" message) "logs").
    { by destruct (sliceLogs (property "logs" message)). }
    by destruct (strictEq (property "type" message) "log").
  - unfold fetchLogs. cbn [pollingId serverId]. destruct poll as [current' |]; [| done].
    destruct (Nat.eqb id current'); [| done].
    by destruct (String.eqb sid EmptyString).
  - unfold onLogs. destruct r as [response |]; [| done].
    destruct response; try done; by destruct (sliceLogs _).
  - unfold fetchLogs. cbn [serverId]. destruct succeeded; [| done].
    by destruct (String.eqb sid EmptyString).
Qed.

Lemma inTune_trace env events c current :
  useMocks env = false ->
  inTune c current ->
  inTune (fst (trace env events c)) (subscriptionFrom current (snd (trace env events c))).
Proof.
  intros Hlive. revert c current.
  induction events as [| e events IH]; intros c current H; [done |].
  rewrite trace_cons. cbn [fst snd]. rewrite subscriptionFrom_app.
  by apply IH, inTune_step.
Qed.

(** X20. In the build that holds a socket, the subscription follows the
    service: whatever is called and whatever arrives, whenever the
    socket is open and a server is selected, the last subscription sent
    on that socket names the selected server and carries the current
    limit - also when [connect] or [setLimit] was called before the
    socket had opened. *)
Theorem subscription_follows_the_service env events :
  useMocks env = false ->
  socket (fst (trace env events created)) = Some OPEN ->
  serverId (fst (trace env events created)) <> EmptyString ->
  subscription (snd (trace env events created))
  = Some (serverId (fst (trace env events created)),
          limit (fst (trace env events created))).
Proof.
  intros Hlive. apply (inTune_trace env events created None Hlive). by intros H.
Qed.

Lemma subscription_follows_the_service_witness :
  subscription
    (snd (trace liveEnvironment [Connect "nau-events" 200; SetLimit 500; SocketOpen] created))
  = Some ("nau-events", 500).
Proof.
  refine (subscription_follows_the_service liveEnvironment
            [Connect "nau-events" 200; SetLimit 500; SocketOpen] _ _ _).
  - reflexivity.
  - reflexivity.
  - vm_compute. discriminate.
Defined.

End ServiceFacts.

Module UrlFacts.
Import Js Client PathVocabulary ServiceVocabulary PathFacts RouteFacts FileRoutes.

#[local] Arguments String.append !_ _ / : simpl nomatch.

Lemma lastChar_Some c r : exists d, lastChar (String c r) = Some d.
Proof.
  revert c. induction r as [| e t IH]; intros c; [by exists c |].
  change (lastChar (String c (String e t))) with (lastChar (String e t)). apply IH.
Qed.

Lemma lastChar_None s : lastChar s = None -> s = EmptyString.
Proof.
  destruct s as [| c r]; [done |]. intros H.
  destruct (lastChar_Some c r) as [d Hd]. congruence.
Qed.

Lemma firstChar_rev_app s acc :
  firstChar (String.rev_app s acc)
  = match lastChar s with
    | Some c => Some c
    | None => firstChar acc
    end.
Proof.
  revert acc. induction s as [| c r IH]; intros acc; [done |].
  cbn [String.rev_app]. rewrite IH. destruct r as [| d t]; [done |].
  change (lastChar (String c (String d t))) with (lastChar (String d t)).
  destruct (lastChar (String d t)) eqn:E; [done |]. by apply lastChar_None in E.
Qed.

Lemma startsWith_slash p : startsWith "/" p = isSlash (firstChar p).
Proof.
  unfold startsWith. rewrite prefix_dropPrefix.
  destruct p as [| c r]; [done |].
  by destruct c as [[] [] [] [] [] [] [] []].
Qed.

Lemma endsWith_slash s : endsWith "/" s = isSlash (lastChar s).
Proof.
  unfold endsWith. change (String.rev "/") with "/". fold (startsWith "/" (String.rev s)).
  rewrite startsWith_slash. unfold String.rev. rewrite firstChar_rev_app.
  by destruct (lastChar s).
Qed.

Lemma dropLast_withoutLast s : dropLast s = withoutLast s.
Proof.
  unfold dropLast. induction s as [| c r IH]; [done |].
  destruct r as [| d t]; [done |].
  change (String.length (String c (String d t)) - 1)%nat with (S (String.length t)).
  change (withoutLast (String c (String d t))) with (String c (withoutLast (String d t))).
  change (String.substring 0 (S (String.length t)) (String c (String d t)))
    with (String c (String.substring 0 (String.length t) (String d t))).
  f_equal. rewrite <- IH. f_equal. simpl. lia.
Qed.

Lemma withoutLast_slash s :
  isSlash (lastChar s) = true -> s = withoutLast s +:+ "/".
Proof.
  induction s as [| c r IH]; [done |]. destruct r as [| d t].
  - simpl. by intros ->%Ascii.eqb_eq.
  - change (lastChar (String c (String d t))) with (lastChar (String d t)).
    intros H. cbn [withoutLast]. simpl. f_equal. by apply IH.
Qed.

Lemma withoutFirst_slash p :
  isSlash (firstChar p) = true -> p = "/" +:+ withoutFirst p.
Proof. destruct p as [| c r]; [done |]. simpl. by intros ->%Ascii.eqb_eq. Qed.

(** X21. [buildApiUrl] joins the base and the path with exactly one
    slash between them in all four cases: a slash at the end of the base
    and a slash at the start of the path are each left out once, and one
    slash is put between what remains. *)
Theorem buildApiUrl_joins_with_one_slash env p :
  buildApiUrl env p
  = (if isSlash (lastChar (baseOf env)) then withoutLast (baseOf env) else baseOf env)
    +:+ "/"
    +:+ (if isSlash (firstChar p) then withoutFirst p else p).
Proof.
  unfold buildApiUrl. fold (baseOf env).
  rewrite endsWith_slash, startsWith_slash, dropLast_withoutLast.
  destruct (isSlash (lastChar (baseOf env))) eqn:Hbase,
           (isSlash (firstChar p)) eqn:Hp; cbn [andb negb].
  - by rewrite (withoutFirst_slash p Hp) at 1.
  - rewrite (withoutLast_slash _ Hbase) at 1. by rewrite append_assoc.
  - by rewrite (withoutFirst_slash p Hp) at 1.
  - done.
Qed.

End UrlFacts.

Module AppStateFacts.
Import Js Client AppState AppVocabulary.

Lemma service_run_cons e events s : run (e :: events) s = run events (fst (step e s)).
Proof. reflexivity. Qed.

(** Callbacks of other loads, and selections, leave the flag, the message
    and the token of a load in progress. *)
Lemma beside_step token e s :
  beside token e = true ->
  loadToken s = token -> loading s = true -> error s = EmptyString ->
  loadToken (fst (step e s)) = token
  /\ loading (fst (step e s)) = true
  /\ error (fst (step e s)) = EmptyString.
Proof.
  intros He Htoken Hloading Herror.
  destruct e as [| t | t response | t | id]; [done | | | | done];
    apply negb_true_iff, Nat.eqb_neq in He;
    assert (Nat.eqb (loadToken s) t = false) as Hne
      by (apply Nat.eqb_neq; congruence);
    cbn [step fst onNext onError loading error loadToken]; unfold onFallback;
    by rewrite Hne.
Qed.

Lemma beside_run token events s :
  forallb (beside token) events = true ->
  loadToken s = token -> loading s = true -> error s = EmptyString ->
  loadToken (run events s) = token
  /\ loading (run events s) = true
  /\ error (run events s) = EmptyString.
Proof.
  revert s. induction events as [| e events IH]; intros s Hall Htoken Hloading Herror; [done |].
  cbn [forallb] in Hall. apply andb_true_iff in Hall as [He Hall].
  destruct (beside_step token e s He Htoken Hloading Herror) as (H1 & H2 & H3).
  rewrite service_run_cons. by apply IH.
Qed.

Lemma resolves_step e s :
  resolves (loadToken s) e = true -> loading (fst (step e s)) = false.
Proof.
  destruct e as [| t | t response | t | id]; try done;
    intros ->%Nat.eqb_eq; cbn [step fst onNext onError loading];
    unfold onFallback; by rewrite Nat.eqb_refl.
Qed.

Lemma noLoad_step e s :
  noLoad e = true -> loading s = false -> loading (fst (step e s)) = false.
Proof.
  intros He Hs. destruct e as [| t | t response | t | id]; try done; cbn.
  - unfold onFallback. by destruct (Nat.eqb (loadToken s) t).
  - by destruct (Nat.eqb (loadToken s) t).
  - by destruct (Nat.eqb (loadToken s) t).
Qed.

Lemma noLoad_run events s :
  forallb noLoad events = true -> loading s = false -> loading (run events s) = false.
Proof.
  revert s. induction events as [| e events IH]; intros s Hall Hs; [done |].
  cbn [forallb] in Hall. apply andb_true_iff in Hall as [He Hall].
  rewrite service_run_cons. by apply IH, noLoad_step.
Qed.

(** X22. The loading flag follows the latest call of [loadServers]:
    from the call on, callbacks of earlier loads and selections leave it
    set, with the message empty; once the fallback timer, the response
    or the failure of that very call has come, it is cleared and stays
    so, whatever belated callbacks follow, until [loadServers] is called
    again. The list of servers, in contrast, is replaced by every
    response and emptied by every failure, belated or not. *)
Theorem loading_follows_the_latest_load :
  (forall s events,
     forallb (beside (S (loadToken s))) events = true ->
     loading (run events (fst (loadServers s))) = true
     /\ error (run events (fst (loadServers s))) = EmptyString
     /\ loadToken (run events (fst (loadServers s))) = S (loadToken s))
  /\ (forall s e events,
        resolves (loadToken s) e = true ->
        forallb noLoad events = true ->
        loading (run (e :: events) s) = false)
  /\ (forall token response s,
        servers (fst (onNext token response s)) = response
        /\ servers (fst (onError token s)) = []).
Proof.
  split; [| split].
  - intros s events Hall.
    destruct (beside_run (S (loadToken s)) events (fst (loadServers s)) Hall)
      as (H1 & H2 & H3); done.
  - intros s e events He Hall. rewrite service_run_cons.
    by apply noLoad_run, resolves_step.
  - intros token response s. split; [done |].
    unfold onError. by destruct (Nat.eqb (loadToken s) token).
Qed.

(** X23. The selection survives a reload: after [selectServer(id)] the
    service shows [id], and a service constructed from what
    [localStorage] then holds shows [id] again - also for the empty id,
    which removes the stored item. *)
Theorem selection_survives_reload id s before :
  selectedServerId (fst (selectServer id s)) = id
  /\ selectedServerId (constructed (stored (snd (selectServer id s)) before)) = id
  /\ (stored (snd (selectServer id s)) before = None <-> id = EmptyString).
Proof.
  split; [done |]. unfold selectServer, stored, constructed. cbn.
  destruct (String.eqb_spec id EmptyString) as [-> | Hid]; cbn; [done |].
  split; [done |]. split; [done |]. intros ->. done.
Qed.

End AppStateFacts.

Module ShellFacts.
Import Js Client Shell.

(** The index is within the list, or 0 when there is none. *)
Lemma inRange_step e s :
  (statusIndex s < Nat.max 1 (length (servers s)))%nat ->
  (statusIndex (step e s) < Nat.max 1 (length (servers (step e s))))%nat.
Proof.
  intros H. destruct e as [emitted |]; cbn [step].
  - unfold onServers. cbn [servers statusIndex].
    destruct (Nat.eqb_spec (length emitted) 0) as [-> | Hn]; cbn [negb]; [lia |].
    pose proof (Nat.mod_upper_bound (statusIndex s) (length emitted) Hn). lia.
  - unfold onCarousel. destruct (Nat.ltb_spec 1 (length (servers s))) as [Hn | Hn]; [| done].
    cbn [servers statusIndex].
    pose proof (Nat.mod_upper_bound (statusIndex s + 1) (length (servers s))). lia.
Qed.

Lemma inRange_run events s :
  (statusIndex s < Nat.max 1 (length (servers s)))%nat ->
  (statusIndex (run events s) < Nat.max 1 (length (servers (run events s))))%nat.
Proof.
  revert s. induction events as [| e events IH]; intros s H; [done |].
  apply (IH (step e s)), inRange_step, H.
Qed.

Lemma carousel_turns k s :
  (1 < length (servers s))%nat ->
  (statusIndex s < length (servers s))%nat ->
  servers (Nat.iter k onCarousel s) = servers s
  /\ statusIndex (Nat.iter k onCarousel s)
     = ((statusIndex s + k) mod length (servers s))%nat.
Proof.
  intros Hn Hi. induction k as [| k [IH1 IH2]].
  - simpl. split; [done |]. rewrite Nat.add_0_r. by rewrite Nat.mod_small.
  - change (Nat.iter (S k) onCarousel s) with (onCarousel (Nat.iter k onCarousel s)).
    set (t := Nat.iter k onCarousel s) in *.
    unfold onCarousel. rewrite IH1.
    destruct (Nat.ltb_spec 1 (length (servers s))) as [_ | Hle]; [| lia].
    cbn [servers statusIndex]. split; [done |].
    rewrite IH2, Nat.Div0.add_mod_idemp_l. f_equal. lia.
Qed.

Lemma carousel_rests k s :
  (length (servers s) <= 1)%nat -> Nat.iter k onCarousel s = s.
Proof.
  intros Hn. induction k as [| k IH]; [done |].
  change (Nat.iter (S k) onCarousel s) with (onCarousel (Nat.iter k onCarousel s)).
  rewrite IH. unfold onCarousel.
  by destruct (Nat.ltb_spec 1 (length (servers s))) as [Hlt | _]; [lia |].
Qed.

(** X24. The status carousel always points at a server: whatever lists
    [servers$] emits and however often the carousel ticks, the index is
    a position of the list, so [currentStatusServer] is a server as soon
    as there is one, and it is 0 when there is none. With two servers
    or more, [k] ticks move the index [k] places round the list; with
    fewer, ticks change nothing. *)
Theorem carousel_points_at_a_server :
  (forall events,
     (servers (run events created) <> [] ->
      is_Some (currentStatusServer (run events created)))
     /\ (servers (run events created) = [] -> statusIndex (run events created) = O))
  /\ (forall s k,
        (1 < length (servers s))%nat -> (statusIndex s < length (servers s))%nat ->
        statusIndex (Nat.iter k onCarousel s)
        = ((statusIndex s + k) mod length (servers s))%nat)
  /\ (forall s k, (length (servers s) <= 1)%nat -> Nat.iter k onCarousel s = s).
Proof.
  split; [| split].
  - intros events.
    assert (statusIndex (run events created)
            < Nat.max 1 (length (servers (run events created))))%nat as H
      by (apply inRange_run; simpl; lia).
    split.
    + intros Hne. apply lookup_lt_is_Some.
      destruct (servers (run events created)); [done | simpl in *; lia].
    + intros Hnil. rewrite Hnil in H. simpl in H. lia.
  - intros s k Hn Hi. by apply carousel_turns.
  - intros s k. apply carousel_rests.
Qed.

End ShellFacts.

Module BrowserFacts.
Import Js Mock Browser PathVocabulary PathFacts RouteFacts FileRoutes.

#[local] Arguments String.append !_ _ / : simpl nomatch.

Lemma crumbsFrom_removelast acc parts :
  crumbsFrom acc (removelast parts) = removelast (crumbsFrom acc parts).
Proof.
  revert acc. induction parts as [| part rest IH]; intros acc; [done |].
  destruct rest as [| next rest']; [done |].
  change (removelast (part :: next :: rest')) with (part :: removelast (next :: rest')).
  cbn [crumbsFrom]. rewrite IH. done.
Qed.

(** From a path so far that is not empty, the last crumb holds the whole
    path. *)
Lemma crumbsFrom_last acc parts d :
  acc <> EmptyString -> parts <> [] ->
  crumb_path (List.last (crumbsFrom acc parts) d) = acc +:+ "/" +:+ join "/" parts.
Proof.
  revert acc. induction parts as [| part rest IH]; intros acc Hacc Hparts; [done |].
  cbn [crumbsFrom]. apply String.eqb_neq in Hacc as Heq. rewrite Heq.
  destruct rest as [| next rest']; [done |].
  change (List.last (?x :: crumbsFrom ?a (next :: rest')) d)
    with (List.last (crumbsFrom a (next :: rest')) d).
  rewrite IH; [| | done].
  - rewrite join_cons. by rewrite !append_assoc.
  - by destruct acc.
Qed.

Lemma crumbs_last part rest d :
  part <> EmptyString ->
  crumb_path (List.last (crumbsFrom EmptyString (part :: rest)) d) = join "/" (part :: rest).
Proof.
  intros Hpart. cbn [crumbsFrom String.eqb].
  destruct rest as [| next rest']; [done |].
  change (List.last (?x :: crumbsFrom ?a (next :: rest')) d)
    with (List.last (crumbsFrom a (next :: rest')) d).
  by rewrite crumbsFrom_last.
Qed.

Lemma crumbsFrom_names acc parts : map crumb_name (crumbsFrom acc parts) = parts.
Proof.
  revert acc. induction parts as [| part rest IH]; intros acc; [done |].
  cbn [crumbsFrom map crumb_name]. by rewrite IH.
Qed.

Lemma split_first p :
  p <> EmptyString -> firstChar p <> Some "/"%char ->
  exists part rest, split "/" p = part :: rest /\ part <> EmptyString.
Proof.
  destruct p as [| c r]; [done |]. intros _ Hc. simpl.
  destruct (Ascii.eqb_spec c "/") as [-> | Hne]; [done |].
  destruct (split "/" r) as [| q qs]; by eexists _, _.
Qed.


Lemma breadcrumbs_cons currentPath :
  currentPath <> EmptyString ->
  breadcrumbs currentPath
  = {| crumb_name := "root"; crumb_path := EmptyString |}
    :: crumbsFrom EmptyString (split "/" currentPath).
Proof. intros H%String.eqb_neq. unfold breadcrumbs. by rewrite H. Qed.

Lemma last_after {A} (x : A) l d : l <> [] -> List.last (x :: l) d = List.last l d.
Proof. by destruct l. Qed.

Lemma removelast_after {A} (x : A) l : l <> [] -> removelast (x :: l) = x :: removelast l.
Proof. by destruct l. Qed.

Lemma crumbsFrom_cons acc part rest : crumbsFrom acc (part :: rest) <> [].
Proof. done. Qed.

(** X25. For a current folder that is not the root and does not start
    with a slash, the breadcrumbs are [root] followed by one crumb for
    each segment of the path, the last crumb leads to the current folder
    itself, and [navigateUp] loads the folder of the crumb before the
    last; for a path in the normal form of the mock server that folder
    is the one the mock's [getParentPath] gives. *)
Theorem crumbs_lead_to_the_current_folder currentPath :
  currentPath <> EmptyString ->
  firstChar currentPath <> Some "/"%char ->
  map crumb_name (breadcrumbs currentPath) = "root" :: split "/" currentPath
  /\ crumb_path (List.last (breadcrumbs currentPath)
                   {| crumb_name := "root"; crumb_path := EmptyString |})
     = currentPath
  /\ navigateUp currentPath
     = Some (crumb_path (List.last (removelast (breadcrumbs currentPath))
                           {| crumb_name := "root"; crumb_path := EmptyString |}))
  /\ (normalizePath currentPath = currentPath ->
      navigateUp currentPath = Some (getParentPath currentPath)).
Proof.
  intros Hne Hfirst. rewrite (breadcrumbs_cons _ Hne).
  destruct (split_first currentPath Hne Hfirst) as (part & rest & Hsplit & Hpart).
  set (root := {| crumb_name := "root"; crumb_path := EmptyString |}).
  apply String.eqb_neq in Hne as Heq.
  split; [cbn [map crumb_name]; by rewrite crumbsFrom_names |].
  split.
  { rewrite Hsplit, last_after by apply crumbsFrom_cons.
    rewrite crumbs_last by done. rewrite <- Hsplit. apply join_split. }
  split.
  { unfold navigateUp. rewrite Heq, Hsplit. f_equal.
    rewrite (removelast_after root (crumbsFrom EmptyString (part :: rest)))
      by apply crumbsFrom_cons.
    rewrite <- crumbsFrom_removelast.
    destruct rest as [| next rest']; [done |].
    rewrite (removelast_after part (next :: rest')) by done.
    rewrite last_after by apply crumbsFrom_cons.
    by rewrite crumbs_last. }
  intros Hnormal. unfold navigateUp, getParentPath. by rewrite Heq, Hnormal.
Qed.

Lemma crumbs_lead_to_the_current_folder_witness :
  navigateUp "config/plugins/essentials" = Some (getParentPath "config/plugins/essentials").
Proof.
  refine (proj2 (proj2 (proj2
    (crumbs_lead_to_the_current_folder "config/plugins/essentials" _ _))) _).
  - discriminate.
  - simpl. discriminate.
  - reflexivity.
Defined.


Lemma split_app sep a b :
  split sep (a +:+ String sep b) = split sep a ++ split sep b.
Proof.
  induction a as [| c r IH]; simpl.
  - by rewrite Ascii.eqb_refl.
  - destruct (Ascii.eqb c sep); [by rewrite IH |].
    rewrite IH. pose proof (split_nonempty sep r) as Hr.
    by destruct (split sep r).
Qed.

Lemma firstChar_app a b : a <> EmptyString -> firstChar (a +:+ b) = firstChar a.
Proof. by destruct a. Qed.

Lemma lastChar_app a b : b <> EmptyString -> lastChar (a +:+ b) = lastChar b.
Proof.
  intros Hb. induction a as [| c r IH]; [done |]. simpl.
  rewrite <- IH. apply lastChar_cons. by destruct r, b.
Qed.

Lemma lastChar_occurs s c : lastChar s = Some c -> occurs c s = true.
Proof.
  induction s as [| d r IH]; [done |]. destruct r as [| e t].
  - simpl. intros [= ->]. by rewrite Ascii.eqb_refl.
  - change (lastChar (String d (String e t))) with (lastChar (String e t)).
    intros H.
    change (occurs c (String d (String e t)))
      with (Ascii.eqb d c || occurs c (String e t))%bool.
    rewrite (IH H). apply orb_true_r.
Qed.

Lemma joinPath_root name : joinPath EmptyString name = normalizePath name.
Proof. reflexivity. Qed.

Lemma joinPath_under base name :
  base <> EmptyString -> normalizePath base = base ->
  joinPath base name = base +:+ "/" +:+ normalizePath name.
Proof.
  intros Hne%String.eqb_neq Hnormal. unfold joinPath. rewrite Hne.
  rewrite dropTrailingSlashes_id; [done |].
  rewrite <- Hnormal. apply normalizePath_last.
Qed.

(** X26. What the dialogs create lies in the current folder: for a
    current folder in the normal form of the mock server and a name
    that, without the slashes at its ends, is not empty and holds no
    slash, [joinPath] gives a path in normal form whose parent, in the
    sense of the mock's [getParentPath], is the current folder and whose
    name, in the sense of [getName], is the name without those slashes. *)
Theorem joined_path_lies_in_the_current_folder base name :
  normalizePath base = base ->
  normalizePath name <> EmptyString ->
  occurs "/" (normalizePath name) = false ->
  normalizePath (joinPath base name) = joinPath base name
  /\ getParentPath (joinPath base name) = base
  /\ getName (joinPath base name) = normalizePath name.
Proof.
  intros Hbase Hname Hslash.
  destruct (decide (base = EmptyString)) as [-> | Hne].
  - change (joinPath EmptyString name) with (normalizePath name).
    split; [apply normalizePath_idem |].
    destruct (path_without_slash (normalizePath name)) as [H1 H2];
      [by rewrite normalizePath_idem |].
    by rewrite normalizePath_idem in H2.
  - rewrite (joinPath_under _ _ Hne Hbase).
    assert (normalizePath (base +:+ "/" +:+ normalizePath name)
            = base +:+ "/" +:+ normalizePath name) as Hnormal.
    { apply normalizePath_fixed.
      - rewrite firstChar_app by done. rewrite <- Hbase. apply normalizePath_first.
      - rewrite lastChar_app by by destruct (normalizePath name).
        change ("/" +:+ normalizePath name) with (String "/" (normalizePath name)).
        rewrite lastChar_cons by done.
        intros H%lastChar_occurs. congruence. }
    split; [exact Hnormal |].
    unfold getParentPath, getName. rewrite Hnormal.
    change ("/" +:+ normalizePath name) with (String "/" (normalizePath name)).
    rewrite split_app, (split_single _ _ Hslash).
    split.
    + rewrite removelast_last. apply join_split.
    + apply last_last.
Qed.

Lemma joined_path_lies_in_the_current_folder_witness :
  getParentPath (joinPath "config/plugins" "/essentials.yml/") = "config/plugins".
Proof.
  refine (proj1 (proj2
    (joined_path_lies_in_the_current_folder "config/plugins" "/essentials.yml/" _ _ _))).
  - reflexivity.
  - vm_compute. discriminate.
  - reflexivity.
Defined.

End BrowserFacts.

Module NumberText.
Import Js NumberVocabulary.

Lemma digit_char d : (d < 10)%N -> digitOf 10 (pretty_N_char d) = Some (Z.of_N d).
Proof.
  intros H.
  assert (d = 0 \/ d = 1 \/ d = 2 \/ d = 3 \/ d = 4 \/ d = 5 \/ d = 6 \/ d = 7
          \/ d = 8 \/ d = 9)%N as Hd by lia.
  by repeat (destruct Hd as [-> | Hd]; [done |]); subst d.
Qed.

Lemma digit_is_no_space c d : digitOf 10 c = Some d -> isWhiteSpace c = false.
Proof. destruct c as [[] [] [] [] [] [] [] []]; vm_compute; congruence. Qed.

Lemma digitsValue_snoc ds d : digitsValue 10 (ds ++ [d]) = 10 * digitsValue 10 ds + d.
Proof. unfold digitsValue. by rewrite fold_left_app. Qed.

(** The digits [pretty_N_go] puts in front of [s] are read back. *)
Lemma takeDigits_go x s ds :
  takeDigits 10 s = (ds, EmptyString) ->
  exists front,
    takeDigits 10 (pretty_N_go x s) = (front ++ ds, EmptyString)
    /\ digitsValue 10 front = Z.of_N x
    /\ ((0 < x)%N -> front <> []).
Proof.
  revert s ds. induction (N.lt_wf_0 x) as [x _ IH]. intros s ds Hs.
  destruct (N.eq_0_gt_0_cases x) as [-> | Hx].
  { exists []. rewrite pretty_N_go_0. repeat split; [done | lia]. }
  rewrite pretty_N_go_step by done.
  destruct (IH (x / 10)%N (N.div_lt x 10 Hx eq_refl)
              (String (pretty_N_char (x mod 10)) s) (Z.of_N (x mod 10) :: ds))
    as (front & Htake & Hvalue & _).
  { cbn [takeDigits]. rewrite digit_char by (apply N.mod_lt; lia). by rewrite Hs. }
  exists (front ++ [Z.of_N (x mod 10)]). split; [| split].
  - by rewrite <- app_assoc.
  - rewrite digitsValue_snoc, Hvalue. rewrite (N.div_mod x 10) at 3 by lia. lia.
  - intros _. by destruct front.
Qed.

Lemma takeDigits_positive p :
  exists ds, takeDigits 10 (pretty (Zpos p)) = (ds, EmptyString)
             /\ digitsValue 10 ds = Zpos p /\ ds <> [].
Proof.
  destruct (takeDigits_go (Npos p) EmptyString [] eq_refl) as (front & Htake & Hvalue & Hne).
  exists front. rewrite app_nil_r in Htake. repeat split; [done | done | by apply Hne].
Qed.

(** A text of digits has no white space to trim. *)
Lemma digits_trimStart s ds : takeDigits 10 s = (ds, EmptyString) -> trimStart s = s.
Proof.
  destruct s as [| c r]; [done |]. cbn [takeDigits trimStart].
  destruct (digitOf 10 c) as [d |] eqn:E; [| done].
  by rewrite (digit_is_no_space c d E).
Qed.

Lemma digits_trimEnd s ds : takeDigits 10 s = (ds, EmptyString) -> trimEnd s = s.
Proof.
  revert ds. induction s as [| c r IH]; intros ds; [done |]. cbn [takeDigits trimEnd].
  destruct (digitOf 10 c) as [d |] eqn:E; [| done].
  destruct (takeDigits 10 r) as [rest tail] eqn:Er. intros [= <- ->].
  rewrite (IH rest eq_refl). destruct r; [| done].
  by rewrite (digit_is_no_space c d E).
Qed.

Lemma digits_trim s ds : takeDigits 10 s = (ds, EmptyString) -> trim s = s.
Proof.
  intros H. unfold trim. rewrite (digits_trimStart s ds H). by apply (digits_trimEnd s ds).
Qed.

(** [Number] of a text of decimal digits is the Number nearest to
    their value. *)
Lemma Number_digits s ds :
  takeDigits 10 s = (ds, EmptyString) -> ds <> [] ->
  Number s = roundBinary64 (inject_Z (digitsValue 10 ds)).
Proof.
  intros Htake Hne. unfold Number. rewrite (digits_trim s ds Htake).
  destruct s as [| c r]; [by injection Htake as <- |].
  assert (parseUnsignedDecimal (String c r) = roundBinary64 (inject_Z (digitsValue 10 ds)))
    as Hdecimal.
  { unfold parseUnsignedDecimal. rewrite Htake.
    replace (String.eqb (String c r) "Infinity") with false; cycle 1.
    { symmetry. apply String.eqb_neq. intros [= -> _]. by vm_compute in Htake. }
    destruct ds; [done |]. cbn [parseExponent]. unfold decimal. cbn [Z.leb Z.compare].
    by rewrite Z.pow_0_r, Z.mul_1_r. }
  cbn [takeDigits] in Htake.
  destruct (digitOf 10 c) as [d |] eqn:Ec; [| by injection Htake as <- _].
  destruct (takeDigits 10 r) as [rest tail] eqn:Er. injection Htake as <- ->.
  assert (parseNonDecimal (String c r) = None) as Hnon.
  { destruct r as [| p r']; [by destruct c as [[] [] [] [] [] [] [] []] |].
    cbn [takeDigits] in Er.
    destruct (digitOf 10 p) as [e |] eqn:Ep; [| by injection Er].
    clear Er Hdecimal.
    assert ((Ascii.eqb p "x" || Ascii.eqb p "X") = false
            /\ (Ascii.eqb p "o" || Ascii.eqb p "O") = false
            /\ (Ascii.eqb p "b" || Ascii.eqb p "B") = false)%bool as (Hx & Ho & Hb).
    { clear -Ep. destruct p as [[] [] [] [] [] [] [] []]; vm_compute in Ep; try discriminate;
        by vm_compute. }
    unfold parseNonDecimal. rewrite Hx, Ho, Hb.
    by destruct c as [[] [] [] [] [] [] [] []]. }
  rewrite <- Hdecimal.
  clear Hdecimal Er Hne.
  destruct c as [[] [] [] [] [] [] [] []]; vm_compute in Ec; try discriminate;
    by rewrite Hnon.
Qed.

Lemma Qred_integer n j :
  0 <= j -> Qred (Qmake (n * 2 ^ j) (Z.to_pos (2 ^ j))) = inject_Z n.
Proof.
  intros Hj. assert (0 < 2 ^ j) as Hpos by (by apply Z.pow_pos_nonneg).
  transitivity (Qred (inject_Z n)).
  - apply Qred_complete. unfold Qeq. cbn [Qnum Qden inject_Z].
    rewrite Z2Pos.id by done. lia.
  - unfold Qred, inject_Z.
    pose proof (Z.ggcd_gcd n 1) as Hg. pose proof (Z.ggcd_correct_divisors n 1) as Hd.
    destruct (Z.ggcd n 1) as [g [aa bb]]. cbn [fst snd] in *.
    rewrite Z.gcd_1_r in Hg. subst g. destruct Hd as [Ha Hb].
    rewrite !Z.mul_1_l in *. by subst.
Qed.

(** A safe integer that is not negative is a Number. *)
Lemma roundBinary64_safe n : 0 <= n < 2 ^ 53 -> roundBinary64 (inject_Z n) = num n.
Proof.
  intros [Hlow Hhigh]. unfold roundBinary64, num. cbn [Qnum Qden inject_Z].
  destruct (Z.eqb_spec n 0) as [-> | Hn]; [done |].
  assert (0 < n) as Hpos by lia.
  rewrite Z.abs_eq by lia. change (Z.log2 1) with 0. rewrite Z.sub_0_r.
  pose proof (Z.log2_nonneg n) as Hnonneg.
  pose proof (proj1 (Z.log2_spec n Hpos)) as Hspec.
  assert (Z.log2 n < 53) as Hlog by (by apply Z.log2_lt_pow2).
  replace (0 <=? Z.log2 n) with true by (symmetry; by apply Z.leb_le).
  replace (n <? 1 * 2 ^ Z.log2 n) with false by (symmetry; apply Z.ltb_ge; lia).
  rewrite Z.max_l by lia.
  replace (n <? 0) with false by (symmetry; apply Z.ltb_ge; lia).
  destruct (Z.leb_spec 0 (Z.log2 n - 52)) as [Hk | Hk].
  - replace (Z.log2 n - 52) with 0 by lia.
    rewrite Z.pow_0_r, !Z.mul_1_r, Z.div_1_r, Z.mod_1_r.
    change (2 * 0 <? 1) with true. cbn [andb].
    replace (2 ^ 1024 <=? n) with false; [done |].
    symmetry. apply Z.leb_gt. eapply Z.lt_trans; [exact Hhigh |]. by vm_compute.
  - rewrite Z.div_1_r, Z.mod_1_r. change (2 * 0 <? 1) with true. cbn [andb].
    f_equal. apply Qred_integer. lia.
Qed.

(** [Number] reads back the digits of a safe integer that is not
    negative. *)
Lemma Number_pretty n : 0 <= n < 2 ^ 53 -> Number (pretty n) = num n.
Proof.
  intros Hn. destruct n as [| p | p]; [by vm_compute | | lia].
  destruct (takeDigits_positive p) as (ds & Htake & Hvalue & Hne).
  rewrite (Number_digits _ ds Htake Hne), Hvalue. by apply roundBinary64_safe.
Qed.

End NumberText.

Module TailFacts.
Import Js Mock Client Vocabulary ClientVocabulary SliceFacts StoreFacts RouteFacts Invariants
  PathFacts FileRoutes NumberVocabulary WireVocabulary NumberText.

#[local] Arguments String.append !_ _ / : simpl nomatch.

Lemma registered id server :
  findServer id = Some server ->
  id <> EmptyString
  /\ matchRoute ("/api/servers/" +:+ id +:+ "/command") = Some (id, Some "command")
  /\ matchRoute ("/api/servers/" +:+ id +:+ "/logs") = Some (id, Some "logs").
Proof.
  unfold findServer. intros H. apply find_some in H as [Hin Hid].
  apply String.eqb_eq in Hid as <-.
  repeat (destruct Hin as [<- | Hin]; [by repeat split |]). done.
Qed.

Lemma commandUrl_default env id :
  apiBaseUrl env = EmptyString ->
  commandUrl env id = url (commandRequest id EmptyString).
Proof.
  intros H. unfold commandUrl, buildApiUrl, url. rewrite H. cbn.
  by rewrite append_empty_r.
Qed.

Lemma tailUrl_default env id n :
  apiBaseUrl env = EmptyString -> url (tailRequest id (pretty n)) = tailUrl env id n.
Proof.
  intros H. unfold tailUrl, apiRoot, ServiceVocabulary.baseOf, url. rewrite H. cbn.
  by rewrite !append_assoc.
Qed.

Lemma lastLines_tail {A} k (l r : list A) :
  (length r <= k)%nat -> lastLines k (l ++ r) = lastLines (k - length r) l ++ r.
Proof.
  intros H. unfold lastLines. rewrite drop_app, length_app.
  replace (length l + length r - k - length l)%nat with O by lia.
  rewrite drop_0. f_equal. f_equal. lia.
Qed.

(** What the interceptor answers a request for the tail with. *)
Lemma tail_answer now st id server n :
  findServer id = Some server ->
  1 <= n -> safeInteger n ->
  fst (mockApiInterceptor now (tailRequest id (pretty n)) st)
  = Respond 200 (BLogs (lastLines (Z.to_nat n) (logsOf id (seedAll st)))).
Proof.
  intros Hfind Hn Hsafe.
  destruct (registered id server Hfind) as (_ & _ & Hlogs).
  rewrite (interceptor_route now (tailRequest id (pretty n)) st id (Some "logs") Hlogs),
    Hfind, (serverRoute_logs now (tailRequest id (pretty n)) id server _ eq_refl).
  cbn [fst].
  change (searchParam "limit" (tailRequest id (pretty n))) with (Some (pretty n)).
  rewrite (LogBuffer.logsLimit_integer (pretty n) n), Z.max_r by
    (try apply Number_pretty; unfold safeInteger in Hsafe; lia).
  by rewrite slice_neg_num by lia.
Qed.

Lemma capped_logsOf id st : capped st -> (length (logsOf id st) <= 200)%nat.
Proof.
  intros H. unfold logsOf. destruct (serverLogs st !! id) as [buffer |] eqn:E.
  - apply (H _ _ E).
  - cbn. lia.
Qed.

End TailFacts.

Module PollingMode.
Import Js Mock Client Vocabulary ClientVocabulary SliceFacts StoreFacts RouteFacts Invariants
  NumberVocabulary WireVocabulary TailFacts.

#[local] Arguments String.append !_ _ / : simpl nomatch.

(** C8. When the client is built with mocks, so that it polls instead
    of holding a socket, and a server is selected: [setLimit] stores the
    new limit and at once requests the tail of that server with that
    limit, by a GET of [<api>/servers/<id>/logs?limit=<n>]; [connect]
    requests the tail in the same way at once and sets an interval of
    2000 ms; each tick of that interval requests the tail of the current
    server with the current limit; the mock interceptor answers such a
    request with the last [n] lines of the buffer of that server, and
    those are the logs the service then publishes; and after every
    response the published logs are the last 5000 lines of the tail it
    carries, which is the whole tail for every response the mock
    interceptor can give (at most 200 lines). The limits are integers
    that a Number holds exactly. *)
Theorem polling_refetches_the_tail env c :
  useMocks env = true ->
  serverId c <> EmptyString ->
  (forall n, safeInteger n ->
     setLimit env n c = (withLimit n c, [HttpGet (tailUrl env (serverId c) n)]))
  /\ (forall id n, id <> EmptyString -> safeInteger n ->
        connect env id n c
        = (polling id n c,
           [HttpGet (tailUrl env id n)]
           ++ match pollingId c with Some old => [ClearInterval old] | None => [] end
           ++ [SetInterval (timers c) 2000]))
  /\ (forall t, pollingId c = Some t -> safeInteger (limit c) ->
        step env (Tick t) c = Done c [HttpGet (tailUrl env (serverId c) (limit c))])
  /\ (forall now st server n,
        apiBaseUrl env = EmptyString ->
        reachable st ->
        findServer (serverId c) = Some server ->
        1 <= n -> safeInteger n ->
        url (tailRequest (serverId c) (pretty n)) = tailUrl env (serverId c) n
        /\ fst (mockApiInterceptor now (tailRequest (serverId c) (pretty n)) st)
           = Respond 200
               (BLogs (lastLines (Z.to_nat n) (logsOf (serverId c) (seedAll st))))
        /\ logs (after env
                   (LogsResponse
                      (PollBody
                         (logsBody
                            (lastLines (Z.to_nat n) (logsOf (serverId c) (seedAll st))))))
                   c)
           = lines (lastLines (Z.to_nat n) (logsOf (serverId c) (seedAll st))))
  /\ (forall tail,
        logs (after env (LogsResponse (PollBody (logsBody tail))) c)
        = lines (lastLines 5000 tail))
  /\ (forall now req st code tail,
        reachable st ->
        fst (mockApiInterceptor now req st) = Respond code (BLogs tail) ->
        logs (after env (LogsResponse (PollBody (logsBody tail))) c) = lines tail).
Proof.
  intros Hmock Hid%Polling.not_empty.
  assert (forall id n, logsUrl env id n = tailUrl env id n) as Hurl.
  { intros id n. unfold logsUrl, tailUrl, apiRoot, buildApiUrl.
    fold (ServiceVocabulary.baseOf env).
    rewrite UrlFacts.endsWith_slash, UrlFacts.startsWith_slash, UrlFacts.dropLast_withoutLast.
    cbn [PathVocabulary.firstChar String.append ServiceVocabulary.isSlash].
    change (Ascii.eqb "/" "/") with true. rewrite andb_true_r. cbn [negb andb].
    by destruct (ServiceVocabulary.isSlash _). }
  assert (forall tail,
            logs (after env (LogsResponse (PollBody (logsBody tail))) c)
            = lines (lastLines 5000 tail)) as Hshown.
  { intros tail. unfold after, step, onLogs, logsBody. cbn. rewrite ConsoleFacts.slice_maxDisplay.
    unfold lines. by rewrite <- list_fmap_compose, ConsoleFacts.lastLines_fmap. }
  split.
  { intros n _. unfold setLimit, fetchLogs. cbn [serverId limit].
    by rewrite Hid, Hmock, Hurl. }
  split.
  { intros id n Hne%Polling.not_empty _. unfold connect, startPolling, fetchLogs.
    cbn [serverId limit socket pollingId timers logs].
    by rewrite Hne, Hmock, Hurl. }
  split.
  { intros t Ht _. unfold step, fetchLogs.
    by rewrite Ht, Nat.eqb_refl, Hid, Hurl. }
  split.
  { intros now st server n Hbase Hr Hfind Hn Hsafe.
    split; [by apply tailUrl_default |].
    split; [by apply (tail_answer now st _ server) |].
    rewrite Hshown, lastLines_all; [done |].
    rewrite length_lastLines.
    pose proof (capped_logsOf (serverId c) (seedAll st)
                  (capped_seedAll st (reachable_capped st Hr))).
    lia. }
  split; [exact Hshown |].
  intros now req st code tail Hr Hresp.
  rewrite Hshown, lastLines_all; [done |].
  pose proof (MockResponses.logs_response_bounded now req st code tail Hr Hresp). lia.
Qed.

Lemma polling_refetches_the_tail_witness :
  setLimit ServiceVocabulary.mockEnvironment 500 (polling "nau-events" 200 created)
  = (withLimit 500 (polling "nau-events" 200 created),
     [HttpGet "/api/servers/nau-events/logs?limit=500"])
  /\ step ServiceVocabulary.mockEnvironment (Tick 0) (polling "nau-events" 200 created)
     = Done (polling "nau-events" 200 created)
         [HttpGet "/api/servers/nau-events/logs?limit=200"].
Proof.
  pose proof (polling_refetches_the_tail ServiceVocabulary.mockEnvironment
                (polling "nau-events" 200 created)) as H.
  destruct H as (Hlimit & _ & Htick & _).
  - reflexivity.
  - simpl. discriminate.
  - split.
    + apply (Hlimit 500). unfold safeInteger. lia.
    + apply (Htick O eq_refl). unfold safeInteger. simpl. lia.
Defined.

End PollingMode.

Module MockRoundTrip.
Import Js Mock Client Vocabulary ClientVocabulary SliceFacts StoreFacts RouteFacts Invariants
  PathFacts FileRoutes NumberVocabulary NumberText TailFacts.

#[local] Arguments String.append !_ _ / : simpl nomatch.

Lemma command_then_tail now later st id server text n :
  findServer id = Some server ->
  seeded st ->
  text <> EmptyString -> trim text = text ->
  2 <= n -> safeInteger n ->
  fst (mockApiInterceptor now (commandRequest id text) st) = Respond 200 BOk
  /\ fst (mockApiInterceptor later (tailRequest id (pretty n))
            (snd (mockApiInterceptor now (commandRequest id text) st)))
     = Respond 200
         (BLogs (lastLines (Z.to_nat n - 2) (lastLines 198 (logsOf id st))
                 ++ ["[CMD] " +:+ text; "[INFO] Executed command: " +:+ text])).
Proof.
  intros Hfind Hseeded Htext Htrim Hn Hsafe.
  destruct (registered id server Hfind) as (Hid & Hcommand & Hlogs).
  assert (seeded (snd (mockApiInterceptor now (commandRequest id text) st))) as Hseeded'
    by by apply interceptor_preserves.
  rewrite (tail_answer later _ id server n Hfind) by (done || lia).
  rewrite (seedAll_fixed _ Hseeded').
  rewrite (interceptor_route now (commandRequest id text) st id (Some "command") Hcommand),
    Hfind, (seedAll_fixed _ Hseeded),
    (serverRoute_command now (commandRequest id text) id server _ eq_refl).
  cbn [fst snd].
  split; [done |].
  change (default EmptyString (bodyField "command" (commandRequest id text))) with text.
  rewrite Htrim. apply String.eqb_neq in Htext as ->. cbn [negb].
  change (appendLog id ?b (appendLog id ?a ?s)) with (appendLogs id [a; b] s).
  rewrite appendLogs_logsOf.
  unfold logsOf at 1. rewrite getServerState_logs. fold (logsOf id st).
  rewrite (lastLines_tail 200) by (simpl; lia).
  rewrite (lastLines_tail (Z.to_nat n)) by (simpl; lia).
  done.
Qed.

(** X27. In the build with mocks a command typed into the console
    shows at its end: for a selected, registered server, a limit of at
    least 2 that a Number holds exactly, and a command that is not
    blank, [sendCommand] posts the trimmed command to the command route
    of that server; the interceptor answers 200 [{ok: true}]; the
    success callback requests the tail with the limit; the interceptor
    answers with lines that end with [[CMD]] and [[INFO] Executed
    command:] of the trimmed command; and once that response has come
    in, the published logs are exactly these lines. *)
Theorem typed_command_shows_in_the_console env c st server text now later :
  useMocks env = true ->
  apiBaseUrl env = EmptyString ->
  findServer (serverId c) = Some server ->
  seeded st ->
  trim text <> EmptyString ->
  2 <= limit c ->
  safeInteger (limit c) ->
  sendCommand env text c
  = (c, [HttpPost (url (commandRequest (serverId c) (trim text))) (trim text)])
  /\ fst (mockApiInterceptor now (commandRequest (serverId c) (trim text)) st)
     = Respond 200 BOk
  /\ step env (CommandPosted true) c
     = Done c [HttpGet (url (tailRequest (serverId c) (pretty (limit c))))]
  /\ exists earlier,
       fst (mockApiInterceptor later (tailRequest (serverId c) (pretty (limit c)))
              (snd (mockApiInterceptor now (commandRequest (serverId c) (trim text)) st)))
       = Respond 200
           (BLogs (earlier ++ ["[CMD] " +:+ trim text;
                               "[INFO] Executed command: " +:+ trim text]))
       /\ logs
            (run env
               [SendCommand text;
                CommandPosted true;
                LogsResponse
                  (PollBody (logsBody (earlier ++ ["[CMD] " +:+ trim text;
                                                  "[INFO] Executed command: " +:+ trim text])))]
               c)
          = lines (earlier ++ ["[CMD] " +:+ trim text;
                               "[INFO] Executed command: " +:+ trim text]).
Proof.
  intros Hmock Hbase Hfind Hseeded Htext Hlimit Hsafe.
  destruct (registered _ server Hfind) as (Hid & _).
  apply String.eqb_neq in Hid as Hid'. apply String.eqb_neq in Htext as Htext'.
  destruct (command_then_tail now later st (serverId c) server (trim text) (limit c)
              Hfind Hseeded Htext (TrimFacts.trim_idem text) Hlimit Hsafe) as [Hok Htail].
  assert (sendCommand env text c
          = (c, [HttpPost (url (commandRequest (serverId c) (trim text))) (trim text)]))
    as Hsend.
  { unfold sendCommand. rewrite Htext', Hid', Hmock. cbn [orb].
    by rewrite (commandUrl_default env _ Hbase). }
  split; [exact Hsend |].
  split; [exact Hok |].
  split.
  { cbn [step]. unfold fetchLogs. rewrite Hid'.
    unfold logsUrl, buildApiUrl, url. rewrite Hbase. cbn. by rewrite !append_assoc. }
  eexists. split; [exact Htail |].
  unfold run. cbn [fold_left].
  replace (after env (SendCommand text) c) with c
    by (unfold after; cbn [step]; by rewrite Hsend).
  change (after env (CommandPosted true) c) with c.
  unfold after, step, onLogs, logsBody. cbn. rewrite ConsoleFacts.slice_maxDisplay.
  unfold lines. rewrite <- list_fmap_compose, ConsoleFacts.lastLines_fmap.
  rewrite lastLines_all; [done |].
  rewrite length_app, !length_lastLines. cbn [length]. lia.
Qed.

Lemma typed_command_shows_in_the_console_witness :
  sendCommand ServiceVocabulary.mockEnvironment " list "
    (polling "nau-events" 200 created)
  = (polling "nau-events" 200 created,
     [HttpPost (url (commandRequest "nau-events" "list")) "list"]).
Proof.
  refine (proj1
    (typed_command_shows_in_the_console ServiceVocabulary.mockEnvironment
       (polling "nau-events" 200 created) (seedAll initial) _ " list "
       "2026-02-08T08:00:00.000Z" "2026-02-08T08:00:01.000Z" _ _ _ _ _ _ _)).
  - reflexivity.
  - reflexivity.
  - reflexivity.
  - repeat split. vm_compute. discriminate.
  - vm_compute. discriminate.
  - vm_compute. discriminate.
  - unfold safeInteger. simpl. lia.
Defined.

(** The limits the console offers are read back. *)
Example limit_options_read_back :
  Forall (fun n => Number (pretty n) = num n) [50; 100; 200; 500; 1000; 2000; 5000].
Proof. repeat constructor; vm_compute; reflexivity. Qed.

End MockRoundTrip.

Module LiveRoundTrip.
Import Js SliceFacts HubFacts WireVocabulary.

Lemma inbox_app ws first second :
  inbox ws (first ++ second) = inbox ws first ++ inbox ws second.
Proof. unfold inbox. by rewrite List.filter_app, map_app. Qed.

Lemma inbox_toAll ws clients line :
  List.NoDup clients -> In ws clients ->
  inbox ws (ConsoleVocabulary.toAll clients line) = [BackendConsole.Log line].
Proof.
  unfold inbox, ConsoleVocabulary.toAll. induction clients as [| client rest IH]; [done |].
  intros Hnodup Hin. apply NoDup_cons_iff in Hnodup as [Hfresh Hnodup].
  cbn [map List.filter fst]. destruct (Nat.eqb_spec client ws) as [-> | Hne].
  - cbn [map snd]. f_equal.
    clear IH Hin. induction rest as [| other rest IH]; [done |].
    cbn [map List.filter fst]. apply not_in_cons in Hfresh as [Hne Hfresh].
    apply NoDup_cons_iff in Hnodup as [_ Hnodup].
    destruct (Nat.eqb_spec other ws) as [-> | _]; [done |]. by apply IH.
  - destruct Hin as [-> | Hin]; [done |]. by apply IH.
Qed.

Lemma NoDup_listeners id hub :
  List.NoDup (BackendConsole.subscribersOf id hub) ->
  List.NoDup (ConsoleVocabulary.listeners id hub).
Proof. apply List.NoDup_filter. Qed.

Lemma opened env c :
  Client.socket c = Some Client.CONNECTING -> Client.serverId c <> EmptyString ->
  Client.step env Client.SocketOpen c
  = Client.Done
      {| Client.socket := Some Client.OPEN; Client.pollingId := Client.pollingId c;
         Client.serverId := Client.serverId c; Client.limit := Client.limit c;
         Client.logs := Client.logs c; Client.timers := Client.timers c |}
      [Client.Send (Client.Subscribe (Client.serverId c) (Client.limit c))].
Proof.
  intros Hsocket Hid%String.eqb_neq. cbn [Client.step]. rewrite Hsocket.
  cbn [Client.serverId Client.limit]. rewrite Hid. done.
Qed.

Lemma typed env text c :
  Client.useMocks env = false -> Client.socket c = Some Client.OPEN ->
  Client.serverId c <> EmptyString ->
  trim text <> EmptyString ->
  Client.sendCommand env text c = (c, [Client.Send (Client.Command (trim text))]).
Proof.
  intros Hlive Hsocket Hid%String.eqb_neq Htext%String.eqb_neq.
  unfold Client.sendCommand, Client.send. by rewrite Htext, Hid, Hlive, Hsocket.
Qed.

Lemma tail_sent ws id n hub :
  id <> EmptyString -> trim id = id -> 1 <= n ->
  BackendConsole.onMessage ws (received (Client.Subscribe id n)) hub
  = ({| BackendConsole.store := BackendConsole.store hub;
        BackendConsole.serverSubscribers :=
          <[id := BackendConsole.add ws (BackendConsole.subscribersOf id hub)]>
            (BackendConsole.serverSubscribers hub);
        BackendConsole.socketServerId := <[ws := id]> (BackendConsole.socketServerId hub);
        BackendConsole.openSockets := BackendConsole.openSockets hub;
        BackendConsole.sockets := BackendConsole.sockets hub |},
     [(ws, BackendConsole.Logs (lastLines (Z.to_nat n) (BackendConsole.logsOf id hub)))]).
Proof.
  intros Hid Htrim Hn. unfold received, ConsoleVocabulary.subscribe.
  rewrite (onMessage_subscribe ws
             {| BackendConsole.data_type := Some "subscribe";
                BackendConsole.data_serverId := Some id;
                BackendConsole.data_limit := Some (num n);
                BackendConsole.data_command := None |} hub eq_refl);
    cbn [BackendConsole.data_serverId BackendConsole.data_limit];
    change (default EmptyString (Some id)) with id;
    rewrite Htrim; [| done].
  change (default (num 50) (Some (num n))) with (num n).
  rewrite clamp_num, Z.max_r by lia. by rewrite slice_neg_num.
Qed.

(** X28. In the build with a socket the console shows the tail and then
    every line as it is logged: when the socket of a service with a
    selected server opens, the service subscribes with its limit; the
    backend answers the socket with the last lines of that server's
    buffer, up to the limit; a command typed then is sent trimmed, and
    the backend sends its two lines to the socket once each, in order;
    and after these three messages have come in the service publishes
    the tail followed by the two lines. *)
Theorem live_console_shows_tail_then_lines env c ws hub text :
  Client.useMocks env = false ->
  Client.socket c = Some Client.CONNECTING ->
  Client.serverId c <> EmptyString -> trim (Client.serverId c) = Client.serverId c ->
  1 <= Client.limit c ->
  trim text <> EmptyString ->
  ws ∈ BackendConsole.openSockets hub ->
  ConsoleVocabulary.capped hub ->
  List.NoDup (BackendConsole.subscribersOf (Client.serverId c) hub) ->
  effectsOfOpen env c = [Client.Send (Client.Subscribe (Client.serverId c) (Client.limit c))]
  /\ snd (BackendConsole.onMessage ws
            (received (Client.Subscribe (Client.serverId c) (Client.limit c))) hub)
     = [(ws, BackendConsole.Logs (tailFor c hub))]
  /\ snd (Client.sendCommand env text (Client.after env Client.SocketOpen c))
     = [Client.Send (Client.Command (trim text))]
  /\ inbox ws
       (snd (BackendConsole.onMessage ws (received (Client.Command (trim text)))
               (fst (BackendConsole.onMessage ws
                       (received (Client.Subscribe (Client.serverId c) (Client.limit c)))
                       hub))))
     = [BackendConsole.Log ("[CMD] " +:+ trim text);
        BackendConsole.Log ("[INFO] Executed command: " +:+ trim text)]
  /\ Client.logs
       (Client.run env
          [Client.SocketOpen;
           Client.Message (delivered (BackendConsole.Logs (tailFor c hub)));
           Client.SendCommand text;
           Client.Message (delivered (BackendConsole.Log ("[CMD] " +:+ trim text)));
           Client.Message
             (delivered (BackendConsole.Log ("[INFO] Executed command: " +:+ trim text)))]
          c)
     = Client.lines
         (tailFor c hub
          ++ ["[CMD] " +:+ trim text; "[INFO] Executed command: " +:+ trim text]).
Proof.
  intros Hlive Hsocket Hid Htrim Hlimit Htext Hopen Hcapped Hnodup.
  unfold tailFor. set (tail := lastLines _ _).
  set (c1 := {| Client.socket := Some Client.OPEN; Client.pollingId := Client.pollingId c;
                Client.serverId := Client.serverId c; Client.limit := Client.limit c;
                Client.logs := Client.logs c; Client.timers := Client.timers c |}).
  assert (Client.after env Client.SocketOpen c = c1) as Hafter
    by (unfold Client.after; by rewrite (opened env c Hsocket Hid)).
  assert (length tail <= 200)%nat as Htail.
  { unfold tail. rewrite length_lastLines. unfold BackendConsole.logsOf.
    destruct (Backend.serverLogs (BackendConsole.store hub) !! Client.serverId c)
      as [buffer |] eqn:E; [| simpl; lia].
    pose proof (Hcapped _ _ E). simpl. lia. }
  split.
  { unfold effectsOfOpen, ServiceVocabulary.effectsOf. by rewrite (opened env c Hsocket Hid). }
  rewrite (tail_sent ws _ _ hub Hid Htrim Hlimit). cbn [fst snd]. fold tail.
  split; [done |].
  split; [rewrite Hafter; by rewrite (typed env text c1 Hlive eq_refl Hid Htext) |].
  split.
  - unfold received, ConsoleVocabulary.command.
    rewrite (onMessage_command ws
               {| BackendConsole.data_type := Some "command";
                  BackendConsole.data_serverId := None;
                  BackendConsole.data_limit := None;
                  BackendConsole.data_command := Some (trim text) |}
               (Client.serverId c) _ eq_refl);
      [| apply lookup_insert_eq | done].
    cbn [BackendConsole.data_command].
    change (default EmptyString (Some (trim text))) with (trim text).
    rewrite TrimFacts.trim_idem, (execute_lines _ _ _ Htext). cbn [snd].
    rewrite inbox_app.
    match goal with
    | |- context [ConsoleVocabulary.listeners ?id ?h] =>
        assert (List.NoDup (ConsoleVocabulary.listeners id h)
                /\ In ws (ConsoleVocabulary.listeners id h)) as [H1 H2]
    end.
    { split.
      - apply NoDup_listeners. unfold BackendConsole.subscribersOf at 1.
        cbn [BackendConsole.serverSubscribers].
        rewrite lookup_insert_eq. by apply NoDup_add.
      - apply In_listeners. split; [| done].
        unfold BackendConsole.subscribersOf at 1. cbn [BackendConsole.serverSubscribers].
        rewrite lookup_insert_eq. apply In_add. }
    by rewrite !inbox_toAll.
  - unfold Client.run. cbn [fold_left]. rewrite Hafter.
    unfold Client.after at 4. cbn [Client.step delivered].
    rewrite ConsoleFacts.snapshot_publishes_last_5000, lastLines_all by lia.
    unfold Client.after at 3. cbn [Client.step].
    rewrite typed by done.
    unfold Client.after at 2. cbn [Client.step].
    rewrite ConsoleFacts.line_publishes_last_5000, lastLines_all
      by (rewrite length_app; cbn [length]; lia).
    unfold Client.after. cbn [Client.step].
    rewrite ConsoleFacts.line_publishes_last_5000, lastLines_all
      by (rewrite !length_app; cbn [length]; lia).
    cbn [Client.logs Client.publish]. by rewrite <- app_assoc.
Qed.

Lemma live_console_shows_tail_then_lines_witness :
  effectsOfOpen ServiceVocabulary.liveEnvironment (connecting "survival" 200)
  = [Client.Send (Client.Subscribe "survival" 200)]
  /\ inbox 0
       (snd (BackendConsole.onMessage 0 (received (Client.Command "list"))
               (fst (BackendConsole.onMessage 0 (received (Client.Subscribe "survival" 200))
                       (snd (BackendConsole.onConnection BackendConsole.started))))))
     = [BackendConsole.Log "[CMD] list"; BackendConsole.Log "[INFO] Executed command: list"].
Proof.
  pose proof (live_console_shows_tail_then_lines ServiceVocabulary.liveEnvironment
                (connecting "survival" 200) 0
                (snd (BackendConsole.onConnection BackendConsole.started)) " list ") as H.
  destruct H as (Hopen & _ & _ & Hinbox & _).
  - reflexivity.
  - reflexivity.
  - vm_compute. discriminate.
  - reflexivity.
  - vm_compute. discriminate.
  - vm_compute. discriminate.
  - cbn [BackendConsole.onConnection snd BackendConsole.openSockets BackendConsole.started
         BackendConsole.sockets]. apply elem_of_union_l, elem_of_singleton. reflexivity.
  - intros id buffer H. cbn in H. rewrite lookup_empty in H. discriminate.
  - cbn. constructor.
  - split; [exact Hopen | exact Hinbox].
Defined.

End LiveRoundTrip.
